(** * gui-idle: template matcher, entity tracker and search-state handler

  A shallow embedding of the Go sources
    - internal/engine/screen (new matcher: FindAllTemplates,
      FindAllTemplatesInROI, FindTemplate, colorSimilar, match),
    - internal/engine/screen/vision.go (old matcher: FindTemplate),
    - app/global/entity.go (EntityTracker),
    - app/global bot (handleSearchOpenState; and, in module [expedition],
      the whole state machine: processState and the handlers of all states),
    - app/global/entity.go (ExtractPriority, SortEntitiesByPriority, Center),
    - cmd/debug_match (matchNew),
  together with the properties proved about them.

  Conventions.  Go's [int] is modelled by [Z]: image coordinates, click
  counts and retry counters stay far away from 2^63.  Go's [uint32] is
  modelled by [Z] with the wrap-around modulo 2^32 written out.  Go's
  [float64] is modelled by IEEE-754 binary64 as specified by the standard
  library's [SpecFloat] (precision 53, emax 1024).  Go maps are [gmap]s;
  the unspecified iteration order of [range] over a map is an explicit
  parameter. *)

From Stdlib Require Import ZArith List Bool Lia Floats.SpecFloat DecimalString.
From Stdlib Require Import DecimalPos DecimalZ Ascii.
From stdpp Require Import base tactics option list list_numbers gmap strings sorting.

Local Open Scope Z_scope.

(** ** float64 *)

Module float64.

Definition prec : Z := 53.
Definition emax : Z := 1024.

(** [float64(v)] for an integer [v]: round to nearest even. *)
Definition of_Z (v : Z) : spec_float := binary_normalize prec emax v 0 false.

(** [math.Sqrt]. *)
Definition Sqrt (x : spec_float) : spec_float := SFsqrt prec emax x.

(** [x <= y] on float64: false as soon as one side is NaN. *)
Definition le (x y : spec_float) : bool := SFleb x y.

End float64.

(** ** uint32 arithmetic *)

Module uint32.

Definition modulus : Z := 2 ^ 32.
Definition wrap (v : Z) : Z := v mod modulus.
Definition sub (a b : Z) : Z := wrap (a - b).
Definition mul (a b : Z) : Z := wrap (a * b).
Definition add (a b : Z) : Z := wrap (a + b).
Definition shr (a : Z) (n : Z) : Z := Z.shiftr a n.

End uint32.

(** ** Package image: points, rectangles, images *)

Module image.

Record Point := mkPoint { X : Z; Y : Z }.

Record Rectangle := mkRect { Min : Point; Max : Point }.

Definition Dx (r : Rectangle) : Z := X (Max r) - X (Min r).
Definition Dy (r : Rectangle) : Z := Y (Max r) - Y (Min r).

(** [r.Empty()]: the rectangle contains no point. *)
Definition Empty (r : Rectangle) : bool :=
  (X (Max r) <=? X (Min r)) || (Y (Max r) <=? Y (Min r)).

Definition ZR : Rectangle := mkRect (mkPoint 0 0) (mkPoint 0 0).

(** [r.Intersect(s)]: the largest rectangle contained in both, or the
    zero rectangle when they do not overlap. *)
Definition Intersect (r s : Rectangle) : Rectangle :=
  let minx := if X (Min r) <? X (Min s) then X (Min s) else X (Min r) in
  let miny := if Y (Min r) <? Y (Min s) then Y (Min s) else Y (Min r) in
  let maxx := if X (Max s) <? X (Max r) then X (Max s) else X (Max r) in
  let maxy := if Y (Max s) <? Y (Max r) then Y (Max s) else Y (Max r) in
  let r' := mkRect (mkPoint minx miny) (mkPoint maxx maxy) in
  if Empty r' then ZR else r'.

(** An [image.Image]: its bounds and, for every coordinate, the four
    uint32 values that [img.At(x, y).RGBA()] returns. *)
Record Image := mkImage {
  Bounds : Rectangle;
  At : Z -> Z -> Z * Z * Z * Z
}.

End image.

Import image.

(** Go's [a / b] on [int]: truncation toward zero. *)
Definition go_div (a b : Z) : Z := Z.quot a b.

(** ** The new matcher (package screen) *)

Module screen.

(** The closure [getRgbAndAlpha]: components normalised to 0-255. *)
Definition getRgbAndAlpha (img : Image) (x y : Z) : Z * Z * Z * Z :=
  let '(r, g, b, a) := At img x y in
  (uint32.shr r 8, uint32.shr g 8, uint32.shr b 8, uint32.shr a 8).

Definition colorSimilar (r1 g1 b1 r2 g2 b2 : Z) (tolerance : spec_float) : bool :=
  let dr := uint32.sub r1 r2 in
  let dg := uint32.sub g1 g2 in
  let db := uint32.sub b1 b2 in
  let diff :=
    float64.Sqrt
      (float64.of_Z
         (uint32.add (uint32.add (uint32.mul dr dr) (uint32.mul dg dg))
                     (uint32.mul db db))) in
  float64.le diff tolerance.

(** One iteration of the body of [match]'s inner loop: [true] means the
    loop goes on, [false] is the early [return false]. *)
Definition match_pixel (screenImg templateImg : Image) (sx sy : Z)
    (tolerance : spec_float) (ty tx : Z) : bool :=
  let tb := Bounds templateImg in
  let '(tr, tg, tbl, ta) :=
    getRgbAndAlpha templateImg (X (Min tb) + tx) (Y (Min tb) + ty) in
  if ta =? 0 then true
  else
    let '(sr, sg, sb, _) := getRgbAndAlpha screenImg (sx + tx) (sy + ty) in
    colorSimilar sr sg sb tr tg tbl tolerance.

(** [match]: both loops run over [0 .. Dy) and [0 .. Dx) and leave at the
    first failing pixel. *)
Definition match_ (screenImg templateImg : Image) (sx sy : Z)
    (tolerance : spec_float) : bool :=
  let tb := Bounds templateImg in
  forallb (fun ty =>
    forallb (fun tx => match_pixel screenImg templateImg sx sy tolerance ty tx)
            (seqZ 0 (Dx tb)))
    (seqZ 0 (Dy tb)).

(** One of the three quick checks: the template sample at [(kx, ky)]
    against the screen pixel at [(px, py)], skipped when transparent. *)
Definition quickCheck (screenImg templateImg : Image)
    (tolerance : spec_float) (kx ky px py : Z) : bool :=
  let '(tr, tg, tbl, ta) := getRgbAndAlpha templateImg kx ky in
  if 0 <? ta then
    let '(sr, sg, sb, _) := getRgbAndAlpha screenImg px py in
    colorSimilar sr sg sb tr tg tbl tolerance
  else true.

(** The body of the inner scan loop up to the decision to append:
    three quick checks, then the full check. *)
Definition candidate (screenImg templateImg : Image)
    (tolerance : spec_float) (x y : Z) : bool :=
  let tb := Bounds templateImg in
  let tWidth := Dx tb in
  let tHeight := Dy tb in
  quickCheck screenImg templateImg tolerance
    (X (Min tb)) (Y (Min tb)) x y
  && quickCheck screenImg templateImg tolerance
    (X (Min tb) + go_div tWidth 2) (Y (Min tb) + go_div tHeight 2)
    (x + go_div tWidth 2) (y + go_div tHeight 2)
  && quickCheck screenImg templateImg tolerance
    (X (Max tb) - 1) (Y (Max tb) - 1) (x + tWidth - 1) (y + tHeight - 1)
  && match_ screenImg templateImg x y tolerance.

(** The inner loop [for x := x0; x <= xmax; x++], whose body advances
    [x] by [skip] after an accepted match.  [fuel] bounds the number of
    iterations. *)
Fixpoint scanRow (cand : Z -> bool) (skip xmax : Z) (fuel : nat) (x : Z)
    : list Z :=
  match fuel with
  | O => []
  | S fuel' =>
      if x <=? xmax then
        if cand x then x :: scanRow cand skip xmax fuel' (x + skip + 1)
        else scanRow cand skip xmax fuel' (x + 1)
      else []
  end.

(** Iterations that the inner loop can need when [skip] is not negative,
as it is for every template whose bounds are well-formed (a width of at
least 0): each iteration advances [x] by at least one.  Lemma
[scanRow_fuel] below shows that no larger bound changes the result. *)
Definition rowFuel (xmin xmax : Z) : nat := Z.to_nat (xmax - xmin + 1).

(** The two nested loops shared by [FindAllTemplates] and
    [FindAllTemplatesInROI], over the search area [area]. *)
Definition scanArea (screenImg templateImg : Image) (area : Rectangle)
    (tolerance : spec_float) : list Point :=
  let tb := Bounds templateImg in
  let tWidth := Dx tb in
  let tHeight := Dy tb in
  let xmin := X (Min area) in
  let xmax := X (Max area) - tWidth in
  concat
    (map (fun y =>
            map (fun x => mkPoint x y)
                (scanRow (fun x => candidate screenImg templateImg tolerance x y)
                         (go_div tWidth 2) xmax (rowFuel xmin xmax) xmin))
         (seqZ (Y (Min area)) (Y (Max area) - tHeight - Y (Min area) + 1))).

Definition FindAllTemplates (screenImg templateImg : Image)
    (tolerance : spec_float) : list Point :=
  scanArea screenImg templateImg (Bounds screenImg) tolerance.

Definition FindTemplate (screenImg templateImg : Image)
    (tolerance : spec_float) : Z * Z * bool :=
  match FindAllTemplates screenImg templateImg tolerance with
  | p :: _ => (X p, Y p, true)
  | [] => (0, 0, false)
  end.

Definition FindAllTemplatesInROI (screenImg templateImg : Image)
    (roi : Rectangle) (tolerance : spec_float) : list Point :=
  if Empty roi then FindAllTemplates screenImg templateImg tolerance
  else
    let sBounds := Bounds screenImg in
    let tBounds := Bounds templateImg in
    let searchArea := Intersect roi sBounds in
    if Empty searchArea then []
    else if (Dx searchArea <? Dx tBounds) || (Dy searchArea <? Dy tBounds) then []
    else scanArea screenImg templateImg searchArea tolerance.

End screen.

(** ** The old matcher (vision.go) *)

Module vision.

(** The closure [getRgb]. *)
Definition getRgb (img : Image) (x y : Z) : Z * Z * Z :=
  let '(r, g, b, _) := At img x y in
  (uint32.shr r 8, uint32.shr g 8, uint32.shr b 8).

Definition colorSimilar (r1 g1 b1 r2 g2 b2 : Z) (tolerance : spec_float) : bool :=
  let dr := uint32.sub r1 r2 in
  let dg := uint32.sub g1 g2 in
  let db := uint32.sub b1 b2 in
  let diff :=
    float64.Sqrt
      (float64.of_Z
         (uint32.add (uint32.add (uint32.mul dr dr) (uint32.mul dg dg))
                     (uint32.mul db db))) in
  float64.le diff tolerance.

Definition match_pixel (screenImg templateImg : Image) (sx sy : Z)
    (tolerance : spec_float) (ty tx : Z) : bool :=
  let tb := Bounds templateImg in
  let '(tr, tg, tbl) := getRgb templateImg (X (Min tb) + tx) (Y (Min tb) + ty) in
  let '(sr, sg, sb) := getRgb screenImg (sx + tx) (sy + ty) in
  colorSimilar sr sg sb tr tg tbl tolerance.

Definition match_ (screenImg templateImg : Image) (sx sy : Z)
    (tolerance : spec_float) : bool :=
  let tb := Bounds templateImg in
  forallb (fun ty =>
    forallb (fun tx => match_pixel screenImg templateImg sx sy tolerance ty tx)
            (seqZ 0 (Dx tb)))
    (seqZ 0 (Dy tb)).

(** Quick check on the first template pixel, then the full check. *)
Definition candidate (screenImg templateImg : Image)
    (tolerance : spec_float) (x y : Z) : bool :=
  let tb := Bounds templateImg in
  let '(tr0, tg0, tb0) := getRgb templateImg (X (Min tb)) (Y (Min tb)) in
  let '(sr, sg, sb) := getRgb screenImg x y in
  colorSimilar sr sg sb tr0 tg0 tb0 tolerance
  && match_ screenImg templateImg x y tolerance.

(** The inner loop: the first [x] of the row that passes, if any. *)
Fixpoint firstInRow (cand : Z -> bool) (xs : list Z) : option Z :=
  match xs with
  | [] => None
  | x :: xs' => if cand x then Some x else firstInRow cand xs'
  end.

(** The outer loop: the first row with a hit. *)
Fixpoint firstInRows (cand : Z -> Z -> bool) (xs ys : list Z)
    : option (Z * Z) :=
  match ys with
  | [] => None
  | y :: ys' =>
      match firstInRow (fun x => cand x y) xs with
      | Some x => Some (x, y)
      | None => firstInRows cand xs ys'
      end
  end.

Definition FindTemplate (screenImg templateImg : Image)
    (tolerance : spec_float) : Z * Z * bool :=
  let sBounds := Bounds screenImg in
  let tBounds := Bounds templateImg in
  let sWidth := Dx sBounds in
  let sHeight := Dy sBounds in
  let tWidth := Dx tBounds in
  let tHeight := Dy tBounds in
  if (sWidth <? tWidth) || (sHeight <? tHeight) then (0, 0, false)
  else
    match firstInRows (candidate screenImg templateImg tolerance)
            (seqZ (X (Min sBounds)) (X (Max sBounds) - tWidth - X (Min sBounds) + 1))
            (seqZ (Y (Min sBounds)) (Y (Max sBounds) - tHeight - Y (Min sBounds) + 1))
    with
    | Some (x, y) => (x, y, true)
    | None => (0, 0, false)
    end.

End vision.

(** ** strconv *)

Module strconv.

(** [strconv.Itoa]: decimal digits, with a leading minus sign for negative
numbers. *)
Definition Itoa (n : Z) : string := DecimalString.NilZero.string_of_int (Z.to_int n).

End strconv.

(** ** Package constants *)

Module constants.

(** Durations are counted in nanoseconds, as [time.Duration] does. *)
Definition Millisecond : Z := 1000000.
Definition Second : Z := 1000 * Millisecond.

Definition EntryScanIntervalHighSpeed : Z := 150 * Millisecond.
Definition EntryRetryInterval : Z := 0.
Definition InGameScanInterval : Z := 30 * Second.
Definition SearchScanInterval : Z := 2 * Second.
Definition SearchRetryInterval : Z := 500 * Millisecond.

Definition SearchMaxRetries : Z := 3.

Definition WaitAfterClickQuick : Z := 100 * Millisecond.
Definition WaitAfterClickNormal : Z := 1 * Second.

Definition EntityTTL : Z := 2 * Second.

(** The untyped constant 60, converted to float64 at its uses. *)
Definition DefaultTolerance : spec_float := float64.of_Z 60.

End constants.

(** ** The entity tracker (app/global/entity.go) *)

Module global.

Record DetectedEntity := mkDetected {
  TemplateName : string;
  Priority : Z;
  Position : Point;
  TemplateSize : Point
}.

(** [time.Time] values are instants in nanoseconds. *)
Record TrackedEntity := mkTracked {
  Entity : DetectedEntity;
  ClickCount : Z;
  LastSeen : Z;
  FirstSeen : Z
}.

(** The mutex and the debug callback are not state: the calls below are
atomic, and what [debugFunc] receives is returned as a list of events. *)
Record EntityTracker := mkTracker {
  entities : gmap string TrackedEntity;
  blacklist : gmap string Z;
  maxClicks : Z;
  positionThresh : Z;
  ttl : Z;
  lastHighPriEntity : option DetectedEntity;
  roiMargin : Z
}.

Definition NewEntityTracker : EntityTracker :=
  mkTracker ∅ ∅ 7 20 (2 * constants.Second) None 100.

Definition with_entities (t : EntityTracker) (m : gmap string TrackedEntity)
    : EntityTracker :=
  mkTracker m (blacklist t) (maxClicks t) (positionThresh t) (ttl t)
            (lastHighPriEntity t) (roiMargin t).

Definition with_blacklist (t : EntityTracker) (b : gmap string Z)
    : EntityTracker :=
  mkTracker (entities t) b (maxClicks t) (positionThresh t) (ttl t)
            (lastHighPriEntity t) (roiMargin t).

Definition entityKey (t : EntityTracker) (e : DetectedEntity) : string :=
  let qx := go_div (X (Position e)) (positionThresh t) * positionThresh t in
  let qy := go_div (Y (Position e)) (positionThresh t) * positionThresh t in
  strconv.Itoa (Priority e) +:+ "_" +:+ strconv.Itoa qx +:+ "_" +:+ strconv.Itoa qy.

Definition abs (x : Z) : Z := if x <? 0 then - x else x.

Definition xThreshold : Z := 30.
Definition yMaxMove : Z := 200.

(** The body of [findMovedEntity]'s loop for one tracked entity: does it
return this entity's key? *)
Definition movedMatch (t : EntityTracker) (e d : DetectedEntity) : bool :=
  if negb (Priority e =? Priority d) then false
  else
    let xDiff := abs (X (Position e) - X (Position d)) in
    if xThreshold <? xDiff then false
    else
      let yDiff := Y (Position e) - Y (Position d) in
      if (0 <? yDiff) && (yDiff <=? yMaxMove) then true
      else if (yDiff <? 0) && (- yDiff <=? positionThresh t) then true
      else false.

(** [findMovedEntity], on the entries of [t.entities] in the order in which
[range] happens to visit them. *)
Fixpoint findMovedEntity (t : EntityTracker)
    (visit : list (string * TrackedEntity)) (d : DetectedEntity) : string :=
  match visit with
  | [] => ""
  | (key, tracked) :: rest =>
      if movedMatch t (Entity tracked) d then key
      else findMovedEntity t rest d
  end.

(** What the tracker reports through [debugFunc]. *)
Inductive Event :=
| EvExact (key : string)
| EvMoved (oldKey newKey : string)
| EvTransferred
| EvNew (key : string)
| EvExpired (key : string).

(** Go leaves the iteration order of [range] over a map unspecified.  A
[RangeOrder] chooses it: [order i m] lists the entries of [m] as the
[i]-th [range] statement executed by a call visits them. *)
Definition RangeOrder := nat -> gmap string TrackedEntity -> list (string * TrackedEntity).

Definition valid_order (order : RangeOrder) : Prop :=
  ∀ i m, order i m ≡ₚ map_to_list m.

Record UpdateState := mkUpdate {
  tracker : EntityTracker;
  seen : gset string;
  events : list Event
}.

(** The body of the first loop of [Update] for the [i]-th detection. *)
Definition reconcile (order : RangeOrder) (now : Z) (i : nat)
    (st : UpdateState) (d : DetectedEntity) : UpdateState :=
  let t := tracker st in
  let key := entityKey t d in
  let seen1 := {[ key ]} ∪ seen st in
  match entities t !! key with
  | Some existing =>
      let existing' :=
        mkTracked d (ClickCount existing) now (FirstSeen existing) in
      mkUpdate (with_entities t (<[ key := existing' ]> (entities t)))
               seen1 (events st ++ [EvExact key])
  | None =>
      let matchedKey := findMovedEntity t (order i (entities t)) d in
      if negb (String.eqb matchedKey "") then
        match entities t !! matchedKey with
        | Some oldEntity =>
            let ents1 :=
              <[ key := mkTracked d (ClickCount oldEntity) now (FirstSeen oldEntity) ]>
                (entities t) in
            let '(bl1, ev1) :=
              match blacklist t !! matchedKey with
              | Some stamp =>
                  (delete matchedKey (<[ key := stamp ]> (blacklist t)),
                   [EvTransferred])
              | None => (blacklist t, [])
              end in
            mkUpdate
              (with_blacklist (with_entities t (delete matchedKey ents1)) bl1)
              seen1 (events st ++ [EvMoved matchedKey key] ++ ev1)
        | None =>
            (* not reached: the key was handed out by a range over the map *)
            mkUpdate t seen1 (events st)
        end
      else
        mkUpdate
          (with_entities t (<[ key := mkTracked d 0 now now ]> (entities t)))
          seen1 (events st ++ [EvNew key])
  end.

Fixpoint reconcileAll (order : RangeOrder) (now : Z) (i : nat)
    (st : UpdateState) (detected : list DetectedEntity) : UpdateState :=
  match detected with
  | [] => st
  | d :: rest => reconcileAll order now (S i) (reconcile order now i st d) rest
  end.

(** The body of the second loop of [Update] for one visited entry. *)
Definition expireOne (now : Z) (st : UpdateState)
    (entry : string * TrackedEntity) : UpdateState :=
  let t := tracker st in
  let '(key, tracked) := entry in
  if negb (bool_decide (key ∈ seen st)) && (ttl t <? now - LastSeen tracked) then
    mkUpdate (with_entities t (delete key (entities t))) (seen st)
             (events st ++ [EvExpired key])
  else st.

(** [Update] at the instant [now] read from the clock. *)
Definition Update (order : RangeOrder) (now : Z) (t : EntityTracker)
    (detected : list DetectedEntity) : EntityTracker * list Event :=
  let st1 := reconcileAll order now 0 (mkUpdate t ∅ []) detected in
  let st2 :=
    fold_left (expireOne now)
              (order (length detected) (entities (tracker st1))) st1 in
  (tracker st2, events st2).

Definition IsBlacklisted (t : EntityTracker) (e : DetectedEntity) : bool :=
  match blacklist t !! entityKey t e with
  | Some _ => true
  | None => false
  end.

(** [RecordClick]; [tFirst], [tLast] and [tBlack] are the three readings of
the clock that it can take. *)
Definition RecordClick (tFirst tLast tBlack : Z) (t : EntityTracker)
    (e : DetectedEntity) : EntityTracker * bool :=
  let key := entityKey t e in
  match blacklist t !! key with
  | Some _ => (t, true)
  | None =>
      let tracked :=
        match entities t !! key with
        | Some tr => tr
        | None => mkTracked e 0 tLast tFirst
        end in
      let tracked' :=
        mkTracked (Entity tracked) (ClickCount tracked + 1)
                  (LastSeen tracked) (FirstSeen tracked) in
      let t1 := with_entities t (<[ key := tracked' ]> (entities t)) in
      if maxClicks t <=? ClickCount tracked' then
        (with_blacklist t1 (<[ key := tBlack ]> (blacklist t1)), true)
      else (t1, false)
  end.

Definition GetClickCount (t : EntityTracker) (e : DetectedEntity) : Z :=
  match entities t !! entityKey t e with
  | Some tracked => ClickCount tracked
  | None => 0
  end.

Definition FilterBlacklisted (t : EntityTracker) (es : list DetectedEntity)
    : list DetectedEntity :=
  filter (fun e => blacklist t !! entityKey t e = None) es.

Definition Reset (t : EntityTracker) : EntityTracker :=
  mkTracker ∅ ∅ (maxClicks t) (positionThresh t) (ttl t) None (roiMargin t).

Definition Stats (t : EntityTracker) : Z * Z :=
  (Z.of_nat (size (entities t)), Z.of_nat (size (blacklist t))).

Definition SetLastHighPriority (t : EntityTracker) (e : DetectedEntity)
    : EntityTracker :=
  mkTracker (entities t) (blacklist t) (maxClicks t) (positionThresh t)
            (ttl t) (Some e) (roiMargin t).

Definition GetROI (t : EntityTracker) : Rectangle :=
  match lastHighPriEntity t with
  | None => ZR
  | Some e =>
      let margin := roiMargin t in
      mkRect (mkPoint (X (Position e) - margin) (Y (Position e) - margin))
             (mkPoint (X (Position e) + X (TemplateSize e) + margin)
                      (Y (Position e) + Y (TemplateSize e) + margin))
  end.

Definition HasROI (t : EntityTracker) : bool :=
  match lastHighPriEntity t with Some _ => true | None => false end.

(** A sequence of [RecordClick] calls, each with its detection and clock
readings; the tracker is threaded through and the results collected. *)
Definition Click : Type := Z * Z * Z * DetectedEntity.

Fixpoint RecordClicks (t : EntityTracker) (calls : list Click)
    : EntityTracker * list bool :=
  match calls with
  | [] => (t, [])
  | (tFirst, tLast, tBlack, e) :: rest =>
      let '(t1, r) := RecordClick tFirst tLast tBlack t e in
      let '(t2, rs) := RecordClicks t1 rest in
      (t2, r :: rs)
  end.

End global.

(** ** The bot's search-open handler (app/global) *)

Module bot.

Inductive BotState :=
| StateStopped
| StateAutoDetect
| StateEntry
| StateEntryWaiting
| StateInGame
| StateExitStep1
| StateExitStep2
| StateSearchOpen
| StateSearchSelect
| StateSearchVerify.

Record Target := mkTarget { Name : string; Image : image.Image }.

(** The fields of [GlobalBot] that the search handlers read or write. *)
Record GlobalBot := mkBot {
  State : BotState;
  targetsChannelOpen : list Target;
  searchRetryCount : Z;
  displayOffsetX : Z;
  displayOffsetY : Z
}.

(** What a handler does to the outside world, in order. *)
Inductive Effect :=
| Status (retries limit : Z)
| MoveMouseAndClick (globalX globalY : Z)
| Sleep (d : Z)
| Log (msg : string).

Definition setState (b : GlobalBot) (s : BotState) : GlobalBot :=
  mkBot s (targetsChannelOpen b) (searchRetryCount b)
        (displayOffsetX b) (displayOffsetY b).

Definition setRetryCount (b : GlobalBot) (n : Z) : GlobalBot :=
  mkBot (State b) (targetsChannelOpen b) n
        (displayOffsetX b) (displayOffsetY b).

Definition performClick (b : GlobalBot) (x y w h : Z) : Effect :=
  let centerX := x + go_div w 2 in
  let centerY := y + go_div h 2 in
  MoveMouseAndClick (centerX + displayOffsetX b) (centerY + displayOffsetY b).

(** The loop over [b.targetsChannelOpen]: the first target found on the
screen, with the position of the match. *)
Fixpoint firstFound (screenImg : image.Image) (targets : list Target)
    : option (Target * Z * Z) :=
  match targets with
  | [] => None
  | target :: rest =>
      let '(fx, fy, found) :=
        screen.FindTemplate screenImg (Image target) constants.DefaultTolerance in
      if found then Some (target, fx, fy) else firstFound screenImg rest
  end.

(** [handleSearchOpenState]; [capture] is what [CaptureScreen] returns on
this tick, [None] standing for its error.  The result is the bot, the delay
before the next tick and the effects performed. *)
Definition handleSearchOpenState (b : GlobalBot) (capture : option image.Image)
    : GlobalBot * Z * list Effect :=
  let status := Status (searchRetryCount b) constants.SearchMaxRetries in
  match capture with
  | None => (b, constants.SearchRetryInterval, [status])
  | Some screenImg =>
      match firstFound screenImg (targetsChannelOpen b) with
      | Some (target, fx, fy) =>
          let click :=
            performClick b fx fy (Dx (Bounds (Image target)))
                         (Dy (Bounds (Image target))) in
          (setState (setRetryCount b 0) StateSearchSelect,
           constants.WaitAfterClickNormal,
           [status; click; Sleep constants.WaitAfterClickNormal])
      | None =>
          let b1 := setRetryCount b (searchRetryCount b + 1) in
          if constants.SearchMaxRetries <=? searchRetryCount b1 then
            (setState (setRetryCount b1 0) StateAutoDetect,
             constants.SearchRetryInterval,
             [status;
              Log "SearchOpen: Max retries reached. Falling back to AutoDetect."])
          else (b1, constants.SearchRetryInterval, [status])
      end
  end.

(** A handler: bot and capture in, bot, delay and effects out. *)
Definition Handler : Type :=
  GlobalBot -> option image.Image -> GlobalBot * Z * list Effect.

(** [processState]: the dispatch on the current state.  The handlers of the
other states are parameters. *)
Definition processState (others : BotState -> Handler) : Handler :=
  fun b capture =>
    match State b with
    | StateSearchOpen => handleSearchOpenState b capture
    | StateStopped => (b, constants.EntryScanIntervalHighSpeed, [])
    | s => others s b capture
    end.

(** The loop: one [processState] per timer tick, each with its capture. *)
Fixpoint runTicks (others : BotState -> Handler) (b : GlobalBot)
    (captures : list (option image.Image)) : GlobalBot :=
  match captures with
  | [] => b
  | c :: rest => runTicks others (processState others b c).1.1 rest
  end.

(** A tick on which the screen is captured and no channel-open marker is
found on it. *)
Definition failedTick (b : GlobalBot) (capture : option image.Image) : Prop :=
  ∃ screenImg, capture = Some screenImg
    ∧ firstFound screenImg (targetsChannelOpen b) = None.

End bot.

(** ** Vocabulary of the matcher's properties *)

Module matching.

(** The normalised alpha of a pixel, as the matcher reads it. *)
Definition alpha (img : Image) (x y : Z) : Z :=
  let '(_, _, _, a) := screen.getRgbAndAlpha img x y in a.

(** No pixel of the template is transparent (a wildcard). *)
Definition opaque (templateImg : Image) : Prop :=
  ∀ x y,
    X (Min (Bounds templateImg)) ≤ x < X (Max (Bounds templateImg)) →
    Y (Min (Bounds templateImg)) ≤ y < Y (Max (Bounds templateImg)) →
    alpha templateImg x y ≠ 0.

(** The template has at least one pixel. *)
Definition nonEmpty (templateImg : Image) : Prop :=
  0 < Dx (Bounds templateImg) ∧ 0 < Dy (Bounds templateImg).

(** The screen pixel at [(px, py)] is within [tolerance] RGB distance of the
template pixel at [(kx, ky)]. *)
Definition pixelWithin (screenImg templateImg : Image)
    (tolerance : spec_float) (px py kx ky : Z) : bool :=
  let '(sr, sg, sb, _) := screen.getRgbAndAlpha screenImg px py in
  let '(tr, tg, tb, _) := screen.getRgbAndAlpha templateImg kx ky in
  screen.colorSimilar sr sg sb tr tg tb tolerance.

(** Every pixel of the template, placed with its top-left corner at [p], is
within tolerance of the screen pixel under it. *)
Definition placedWithin (screenImg templateImg : Image)
    (tolerance : spec_float) (p : Point) : Prop :=
  ∀ tx ty,
    0 ≤ tx < Dx (Bounds templateImg) →
    0 ≤ ty < Dy (Bounds templateImg) →
    pixelWithin screenImg templateImg tolerance
      (X p + tx) (Y p + ty)
      (X (Min (Bounds templateImg)) + tx) (Y (Min (Bounds templateImg)) + ty)
    = true.

(** The positions that the scan of [area] visits at all: the template,
placed there, lies inside the area. *)
Definition inArea (area : Rectangle) (templateImg : Image) (p : Point) : Prop :=
  X (Min area) ≤ X p ≤ X (Max area) - Dx (Bounds templateImg)
  ∧ Y (Min area) ≤ Y p ≤ Y (Max area) - Dy (Bounds templateImg).

(** [p] lies in the stretch of its row that the scan jumps over after
accepting another reported match [q]: at most half a template width to
the right of [q]. *)
Definition skippedBy (templateImg : Image) (found : list Point) (p : Point)
    : Prop :=
  ∃ q, In q found ∧ Y q = Y p
    ∧ X q < X p ≤ X q + go_div (Dx (Bounds templateImg)) 2.

(** Row-major scan order: top to bottom, then left to right. *)
Definition rowMajorLt (p q : Point) : Prop :=
  Y p < Y q ∨ (Y p = Y q ∧ X p < X q).

(** Two templates that are the same image except for the colour stored in
transparent pixels. *)
Definition sameUpToTransparent (t1 t2 : Image) : Prop :=
  Bounds t1 = Bounds t2
  ∧ ∀ x y, (alpha t1 x y = 0 ∧ alpha t2 x y = 0) ∨ At t1 x y = At t2 x y.

(** A picture of [w] by [h] pixels at the origin, all of colour [c], whose
[At] answers the zero colour outside its bounds as Go's image types do. *)
Definition inBounds (r : Rectangle) (x y : Z) : bool :=
  (X (Min r) <=? x) && (x <? X (Max r)) && (Y (Min r) <=? y) && (y <? Y (Max r)).

Definition uniform (w h : Z) (c : Z * Z * Z * Z) : Image :=
  let r := mkRect (mkPoint 0 0) (mkPoint w h) in
  mkImage r (fun x y => if inBounds r x y then c else (0, 0, 0, 0)).

Definition black : Z * Z * Z * Z := (0, 0, 0, 65535).
Definition white : Z * Z * Z * Z := (65535, 65535, 65535, 65535).

(** Small pictures used as concrete inputs. *)
Definition frame3x1 : Image := uniform 3 1 black.
Definition template2x1 : Image := uniform 2 1 black.
Definition blackPixel : Image := uniform 1 1 black.
Definition whitePixel : Image := uniform 1 1 white.
Definition emptyTemplate : Image := uniform 0 0 black.

(** A template of one pixel that is all but transparent: alpha 128 of
65535, which the matcher's normalisation to 0-255 turns into 0. *)
Definition faintPixel : Image := uniform 1 1 (0, 0, 0, 128).
(** A template of 2 by 1 pixels: black on the left, transparent on the
right, where the colour [c] is stored. *)
Definition holed (c : Z * Z * Z) : Image :=
  let r := mkRect (mkPoint 0 0) (mkPoint 2 1) in
  mkImage r (fun x y =>
    if inBounds r x y then
      if x =? 1 then let '(cr, cg, cb) := c in (cr, cg, cb, 0) else black
    else (0, 0, 0, 0)).
Definition offScreenROI : Rectangle := mkRect (mkPoint 5 5) (mkPoint 6 6).
Definition narrowROI : Rectangle := mkRect (mkPoint 0 0) (mkPoint 1 1).

End matching.

(** ** Vocabulary of the tracker's properties *)

Module tracking.

Import global.

(** The order in which [gmap] itself lists a map: one valid choice. *)
Definition canonicalOrder : RangeOrder := fun _ m => map_to_list m.

(** The click count stored under a key, 0 when the key is not tracked. *)
Definition clicksAt (t : EntityTracker) (key : string) : Z :=
  match entities t !! key with
  | Some tracked => ClickCount tracked
  | None => 0
  end.

(** Both positions lie in the cell number [(i, j)] of the grid of side
[unit] that covers the non-negative quadrant. *)
Definition sameCell (unit : Z) (p q : Point) : Prop :=
  ∃ i j, 0 ≤ i ∧ 0 ≤ j
    ∧ i * unit ≤ X p < (i + 1) * unit ∧ i * unit ≤ X q < (i + 1) * unit
    ∧ j * unit ≤ Y p < (j + 1) * unit ∧ j * unit ≤ Y q < (j + 1) * unit.

(** The keys of the detections passed to [Update]. *)
Definition detectedKeys (t : EntityTracker) (detected : list DetectedEntity)
    : list string :=
  map (entityKey t) detected.

(** A detection of the template "20.png" at the given position. *)
Definition detection (priority x y : Z) : DetectedEntity :=
  mkDetected "20.png" priority (mkPoint x y) (mkPoint 40 40).

(** A tracker with default settings that tracks the given entities. *)
Definition trackerOf (m : gmap string TrackedEntity) : EntityTracker :=
  with_entities NewEntityTracker m.

(** One entity at (100, 500), clicked three times, last seen at instant
1000. *)
Definition oneEntity : EntityTracker :=
  trackerOf {[ "20_100_500" := mkTracked (detection 20 100 500) 3 1000 1000 ]}.

(** The same, and a second entity of the same priority at (100, 350). *)
Definition twoEntities : EntityTracker :=
  trackerOf (<[ "20_100_340" := mkTracked (detection 20 100 350) 0 1000 1000 ]>
             {[ "20_100_500" := mkTracked (detection 20 100 500) 3 1000 1000 ]}).

(** The entity at (100, 500), and a second one of the same priority at
(100, 400), clicked five times. *)
Definition rivals : EntityTracker :=
  trackerOf (<[ "20_100_400" := mkTracked (detection 20 100 400) 5 1000 1000 ]>
             {[ "20_100_500" := mkTracked (detection 20 100 500) 3 1000 1000 ]}).

(** Another valid choice of order: the reverse of the canonical one. *)
Definition reverseOrder : RangeOrder := fun _ m => reverse (map_to_list m).

(** Seven clicks on the entity at (100, 500). *)
Definition sevenClicks : list Click :=
  replicate 7 (1000, 1000, 1000, detection 20 100 500).

(** What holds of every tracker that the code can build: the blacklist
threshold is at least 1 and no click count is negative. *)
Definition wellFormed (t : EntityTracker) : Prop :=
  1 ≤ maxClicks t
  ∧ ∀ k tr, entities t !! k = Some tr → 0 ≤ ClickCount tr.

(** Does the expiry loop of [Update], visiting the entries [l] at the
instant [now], delete the key [k]? *)
Definition expires (now : Z) (st : UpdateState) (k : string)
    (l : list (string * TrackedEntity)) : bool :=
  existsb (fun entry =>
             bool_decide (entry.1 = k)
             && negb (bool_decide (k ∈ seen st))
             && (ttl (tracker st) <? now - LastSeen entry.2)) l.


End tracking.

(** ** Vocabulary of the colour comparison *)

Module colour.

(** A colour channel as the matcher sees it. *)
Definition channel (v : Z) : Prop := 0 ≤ v ≤ 255.

(** The squared Euclidean distance, over the mathematical integers. *)
Definition sumSquares (r1 g1 b1 r2 g2 b2 : Z) : Z :=
  (r1 - r2) * (r1 - r2) + (g1 - g2) * (g1 - g2) + (b1 - b2) * (b1 - b2).

(** The largest value of [sumSquares] on channels: 3 * 255^2. *)
Definition maxSumSquares : Z := 195075.

(** Every integer from 0 up to this one, 2^53 - 1, is a float64. *)
Definition maxTolerance : Z := 9007199254740991.

(** [sqrt s <= tolerance] over the real numbers, for a tolerance that is
not negative: with [tolerance = m * 2^e] this is [s <= m^2 * 4^e]. *)
Definition distanceWithin (s : Z) (tolerance : spec_float) : Prop :=
  match tolerance with
  | S754_zero _ => s ≤ 0
  | S754_infinity false => True
  | S754_finite false m e =>
      if e <? 0 then s * 4 ^ (- e) ≤ Z.pos m * Z.pos m
      else s ≤ Z.pos m * Z.pos m * 4 ^ e
  | _ => False
  end.

(** A finite positive float64 with a full mantissa and an exponent of at
least -52, that is a value of at least 1. *)
Definition normalAboveOne (m : positive) (e : Z) : bool :=
  (2 ^ 52 <=? Z.pos m) && (Z.pos m <? 2 ^ 53) && (-52 <=? e).

(** The value of such a float, times 2^52. *)
Definition scaled (m : positive) (e : Z) : Z := Z.pos m * 2 ^ (e + 52).

(** [math.Sqrt(float64(s))] lies where the real square root of [s] does:
on the integer root when [s] is a square, strictly between the two
neighbouring integers otherwise. *)
Definition sqrtBracketed (s : Z) : bool :=
  match float64.Sqrt (float64.of_Z s) with
  | S754_finite false m e =>
      normalAboveOne m e
      && (let q := Z.sqrt s in
          if q * q =? s then scaled m e =? q * 2 ^ 52
          else (q * 2 ^ 52 <? scaled m e) && (scaled m e <? (q + 1) * 2 ^ 52))
  | _ => false
  end.

(** [float64(n)] is exactly [n]. *)
Definition integerExact (n : Z) : bool :=
  match float64.of_Z n with
  | S754_finite false m e => normalAboveOne m e && (scaled m e =? n * 2 ^ 52)
  | _ => false
  end.

(** [p] holds on [lo], [lo + 1], ... for [fuel] numbers. *)
Fixpoint allFrom (p : Z -> bool) (fuel : nat) (lo : Z) : bool :=
  match fuel with
  | O => true
  | S fuel' => if p lo then allFrom p fuel' (lo + 1) else false
  end.

(** The float64 nearest to the square root of 3; it lies below it. *)
Definition sqrt3 : spec_float := S754_finite false 7800463371553962 (-52).

End colour.

(** ** Concrete inputs for the search-open handler *)

Module searching.

Import bot.

(** A bot in the search-open state whose channel-open marker is a white
pixel, with no failed attempt so far. *)
Definition searchingBot : GlobalBot :=
  mkBot StateSearchOpen [mkTarget "open.png" matching.whitePixel] 0 0 0.

(** Handlers of the other states that do nothing. *)
Definition idle : BotState -> Handler := fun _ b _ => (b, 0, []).

(** Ticks on which a black screen is captured. *)
Definition blackScreens (n : nat) : list (option image.Image) :=
  replicate n (Some matching.blackPixel).

End searching.

(** ** More vocabulary of the matcher: templates with wildcards *)

Module wildcards.

Import matching.

(** Every template pixel that is not transparent, with the template placed
at [p], is within tolerance of the screen pixel under it. *)
Definition visibleWithin (screenImg templateImg : Image)
    (tolerance : spec_float) (p : Point) : Prop :=
  ∀ tx ty,
    0 ≤ tx < Dx (Bounds templateImg) →
    0 ≤ ty < Dy (Bounds templateImg) →
    alpha templateImg (X (Min (Bounds templateImg)) + tx)
          (Y (Min (Bounds templateImg)) + ty) ≠ 0 →
    pixelWithin screenImg templateImg tolerance
      (X p + tx) (Y p + ty)
      (X (Min (Bounds templateImg)) + tx) (Y (Min (Bounds templateImg)) + ty)
    = true.

(** Every template pixel, with the template placed at [p], has the colour
of the screen pixel under it, as the matcher reads colours. *)
Definition copiedFrom (screenImg templateImg : Image) (p : Point) : Prop :=
  ∀ tx ty,
    0 ≤ tx < Dx (Bounds templateImg) →
    0 ≤ ty < Dy (Bounds templateImg) →
    (screen.getRgbAndAlpha screenImg (X p + tx) (Y p + ty)).1
    = (screen.getRgbAndAlpha templateImg
         (X (Min (Bounds templateImg)) + tx)
         (Y (Min (Bounds templateImg)) + ty)).1.

(** A tolerance that is not below zero and not NaN. *)
Definition nonNegative (tolerance : spec_float) : Prop :=
  float64.le (S754_zero false) tolerance = true.

(** A tolerance that is NaN or below zero. *)
Definition unusable (tolerance : spec_float) : Prop :=
  match tolerance with
  | S754_nan | S754_infinity true | S754_finite true _ _ => True
  | _ => False
  end.

(** A float64 that is not below zero: what rounding a number that is not
negative, and a square root, can give. *)
Definition notBelowZero (x : spec_float) : Prop :=
  match x with
  | S754_zero true | S754_infinity true | S754_finite true _ _ => False
  | _ => True
  end.

(** The part of the frame that belongs to the ROI. *)
Definition inside (r : Rectangle) (templateImg : Image) (p : Point) : Prop :=
  X (Min r) ≤ X p ∧ X p + Dx (Bounds templateImg) ≤ X (Max r)
  ∧ Y (Min r) ≤ Y p ∧ Y p + Dy (Bounds templateImg) ≤ Y (Max r).

(** A frame of 3 by 2 pixels: black, except for one white pixel at (2, 1). *)
Definition spotted : Image :=
  let r := mkRect (mkPoint 0 0) (mkPoint 3 2) in
  mkImage r (fun x y =>
    if inBounds r x y then
      if (x =? 2) && (y =? 1) then white else black
    else (0, 0, 0, 0)).

End wildcards.

(** ** The life of a tracker *)

Module lifecycle.

Import global tracking.

(** The trackers that the exported calls can build, starting from
[NewEntityTracker]. *)
Inductive reachable : EntityTracker → Prop :=
| reach_new : reachable NewEntityTracker
| reach_update (order : RangeOrder) (now : Z) (t : EntityTracker)
    (detected : list DetectedEntity) :
    valid_order order → reachable t →
    reachable (Update order now t detected).1
| reach_click (tFirst tLast tBlack : Z) (t : EntityTracker)
    (e : DetectedEntity) :
    reachable t → reachable (RecordClick tFirst tLast tBlack t e).1
| reach_reset (t : EntityTracker) : reachable t → reachable (Reset t)
| reach_roi (t : EntityTracker) (e : DetectedEntity) :
    reachable t → reachable (SetLastHighPriority t e).

(** The entry [tr] stored under [k] is in order: it is stored under the key
of its own detection, its click count is between 0 and the threshold, and
at the threshold its key is on the blacklist. *)
Definition inOrder (t : EntityTracker) (k : string) (tr : TrackedEntity)
    : Prop :=
  entityKey t (Entity tr) = k
  ∧ 0 ≤ ClickCount tr ≤ maxClicks t
  ∧ (ClickCount tr = maxClicks t → is_Some (blacklist t !! k)).

(** The settings are the defaults and every entry is in order. *)
Definition consistent (t : EntityTracker) : Prop :=
  maxClicks t = 7 ∧ positionThresh t = 20
  ∧ ttl t = 2 * constants.Second ∧ roiMargin t = 100
  ∧ ∀ k tr, entities t !! k = Some tr → inOrder t k tr.

(** The coordinate of the grid cell of [x]: what [entityKey] prints. *)
Definition quantize (t : EntityTracker) (x : Z) : Z :=
  go_div x (positionThresh t) * positionThresh t.

(** Does the character occur in the string? *)
Fixpoint mentions (c : Ascii.ascii) (s : string) : bool :=
  match s with
  | EmptyString => false
  | String a r => Ascii.eqb a c || mentions c r
  end.

(** A tracker clicked once on the entity at (100, 500). *)
Definition clickedOnce : EntityTracker :=
  (RecordClick 1000 1000 1000 NewEntityTracker (detection 20 100 500)).1.

End lifecycle.

(** ** Priorities of templates (app/global/entity.go) *)

Module entity.

Import global.

(** The class [\d] of Go's regexp: an ASCII digit. *)
Definition isDigit (c : Ascii.ascii) : bool :=
  let n := Ascii.N_of_ascii c in (48 <=? n)%N && (n <=? 57)%N.

(** What the group of [^(\d+)] captures: the longest run of digits at the
start of the string, empty when the regexp does not match. *)
Fixpoint leadingDigits (s : string) : string :=
  match s with
  | EmptyString => EmptyString
  | String c r => if isDigit c then String c (leadingDigits r) else EmptyString
  end.

(** The number that a string of digits denotes, most significant digit
first, continuing from [acc]. *)
Fixpoint decimal (acc : Z) (s : string) : Z :=
  match s with
  | EmptyString => acc
  | String c r => decimal (10 * acc + (Z.of_N (Ascii.N_of_ascii c) - 48)) r
  end.

Fixpoint allDigits (s : string) : bool :=
  match s with
  | EmptyString => true
  | String c r => isDigit c && allDigits r
  end.

(** The range of Go's [int] on the 64-bit platforms the bot runs on. *)
Definition maxInt : Z := 2 ^ 63 - 1.
Definition minInt : Z := - 2 ^ 63.

(** [strconv.Atoi]: an optional sign and at least one digit; [None] stands
for its errors (syntax, or a value outside of [int]). *)
Definition Atoi (s : string) : option Z :=
  let '(negative, body) :=
    match s with
    | String "-" r => (true, r)
    | String "+" r => (false, r)
    | _ => (false, s)
    end in
  match body with
  | EmptyString => None
  | _ =>
      if allDigits body then
        let v := if negative then - decimal 0 body else decimal 0 body in
        if (minInt <=? v) && (v <=? maxInt) then Some v else None
      else None
  end.

Definition ExtractPriority (filename : string) : Z :=
  match leadingDigits filename with
  | EmptyString => 0
  | digits =>
      match Atoi digits with
      | Some num => num
      | None => 0
      end
  end.

(** The comparison that [SortEntitiesByPriority] hands to [sort.Slice]:
does [a] go before [b]? *)
Definition less (a b : DetectedEntity) : bool :=
  if negb (Priority a =? Priority b) then Priority b <? Priority a
  else Y (Position b) <? Y (Position a).

(** [sort.Slice] promises a permutation of the slice in which no element
goes, by [less], before an element that precedes it; it does not promise
which one when several qualify.  A [Sorter] is one way of keeping that
promise. *)
Definition Sorter : Type := list DetectedEntity → list DetectedEntity.

Definition valid_sorter (sort : Sorter) : Prop :=
  ∀ l, sort l ≡ₚ l
       ∧ StronglySorted (fun a b => less b a = false) (sort l).

(** [SortEntitiesByPriority], with the sorter that [sort.Slice] stands
for. *)
Definition SortEntitiesByPriority (sort : Sorter) (entities : list DetectedEntity)
    : list DetectedEntity :=
  sort entities.

(** [e.Center()]. *)
Definition Center (e : DetectedEntity) : Point :=
  mkPoint (X (Position e) + go_div (X (TemplateSize e)) 2)
          (Y (Position e) + go_div (Y (TemplateSize e)) 2).

(** Does the string start with a digit? *)
Definition startsWithDigit (s : string) : bool :=
  match s with
  | EmptyString => false
  | String c _ => isDigit c
  end.

End entity.

(** ** The Global Expedition bot (app/global): all states *)

Module expedition.

Import global entity bot.

(** Constants of package [constants] that only these handlers use. *)
Definition VerifyPreWait : Z := 200 * constants.Millisecond.
Definition VerifyRetryWait : Z := 200 * constants.Millisecond.
Definition VerifyLoadingWait : Z := 300 * constants.Millisecond.

(** An argument of [fmt.Sprintf]. *)
Inductive Arg :=
| AInt (n : Z)
| AStr (s : string).

(** What a handler does to the outside world, in order: [statusFunc] and
[logFunc] with the format and the arguments of their message, the mouse,
sleeping, and the debug screenshot.  The lines handed to [debugFunc] are
left out. *)
Inductive Effect :=
| Status (format : string) (args : list Arg)
| Log (format : string) (args : list Arg)
| MoveMouseAndClick (globalX globalY : Z)
| Sleep (d : Z)
| SaveDebugScreenshot (filename : string).

(** The fields of [GlobalBot] that the handlers read or write. *)
Record GlobalBot := mkBot {
  State : BotState;
  targetsGames : list Target;
  targetsFinding : list Target;
  targetsLobby : list Target;
  targetsSkill : list Target;
  targetsExit : list Target;
  targetsChannelReturn : list Target;
  targetsChannelOpen : list Target;
  targetsChannelSelect : list Target;
  entryTracker : EntityTracker;
  entryWaitCount : Z;
  searchRetryCount : Z;
  debugScreenshotTaken : bool;
  displayOffsetX : Z;
  displayOffsetY : Z
}.

(** What one tick of the timer reads from outside: the screen captured by
the handler, the screens captured by the attempts of [clickAndVerifyEntry],
the clock and the map order of [Update], the clock readings of
[RecordClick], and whether [SaveDebugScreenshot] succeeds. *)
Record Tick := mkTick {
  capture : option image.Image;
  verifyCapture : Z → option image.Image;
  now : Z;
  order : RangeOrder;
  clickFirst : Z;
  clickLast : Z;
  clickBlack : Z;
  saved : bool
}.

(** *** Handlers as state transformers that log their effects *)

Definition M (A : Type) : Type := GlobalBot → A * GlobalBot * list Effect.

Definition ret {A} (a : A) : M A := fun b => (a, b, []).

Definition bind {A B} (m : M A) (f : A → M B) : M B :=
  fun b =>
    let '(a, b1, e1) := m b in
    let '(r, b2, e2) := f a b1 in
    (r, b2, e1 ++ e2).

Definition get : M GlobalBot := fun b => (b, b, []).

Definition modify (f : GlobalBot → GlobalBot) : M unit := fun b => (tt, f b, []).

Definition emit (e : Effect) : M unit := fun b => (tt, b, [e]).

Notation "x <~ m ;; k" := (bind m (fun x => k))
  (at level 100, m at next level, right associativity).
Notation "m ;;; k" := (bind m (fun _ => k))
  (at level 100, right associativity).

Definition withState (s : BotState) (b : GlobalBot) : GlobalBot :=
  mkBot s (targetsGames b) (targetsFinding b) (targetsLobby b)
        (targetsSkill b) (targetsExit b) (targetsChannelReturn b)
        (targetsChannelOpen b) (targetsChannelSelect b) (entryTracker b)
        (entryWaitCount b) (searchRetryCount b) (debugScreenshotTaken b)
        (displayOffsetX b) (displayOffsetY b).

Definition withTracker (t : EntityTracker) (b : GlobalBot) : GlobalBot :=
  mkBot (State b) (targetsGames b) (targetsFinding b) (targetsLobby b)
        (targetsSkill b) (targetsExit b) (targetsChannelReturn b)
        (targetsChannelOpen b) (targetsChannelSelect b) t
        (entryWaitCount b) (searchRetryCount b) (debugScreenshotTaken b)
        (displayOffsetX b) (displayOffsetY b).

Definition withWaitCount (n : Z) (b : GlobalBot) : GlobalBot :=
  mkBot (State b) (targetsGames b) (targetsFinding b) (targetsLobby b)
        (targetsSkill b) (targetsExit b) (targetsChannelReturn b)
        (targetsChannelOpen b) (targetsChannelSelect b) (entryTracker b)
        n (searchRetryCount b) (debugScreenshotTaken b)
        (displayOffsetX b) (displayOffsetY b).

Definition withRetryCount (n : Z) (b : GlobalBot) : GlobalBot :=
  mkBot (State b) (targetsGames b) (targetsFinding b) (targetsLobby b)
        (targetsSkill b) (targetsExit b) (targetsChannelReturn b)
        (targetsChannelOpen b) (targetsChannelSelect b) (entryTracker b)
        (entryWaitCount b) n (debugScreenshotTaken b)
        (displayOffsetX b) (displayOffsetY b).

Definition withScreenshotTaken (taken : bool) (b : GlobalBot) : GlobalBot :=
  mkBot (State b) (targetsGames b) (targetsFinding b) (targetsLobby b)
        (targetsSkill b) (targetsExit b) (targetsChannelReturn b)
        (targetsChannelOpen b) (targetsChannelSelect b) (entryTracker b)
        (entryWaitCount b) (searchRetryCount b) taken
        (displayOffsetX b) (displayOffsetY b).

(** [b.setState(s)]. *)
Definition setState (s : BotState) : M unit := modify (withState s).

(** [b.entryTracker.Reset()]. *)
Definition resetTracker : M unit :=
  modify (fun b => withTracker (Reset (entryTracker b)) b).

(** [b.performClick(name, x, y, w, h)]. *)
Definition performClick (x y w h : Z) : M unit :=
  b <~ get ;;
  let centerX := x + go_div w 2 in
  let centerY := y + go_div h 2 in
  let globalX := centerX + displayOffsetX b in
  let globalY := centerY + displayOffsetY b in
  emit (MoveMouseAndClick globalX globalY).

(** [b.performClick] on a target found at [(fx, fy)]. *)
Definition clickTarget (target : Target) (fx fy : Z) : M unit :=
  performClick fx fy (Dx (Bounds (Image target))) (Dy (Bounds (Image target))).

(** *** AutoDetect *)

(** The closure [check] of [handleAutoDetectState]. *)
Definition check (screenImg : image.Image) (targets : list Target)
    (nextState : BotState) (logMsg : string) : M bool :=
  match firstFound screenImg targets with
  | Some (target, _, _) =>
      emit (Log "Auto-Detect: Found [%s]. State -> %s"
                [AStr (Name target); AStr logMsg]) ;;;
      modify (withRetryCount 0) ;;;
      setState nextState ;;;
      ret true
  | None => ret false
  end.

(** [if check(...) { return d }], followed by the rest. *)
Definition orElse (c : M bool) (d : Z) (rest : M Z) : M Z :=
  found <~ c ;; if found then ret d else rest.

Definition handleAutoDetectState (tick : Tick) : M Z :=
  emit (Status "Status: Auto Detecting State..." []) ;;;
  match capture tick with
  | None => ret constants.EntryScanIntervalHighSpeed
  | Some screenImg =>
      b <~ get ;;
      orElse (check screenImg (targetsSkill b) StateInGame "InGame(skill)")
             constants.InGameScanInterval
      (orElse (check screenImg (targetsExit b) StateExitStep1 "ExitStep1(exit)") 0
      (orElse (check screenImg (targetsLobby b) StateEntryWaiting
                     "EntryWaiting(lobby)") 0
      (orElse (check screenImg (targetsChannelReturn b) StateExitStep2
                     "ExitStep2(return)") 0
      (orElse (check screenImg (targetsChannelSelect b) StateSearchSelect
                     "SearchSelect(select)") 0
      (orElse (check screenImg (targetsChannelOpen b) StateSearchOpen
                     "SearchOpen(open)") 0
      (orElse (check screenImg (targetsFinding b) StateEntry "Entry(finding)") 0
      (orElse (check screenImg (targetsGames b) StateEntry "Entry(games)") 0
      (ret constants.SearchScanInterval))))))))
  end.

(** *** Entry *)

(** The verification attempts of [clickAndVerifyEntry] that are left, with
the flag [leftEntryScreen]. *)
Fixpoint verifyEntry (tick : Tick) (attempts : list Z) (leftEntryScreen : bool)
    : M Z :=
  match attempts with
  | [] =>
      if leftEntryScreen then
        emit (Log "Left entry screen, assuming InGame state..." []) ;;;
        resetTracker ;;;
        setState StateInGame ;;;
        ret constants.InGameScanInterval
      else ret 0
  | attempt :: rest =>
      match verifyCapture tick attempt with
      | None =>
          emit (Sleep VerifyRetryWait) ;;;
          verifyEntry tick rest leftEntryScreen
      | Some newScreenImg =>
          b <~ get ;;
          match firstFound newScreenImg (targetsFinding b) with
          | Some _ =>
              emit (Sleep VerifyRetryWait) ;;;
              verifyEntry tick rest leftEntryScreen
          | None =>
              match firstFound newScreenImg (targetsLobby b) with
              | Some (target, _, _) =>
                  emit (Log "Entered lobby [%s]. Waiting for game to start..."
                            [AStr (Name target)]) ;;;
                  resetTracker ;;;
                  modify (withWaitCount 0) ;;;
                  setState StateEntryWaiting ;;;
                  ret (5 * constants.Second)
              | None =>
                  match firstFound newScreenImg (targetsSkill b) with
                  | Some (target, _, _) =>
                      emit (Log "In game! [%s] detected. Entering InGame state..."
                                [AStr (Name target)]) ;;;
                      resetTracker ;;;
                      setState StateInGame ;;;
                      ret constants.InGameScanInterval
                  | None =>
                      match firstFound newScreenImg (targetsExit b) with
                      | Some _ =>
                          emit (Log "Exit button detected. Game already finished?"
                                    []) ;;;
                          resetTracker ;;;
                          setState StateExitStep1 ;;;
                          ret 0
                      | None =>
                          emit (Sleep VerifyLoadingWait) ;;;
                          verifyEntry tick rest true
                      end
                  end
              end
          end
      end
  end.

(** [b.entryTracker.RecordClick(entity)]. *)
Definition recordClick (tick : Tick) (entity : DetectedEntity) : M bool :=
  fun b =>
    let '(t1, blacklisted) :=
      RecordClick (clickFirst tick) (clickLast tick) (clickBlack tick)
                  (entryTracker b) entity in
    (blacklisted, withTracker t1 b, []).

(** [b.entryTracker.SetLastHighPriority(entity)]. *)
Definition setLastHighPriority (entity : DetectedEntity) : M unit :=
  modify (fun b => withTracker (SetLastHighPriority (entryTracker b) entity) b).

Definition clickAndVerifyEntry (tick : Tick) (entity : DetectedEntity) : M Z :=
  performClick (X (Position entity)) (Y (Position entity))
               (X (TemplateSize entity)) (Y (TemplateSize entity)) ;;;
  blacklisted <~ recordClick tick entity ;;
  setLastHighPriority entity ;;;
  (if blacklisted then
     emit (Log "[Entry] Entity %s at (%d,%d) blacklisted after 7 clicks"
               [AStr (TemplateName entity); AInt (X (Position entity));
                AInt (Y (Position entity))])
   else ret tt) ;;;
  emit (Sleep VerifyPreWait) ;;;
  verifyEntry tick [1; 2; 3; 4; 5] false.

(** The detection that the two scans build for a match of [target] at
[p]. *)
Definition entityAt (target : Target) (p : Point) : DetectedEntity :=
  mkDetected (Name target) (ExtractPriority (Name target)) p
             (mkPoint (Dx (Bounds (Image target))) (Dy (Bounds (Image target)))).

(** The Y-axis filter: [if p.Y > 950 { continue }]. *)
Definition onScreen (p : Point) : bool := negb (950 <? Y p).

(** The ROI fast path: the first match in the region, template by template,
that passes the Y-axis filter and is not blacklisted. *)
Fixpoint roiEntity (t : EntityTracker) (screenImg : image.Image)
    (roi : Rectangle) (targets : list Target) : option DetectedEntity :=
  match targets with
  | [] => None
  | target :: rest =>
      let points :=
        screen.FindAllTemplatesInROI screenImg (Image target) roi
          constants.DefaultTolerance in
      match
        List.find (fun p => onScreen p && negb (IsBlacklisted t (entityAt target p)))
                  points
      with
      | Some p => Some (entityAt target p)
      | None => roiEntity t screenImg roi rest
      end
  end.

(** The full screen scan: [allEntities]. *)
Definition allEntities (screenImg : image.Image) (targets : list Target)
    : list DetectedEntity :=
  flat_map
    (fun target =>
       map (entityAt target)
           (List.filter onScreen
              (screen.FindAllTemplates screenImg (Image target)
                 constants.DefaultTolerance)))
    targets.

(** [b.entryTracker.Update(detected)]. *)
Definition updateTracker (tick : Tick) (detected : list DetectedEntity) : M unit :=
  modify (fun b =>
    withTracker (Update (order tick) (now tick) (entryTracker b) detected).1 b).

(** What [handleEntryState] logs, once per session, when the full scan
finds nothing. *)
Definition debugScreenshot (tick : Tick) (screenImg : image.Image) : M unit :=
  b <~ get ;;
  if negb (debugScreenshotTaken b) then
    modify (withScreenshotTaken true) ;;;
    emit (Log "[Debug] Loaded entry templates:" []) ;;;
    (fun b0 =>
       (tt, b0,
        map (fun t => Log "  - %s: %dx%d"
                        [AStr (Name t); AInt (Dx (Bounds (Image t)));
                         AInt (Dy (Bounds (Image t)))])
            (targetsGames b0))) ;;;
    emit (Log "[Debug] Screen capture size: %dx%d"
              [AInt (Dx (Bounds screenImg)); AInt (Dy (Bounds screenImg))]) ;;;
    emit (SaveDebugScreenshot "debug_entry_screen.png") ;;;
    (if saved tick then
       emit (Log "[Debug] Saved screenshot to debug_entry_screen.png - compare with templates"
                 [])
     else ret tt)
  else ret tt.

Definition fullScan (sort : Sorter) (tick : Tick) (screenImg : image.Image)
    : M Z :=
  b <~ get ;;
  let all := allEntities screenImg (targetsGames b) in
  updateTracker tick all ;;;
  match all with
  | [] =>
      debugScreenshot tick screenImg ;;;
      ret constants.EntryScanIntervalHighSpeed
  | _ =>
      b1 <~ get ;;
      match FilterBlacklisted (entryTracker b1) all with
      | [] => ret constants.EntryScanIntervalHighSpeed
      | validEntities =>
          match SortEntitiesByPriority sort validEntities with
          | entity :: _ => clickAndVerifyEntry tick entity
          | [] =>
              (* not reached: [sort.Slice] keeps the length of the slice *)
              ret 0
          end
      end
  end.

Definition handleEntryState (sort : Sorter) (tick : Tick) : M Z :=
  emit (Status "Status: Scanning Entry..." []) ;;;
  match capture tick with
  | None => ret (400 * constants.Millisecond)
  | Some screenImg =>
      b <~ get ;;
      match firstFound screenImg (targetsExit b) with
      | Some _ =>
          emit (Log "Already in-game (exit button detected). Switching to Exit state."
                    []) ;;;
          resetTracker ;;;
          setState StateExitStep1 ;;;
          ret 0
      | None =>
          match firstFound screenImg (targetsLobby b) with
          | Some _ =>
              emit (Log "In lobby (in.png detected). Switching to EntryWaiting state."
                        []) ;;;
              resetTracker ;;;
              modify (withWaitCount 0) ;;;
              setState StateEntryWaiting ;;;
              ret (5 * constants.Second)
          | None =>
              let roi := GetROI (entryTracker b) in
              if negb (Empty roi) then
                match roiEntity (entryTracker b) screenImg roi (targetsGames b) with
                | Some entity =>
                    updateTracker tick [entity] ;;;
                    clickAndVerifyEntry tick entity
                | None => fullScan sort tick screenImg
                end
              else fullScan sort tick screenImg
          end
      end
  end.

(** *** EntryWaiting, InGame and the two exit steps *)

Definition handleEntryWaitingState (tick : Tick) : M Z :=
  modify (fun b => withWaitCount (entryWaitCount b + 1) b) ;;;
  b <~ get ;;
  emit (Status "Status: Waiting in lobby... (%d/10)" [AInt (entryWaitCount b)]) ;;;
  match capture tick with
  | None => ret (5 * constants.Second)
  | Some screenImg =>
      match firstFound screenImg (targetsLobby b) with
      | None =>
          match firstFound screenImg (targetsSkill b) with
          | Some (target, _, _) =>
              emit (Log "Game started! [%s] detected. Switching to InGame state."
                        [AStr (Name target)]) ;;;
              modify (withWaitCount 0) ;;;
              setState StateInGame ;;;
              ret constants.InGameScanInterval
          | None =>
              emit (Log "Lobby disappeared, switching to InGame state." []) ;;;
              modify (withWaitCount 0) ;;;
              setState StateInGame ;;;
              ret constants.InGameScanInterval
          end
      | Some _ =>
          if 10 <=? entryWaitCount b then
            emit (Log "Waited too long in lobby (50s). Exiting to re-search..."
                      []) ;;;
            match firstFound screenImg (targetsChannelReturn b) with
            | Some (target, fx, fy) =>
                clickTarget target fx fy ;;;
                emit (Log "Clicked [%s]. Returning to channel selection."
                          [AStr (Name target)])
            | None => ret tt
            end ;;;
            modify (withWaitCount 0) ;;;
            setState StateSearchOpen ;;;
            ret constants.SearchScanInterval
          else ret (5 * constants.Second)
      end
  end.

Definition handleInGameState (tick : Tick) : M Z :=
  emit (Status "Status: In Game (waiting for exit)..." []) ;;;
  match capture tick with
  | None => ret constants.InGameScanInterval
  | Some screenImg =>
      b <~ get ;;
      match firstFound screenImg (targetsExit b) with
      | Some _ =>
          emit (Log "Game finished! Exit button detected." []) ;;;
          setState StateExitStep1 ;;;
          ret 0
      | None => ret constants.InGameScanInterval
      end
  end.

Definition handleExitState (tick : Tick) : M Z :=
  emit (Status "Status: Clicking Exit..." []) ;;;
  match capture tick with
  | None => ret (10 * constants.Second)
  | Some screenImg =>
      b <~ get ;;
      match firstFound screenImg (targetsExit b) with
      | Some (target, fx, fy) =>
          clickTarget target fx fy ;;;
          emit (Sleep constants.WaitAfterClickNormal) ;;;
          emit (Log "Clicked exit. Waiting for out.png..." []) ;;;
          setState StateExitStep2 ;;;
          ret constants.WaitAfterClickNormal
      | None => ret (5 * constants.Second)
      end
  end.

Definition handleExitStep2State (tick : Tick) : M Z :=
  emit (Status "Status: Waiting for out.png..." []) ;;;
  match capture tick with
  | None => ret constants.SearchRetryInterval
  | Some screenImg =>
      b <~ get ;;
      match firstFound screenImg (targetsChannelReturn b) with
      | Some (target, fx, fy) =>
          clickTarget target fx fy ;;;
          emit (Sleep constants.WaitAfterClickNormal) ;;;
          emit (Log "Clicked out.png. Switching to Search Flow." []) ;;;
          setState StateSearchOpen ;;;
          ret constants.SearchScanInterval
      | None => ret constants.SearchRetryInterval
      end
  end.

(** *** The three search steps *)

(** The end of the three search handlers: count the failure and fall back
to AutoDetect at the limit. *)
Definition searchFailed (step : string) : M Z :=
  modify (fun b => withRetryCount (searchRetryCount b + 1) b) ;;;
  b <~ get ;;
  if constants.SearchMaxRetries <=? searchRetryCount b then
    emit (Log (step +:+ ": Max retries reached. Falling back to AutoDetect.") []) ;;;
    modify (withRetryCount 0) ;;;
    setState StateAutoDetect ;;;
    ret constants.SearchRetryInterval
  else ret constants.SearchRetryInterval.

Definition searchStatus (what : string) : M unit :=
  b <~ get ;;
  emit (Status ("Status: " +:+ what +:+ "... (%d/%d)")
               [AInt (searchRetryCount b); AInt constants.SearchMaxRetries]).

Definition handleSearchOpenState (tick : Tick) : M Z :=
  searchStatus "Searching [Open List]" ;;;
  match capture tick with
  | None => ret constants.SearchRetryInterval
  | Some screenImg =>
      b <~ get ;;
      match firstFound screenImg (targetsChannelOpen b) with
      | Some (target, fx, fy) =>
          clickTarget target fx fy ;;;
          emit (Sleep constants.WaitAfterClickNormal) ;;;
          modify (withRetryCount 0) ;;;
          setState StateSearchSelect ;;;
          ret constants.WaitAfterClickNormal
      | None => searchFailed "SearchOpen"
      end
  end.

Definition handleSearchSelectState (tick : Tick) : M Z :=
  searchStatus "Searching [Target Channel]" ;;;
  match capture tick with
  | None => ret constants.SearchRetryInterval
  | Some screenImg =>
      b <~ get ;;
      match firstFound screenImg (targetsChannelSelect b) with
      | Some (target, fx, fy) =>
          clickTarget target fx fy ;;;
          emit (Sleep constants.WaitAfterClickNormal) ;;;
          modify (withRetryCount 0) ;;;
          setState StateSearchVerify ;;;
          ret constants.WaitAfterClickNormal
      | None => searchFailed "SearchSelect"
      end
  end.

Definition handleSearchVerifyState (tick : Tick) : M Z :=
  searchStatus "Verifying Highlight" ;;;
  match capture tick with
  | None => ret constants.SearchRetryInterval
  | Some screenImg =>
      b <~ get ;;
      match firstFound screenImg (targetsFinding b) with
      | Some (target, _, _) =>
          emit (Log "Verified Highlight [%s]. Cycle Complete."
                    [AStr (Name target)]) ;;;
          modify (withRetryCount 0) ;;;
          resetTracker ;;;
          emit (Sleep constants.WaitAfterClickNormal) ;;;
          setState StateEntry ;;;
          ret 0
      | None => searchFailed "SearchVerify"
      end
  end.

(** *** The dispatch and the loop *)

Definition processState (sort : Sorter) (tick : Tick) : M Z :=
  b <~ get ;;
  match State b with
  | StateAutoDetect => handleAutoDetectState tick
  | StateEntry => handleEntryState sort tick
  | StateEntryWaiting => handleEntryWaitingState tick
  | StateInGame => handleInGameState tick
  | StateExitStep1 => handleExitState tick
  | StateExitStep2 => handleExitStep2State tick
  | StateSearchOpen => handleSearchOpenState tick
  | StateSearchSelect => handleSearchSelectState tick
  | StateSearchVerify => handleSearchVerifyState tick
  | StateStopped => ret constants.EntryScanIntervalHighSpeed
  end.

(** The bot after one tick. *)
Definition step (sort : Sorter) (b : GlobalBot) (tick : Tick) : GlobalBot :=
  (processState sort tick b).1.2.

(** [loop]: one [processState] per tick of the timer, until the bot is
stopped from outside. *)
Definition run (sort : Sorter) (ticks : list Tick) (b : GlobalBot) : GlobalBot :=
  fold_left (step sort) ticks b.

(** The mouse clicks among the effects. *)
Definition clicks (effects : list Effect) : list (Z * Z) :=
  flat_map (fun e => match e with
                     | MoveMouseAndClick x y => [(x, y)]
                     | _ => []
                     end) effects.

End expedition.

(** ** Vocabulary for the bot *)

Module botfacts.

Import global entity bot expedition.

(** [m], started in a state with [P], ends with [Q] of its result and its
final state. *)
Definition hoare {A} (P : GlobalBot → Prop) (m : M A)
    (Q : A → GlobalBot → Prop) : Prop :=
  ∀ b, P b → Q (m b).1.1 (m b).1.2.

(** [m] performs no mouse click. *)
Definition clickFree {A} (m : M A) : Prop :=
  ∀ b, clicks (m b).2 = [].

(** The assets and the display offset of two bots are the same. *)
Definition sameAssets (b b' : GlobalBot) : Prop :=
  targetsGames b' = targetsGames b
  ∧ targetsFinding b' = targetsFinding b
  ∧ targetsLobby b' = targetsLobby b
  ∧ targetsSkill b' = targetsSkill b
  ∧ targetsExit b' = targetsExit b
  ∧ targetsChannelReturn b' = targetsChannelReturn b
  ∧ targetsChannelOpen b' = targetsChannelOpen b
  ∧ targetsChannelSelect b' = targetsChannelSelect b
  ∧ displayOffsetX b' = displayOffsetX b
  ∧ displayOffsetY b' = displayOffsetY b.

(** What every tick keeps: the tracker is one that the tracker's calls can
build, the retry counter is below its limit, the wait counter is not
negative, and the bot is running. *)
Definition steady (b : GlobalBot) : Prop :=
  lifecycle.reachable (entryTracker b)
  ∧ 0 ≤ searchRetryCount b < constants.SearchMaxRetries
  ∧ 0 ≤ entryWaitCount b
  ∧ State b ≠ StateStopped.

(** The bot [b] is steady and has the assets of [b0]. *)
Definition kept (b0 b : GlobalBot) : Prop := steady b ∧ sameAssets b0 b.

(** The transitions of the state machine: may a tick that begins in
[from] end in [to]? *)
Definition allowed (from to : BotState) : bool :=
  match from, to with
  | StateStopped, StateStopped => true
  | StateAutoDetect,
    (StateAutoDetect | StateInGame | StateExitStep1 | StateEntryWaiting
     | StateExitStep2 | StateSearchSelect | StateSearchOpen | StateEntry) => true
  | StateEntry,
    (StateEntry | StateExitStep1 | StateEntryWaiting | StateInGame) => true
  | StateEntryWaiting,
    (StateEntryWaiting | StateInGame | StateSearchOpen) => true
  | StateInGame, (StateInGame | StateExitStep1) => true
  | StateExitStep1, (StateExitStep1 | StateExitStep2) => true
  | StateExitStep2, (StateExitStep2 | StateSearchOpen) => true
  | StateSearchOpen,
    (StateSearchOpen | StateSearchSelect | StateAutoDetect) => true
  | StateSearchSelect,
    (StateSearchSelect | StateSearchVerify | StateAutoDetect) => true
  | StateSearchVerify,
    (StateSearchVerify | StateEntry | StateAutoDetect) => true
  | _, _ => false
  end.

(** None of the markers that AutoDetect knows is on the screen. *)
Definition nothingShown (b : GlobalBot) (screenImg : image.Image) : Prop :=
  firstFound screenImg (targetsSkill b) = None
  ∧ firstFound screenImg (targetsExit b) = None
  ∧ firstFound screenImg (targetsLobby b) = None
  ∧ firstFound screenImg (targetsChannelReturn b) = None
  ∧ firstFound screenImg (targetsChannelSelect b) = None
  ∧ firstFound screenImg (targetsChannelOpen b) = None
  ∧ firstFound screenImg (targetsFinding b) = None
  ∧ firstFound screenImg (targetsGames b) = None.

(** A tick whose [Update] visits the map in one of the orders that [range]
can take. *)
Definition validTick (tick : Tick) : Prop := valid_order (order tick).

(** The markers that a search state looks for. *)
Definition searchTargets (b : GlobalBot) (s : BotState) : option (list Target) :=
  match s with
  | StateSearchOpen => Some (targetsChannelOpen b)
  | StateSearchSelect => Some (targetsChannelSelect b)
  | StateSearchVerify => Some (targetsFinding b)
  | _ => None
  end.

(** A tick on which the screen is captured and none of [targets] is found
on it. *)
Definition missedTick (targets : list Target) (tick : Tick) : Prop :=
  ∃ screenImg, capture tick = Some screenImg
    ∧ firstFound screenImg targets = None.

(** A tick on which the screen is captured and shows one of [targets]. *)
Definition shownTick (targets : list Target) (tick : Tick) : Prop :=
  ∃ screenImg, capture tick = Some screenImg
    ∧ is_Some (firstFound screenImg targets).

(** The point of the screen, display offset included, that a click on the
entity goes to. *)
Definition clickPoint (b : GlobalBot) (e : DetectedEntity) : Z * Z :=
  (X (Center e) + displayOffsetX b, Y (Center e) + displayOffsetY b).

(** A bot with one marker per list, all of them a white pixel, and the
game button "20.png" a white pixel as well. *)
Definition whiteTarget (name : string) : Target := mkTarget name matching.whitePixel.

Definition sampleBot (s : BotState) : GlobalBot :=
  mkBot s [whiteTarget "20.png"] [whiteTarget "finding.png"]
        [whiteTarget "lobby.png"] [whiteTarget "skill.png"]
        [whiteTarget "exit.png"] [whiteTarget "return.png"]
        [whiteTarget "open.png"] [whiteTarget "select.png"]
        NewEntityTracker 0 0 false 0 0.

(** A bot in the entry state that knows one game button, a white pixel,
and no other marker. *)
Definition entryBot (t : EntityTracker) : GlobalBot :=
  mkBot StateEntry [whiteTarget "20.png"] [] [] [] [] [] [] []
        t 0 0 false 0 0.

(** The detection of the game button of [entryBot] at (2, 1). *)
Definition button : DetectedEntity :=
  entityAt (whiteTarget "20.png") (mkPoint 2 1).

(** A tick that captures [screenImg], at the handler and at every
verification attempt, at the instant [1000]. *)
Definition tickOf (screenImg : option image.Image) : Tick :=
  mkTick screenImg (fun _ => screenImg) 1000 tracking.canonicalOrder
         1000 1000 1000 true.

(** A sorter that keeps the promise of [sort.Slice]: insertion sort. *)
Fixpoint insertSorted (e : DetectedEntity) (l : list DetectedEntity)
    : list DetectedEntity :=
  match l with
  | [] => [e]
  | x :: r => if less x e then x :: insertSorted e r else e :: l
  end.

Definition insertionSort : Sorter :=
  fun l => fold_right insertSorted [] l.

End botfacts.

(** ** The matcher of the debug tool (cmd/debug_match) *)

Module debug_match.

(** [constants.MaxFailRate], the constant 0.03 converted to float64:
8646911284551352 * 2^-58. *)
Definition MaxFailRate : spec_float := S754_finite false 8646911284551352 (-58).

(** [float64(failedPixels)/float64(totalPixels)]. *)
Definition failRate (failedPixels totalPixels : Z) : spec_float :=
  SFdiv float64.prec float64.emax
        (float64.of_Z failedPixels) (float64.of_Z totalPixels).

(** The body of the inner loop of [matchNew] on the counters
[(totalPixels, failedPixels)]; [None] is the early [return false].  The
tool's [getRgbAndAlpha] and [colorSimilar] are copies of the matcher's. *)
Definition matchNew_pixel (screenImg templateImg : Image) (sx sy : Z)
    (tolerance : spec_float) (ty : Z) (counters : option (Z * Z)) (tx : Z)
    : option (Z * Z) :=
  match counters with
  | None => None
  | Some (totalPixels, failedPixels) =>
      let tb := Bounds templateImg in
      let '(tr, tg, tbl, ta) :=
        screen.getRgbAndAlpha templateImg (X (Min tb) + tx) (Y (Min tb) + ty) in
      if ta =? 0 then Some (totalPixels, failedPixels)
      else
        let totalPixels := totalPixels + 1 in
        let '(sr, sg, sb, _) :=
          screen.getRgbAndAlpha screenImg (sx + tx) (sy + ty) in
        if negb (screen.colorSimilar sr sg sb tr tg tbl tolerance) then
          let failedPixels := failedPixels + 1 in
          if SFltb MaxFailRate (failRate failedPixels totalPixels)
             && (100 <? totalPixels)
          then None
          else Some (totalPixels, failedPixels)
        else Some (totalPixels, failedPixels)
  end.

Definition matchNew (screenImg templateImg : Image) (sx sy : Z)
    (tolerance : spec_float) : bool :=
  let tb := Bounds templateImg in
  match
    fold_left
      (fun counters ty =>
         fold_left (matchNew_pixel screenImg templateImg sx sy tolerance ty)
                   (seqZ 0 (Dx tb)) counters)
      (seqZ 0 (Dy tb)) (Some (0, 0))
  with
  | None => false
  | Some (totalPixels, failedPixels) =>
      if totalPixels =? 0 then false
      else SFleb (failRate failedPixels totalPixels) MaxFailRate
  end.

(** The template has a pixel that is not transparent. *)
Definition visibleSomewhere (templateImg : Image) : Prop :=
  ∃ tx ty,
    0 ≤ tx < Dx (Bounds templateImg) ∧ 0 ≤ ty < Dy (Bounds templateImg)
    ∧ matching.alpha templateImg (X (Min (Bounds templateImg)) + tx)
                     (Y (Min (Bounds templateImg)) + ty) ≠ 0.

(** Every pixel of the template is transparent. *)
Definition transparent (templateImg : Image) : Prop :=
  ∀ tx ty,
    0 ≤ tx < Dx (Bounds templateImg) → 0 ≤ ty < Dy (Bounds templateImg) →
    matching.alpha templateImg (X (Min (Bounds templateImg)) + tx)
                   (Y (Min (Bounds templateImg)) + ty) = 0.

End debug_match.

(** * Properties *)

(** ** The matcher *)

Section match_lemmas.

Import matching.

Variables (screenImg templateImg : Image) (tolerance : spec_float).

Lemma In_seqZ (k m n : Z) : In k (seqZ m n) ↔ m ≤ k < m + n.
Proof. rewrite <- list_elem_of_In. apply elem_of_seqZ. Qed.

Lemma match_true (x y : Z) :
  screen.match_ screenImg templateImg x y tolerance = true ↔
  ∀ ty tx, 0 ≤ ty < Dy (Bounds templateImg) → 0 ≤ tx < Dx (Bounds templateImg) →
    screen.match_pixel screenImg templateImg x y tolerance ty tx = true.
Proof.
  unfold screen.match_. rewrite forallb_forall. split.
  - intros H ty tx Hy Hx. specialize (H ty).
    rewrite forallb_forall in H. apply H; apply In_seqZ; lia.
  - intros H ty Hy. apply forallb_forall. intros tx Hx.
    apply In_seqZ in Hy, Hx. apply H; lia.
Qed.

Lemma match_pixel_quick (x y ty tx : Z) :
  screen.match_pixel screenImg templateImg x y tolerance ty tx = true →
  screen.quickCheck screenImg templateImg tolerance
    (X (Min (Bounds templateImg)) + tx) (Y (Min (Bounds templateImg)) + ty)
    (x + tx) (y + ty) = true.
Proof.
  unfold screen.match_pixel, screen.quickCheck.
  destruct (screen.getRgbAndAlpha templateImg _ _) as [[[tr tg] tb] ta].
  destruct (Z.eqb_spec ta 0) as [->|Hne]; [reflexivity|].
  destruct (0 <? ta); [|reflexivity].
  destruct (screen.getRgbAndAlpha screenImg _ _) as [[[sr sg] sb] sa]. auto.
Qed.

Lemma half_range (w : Z) : 0 < w → 0 ≤ go_div w 2 < w.
Proof.
  intros Hw. unfold go_div. split.
  - apply Z.quot_pos; lia.
  - apply Z.quot_lt; lia.
Qed.

(** On a template with at least one pixel the three quick checks only
repeat comparisons that the full check makes as well. *)
Lemma candidate_match (x y : Z) :
  nonEmpty templateImg →
  screen.candidate screenImg templateImg tolerance x y
  = screen.match_ screenImg templateImg x y tolerance.
Proof.
  intros [Hw Hh]. unfold screen.candidate.
  destruct (screen.match_ screenImg templateImg x y tolerance) eqn:Hm;
    [|apply andb_false_r].
  rewrite match_true in Hm.
  pose proof (half_range _ Hw) as Hhw. pose proof (half_range _ Hh) as Hhh.
  assert (Q0 : screen.match_pixel screenImg templateImg x y tolerance 0 0 = true)
    by (apply Hm; lia).
  apply match_pixel_quick in Q0.
  assert (Q1 := match_pixel_quick x y _ _ (Hm _ _ Hhh Hhw)).
  assert (Q2 : screen.match_pixel screenImg templateImg x y tolerance
                 (Dy (Bounds templateImg) - 1) (Dx (Bounds templateImg) - 1) = true)
    by (apply Hm; lia).
  apply match_pixel_quick in Q2.
  rewrite !Z.add_0_r in Q0. rewrite Q0, Q1. simpl.
  replace (X (Max (Bounds templateImg)) - 1)
    with (X (Min (Bounds templateImg)) + (Dx (Bounds templateImg) - 1))
    by (unfold Dx; lia).
  replace (Y (Max (Bounds templateImg)) - 1)
    with (Y (Min (Bounds templateImg)) + (Dy (Bounds templateImg) - 1))
    by (unfold Dy; lia).
  replace (x + Dx (Bounds templateImg) - 1)
    with (x + (Dx (Bounds templateImg) - 1)) by lia.
  replace (y + Dy (Bounds templateImg) - 1)
    with (y + (Dy (Bounds templateImg) - 1)) by lia.
  rewrite Q2. reflexivity.
Qed.

(** On an opaque template the full check is the placement predicate. *)
Lemma match_placedWithin (x y : Z) :
  opaque templateImg →
  screen.match_ screenImg templateImg x y tolerance = true ↔
  placedWithin screenImg templateImg tolerance (mkPoint x y).
Proof.
  intros Hop. rewrite match_true. unfold placedWithin. simpl.
  assert (E : ∀ ty tx, 0 ≤ ty < Dy (Bounds templateImg) →
                0 ≤ tx < Dx (Bounds templateImg) →
    screen.match_pixel screenImg templateImg x y tolerance ty tx
    = pixelWithin screenImg templateImg tolerance (x + tx) (y + ty)
        (X (Min (Bounds templateImg)) + tx) (Y (Min (Bounds templateImg)) + ty)).
  { intros ty tx Hy Hx. unfold screen.match_pixel, pixelWithin.
    specialize (Hop (X (Min (Bounds templateImg)) + tx)
                    (Y (Min (Bounds templateImg)) + ty)).
    unfold alpha, Dx, Dy in *.
    destruct (screen.getRgbAndAlpha templateImg _ _) as [[[tr tg] tb] ta].
    destruct (Z.eqb_spec ta 0) as [->|Hne]; [exfalso; apply Hop; lia|].
    destruct (screen.getRgbAndAlpha screenImg _ _) as [[[sr sg] sb] sa].
    reflexivity. }
  split; intros H.
  - intros tx ty Hx Hy. rewrite <- E by assumption. auto.
  - intros ty tx Hy Hx. rewrite E by assumption. auto.
Qed.

End match_lemmas.

Section scan_row.

Variables (cand : Z → bool) (skip xmax : Z).
Hypothesis skip_nonneg : 0 ≤ skip.

(** The inner loop never needs more than [rowFuel] iterations: any larger
bound yields the same list. *)
Lemma scanRow_fuel (f1 f2 : nat) (x : Z) :
  (screen.rowFuel x xmax ≤ f1)%nat → (screen.rowFuel x xmax ≤ f2)%nat →
  screen.scanRow cand skip xmax f1 x = screen.scanRow cand skip xmax f2 x.
Proof.
  unfold screen.rowFuel. revert f2 x.
  induction f1 as [|f1 IH]; intros [|f2] x H1 H2; simpl; try reflexivity.
  - destruct (Z.leb_spec x xmax); [lia|reflexivity].
  - destruct (Z.leb_spec x xmax); [lia|reflexivity].
  - destruct (Z.leb_spec x xmax); [|reflexivity].
    destruct (cand x); [f_equal|]; apply IH; lia.
Qed.

Lemma scanRow_ge (fuel : nat) (x0 x : Z) :
  In x (screen.scanRow cand skip xmax fuel x0) → x0 ≤ x ≤ xmax.
Proof.
  revert x0. induction fuel as [|fuel IH]; intros x0; simpl; [tauto|].
  destruct (Z.leb_spec x0 xmax); [|simpl; tauto].
  destruct (cand x0).
  - intros [<-|H']; [lia|]. apply IH in H'. lia.
  - intros H'. apply IH in H'. lia.
Qed.

(** What the inner loop reports: the positions of the row that pass the
checks and do not lie within [skip] to the right of a reported one. *)
Lemma scanRow_spec (fuel : nat) (x0 : Z) :
  (screen.rowFuel x0 xmax ≤ fuel)%nat →
  ∀ x, In x (screen.scanRow cand skip xmax fuel x0) ↔
    x0 ≤ x ≤ xmax ∧ cand x = true
    ∧ ¬ ∃ q, In q (screen.scanRow cand skip xmax fuel x0) ∧ q < x ≤ q + skip.
Proof.
  unfold screen.rowFuel. revert x0.
  induction fuel as [|fuel IH]; intros x0 Hfuel x; simpl.
  - split; [tauto|]. intros [? _]. lia.
  - destruct (Z.leb_spec x0 xmax) as [Hle|Hgt]; [|simpl; split; [tauto|lia]].
    destruct (cand x0) eqn:Hc.
    + specialize (IH (x0 + skip + 1) ltac:(lia) x). simpl. split.
      * intros [<-|Hin].
        -- split; [lia|]. split; [assumption|].
           intros [q [[<-|Hq] Hlt]]; [lia|]. apply scanRow_ge in Hq. lia.
        -- apply IH in Hin as (Hr & Hcx & Hns). split; [lia|].
           split; [assumption|].
           intros [q [[<-|Hq] Hlt]]; [lia|]. apply Hns. eauto.
      * intros (Hr & Hcx & Hns).
        destruct (Z.eq_dec x0 x) as [->|Hne]; [left; reflexivity|right].
        apply IH. split; [|split; [assumption|]].
        -- destruct (Z.le_gt_cases x (x0 + skip)); [|lia].
           exfalso. apply Hns. exists x0. split; [left; reflexivity|lia].
        -- intros [q [Hq Hlt]]. apply Hns. exists q. split; [right|]; assumption.
    + specialize (IH (x0 + 1) ltac:(lia) x). rewrite IH. split.
      * intros (Hr & Hcx & Hns). repeat split; [lia|lia|assumption|assumption].
      * intros (Hr & Hcx & Hns). split; [|split; assumption].
        assert (x ≠ x0) by congruence. lia.
Qed.

Lemma scanRow_sorted (fuel : nat) (x0 : Z) :
  StronglySorted Z.lt (screen.scanRow cand skip xmax fuel x0).
Proof.
  revert x0. induction fuel as [|fuel IH]; intros x0; simpl; [constructor|].
  destruct (x0 <=? xmax); [|constructor].
  destruct (cand x0); [|apply IH].
  constructor; [apply IH|]. apply List.Forall_forall. intros q Hq.
  apply scanRow_ge in Hq. lia.
Qed.

(** The first element reported is the first position of the row that passes
the checks. *)
Lemma scanRow_head (fuel : nat) (x0 : Z) :
  (screen.rowFuel x0 xmax ≤ fuel)%nat →
  head (screen.scanRow cand skip xmax fuel x0)
  = vision.firstInRow cand (seqZ x0 (xmax - x0 + 1)).
Proof.
  unfold screen.rowFuel. revert x0.
  induction fuel as [|fuel IH]; intros x0 Hfuel; simpl.
  - rewrite seqZ_nil by lia. reflexivity.
  - destruct (Z.leb_spec x0 xmax) as [Hle|Hgt].
    + rewrite seqZ_cons by lia. simpl.
      destruct (cand x0); [reflexivity|].
      rewrite IH by lia. f_equal. f_equal; lia.
    + rewrite seqZ_nil by lia. reflexivity.
Qed.

End scan_row.

Section scan_area.

Import matching.

Lemma seqZ_sorted (m n : Z) : StronglySorted Z.lt (seqZ m n).
Proof.
  remember (Z.to_nat n) as k eqn:Hk. revert m n Hk.
  induction k as [|k IH]; intros m n Hk.
  - rewrite seqZ_nil by lia. constructor.
  - rewrite seqZ_cons by lia. constructor; [apply IH; lia|].
    apply List.Forall_forall. intros x Hx. apply In_seqZ in Hx. lia.
Qed.

Lemma In_rows (row : Z → list Z) (ys : list Z) (p : Point) :
  In p (concat (map (fun y => map (fun x => mkPoint x y) (row y)) ys)) ↔
  In (Y p) ys ∧ In (X p) (row (Y p)).
Proof.
  rewrite in_concat. split.
  - intros (l & Hl & Hp). apply in_map_iff in Hl as (y & <- & Hy).
    apply in_map_iff in Hp as (x & <- & Hx). simpl. auto.
  - intros [Hy Hx]. exists (map (fun x => mkPoint x (Y p)) (row (Y p))). split.
    + apply in_map_iff. exists (Y p). auto.
    + apply in_map_iff. exists (X p). split; [destruct p; reflexivity|assumption].
Qed.

Lemma rows_sorted (row : Z → list Z) (ys : list Z) :
  (∀ y, StronglySorted Z.lt (row y)) →
  StronglySorted Z.lt ys →
  StronglySorted rowMajorLt
    (concat (map (fun y => map (fun x => mkPoint x y) (row y)) ys)).
Proof.
  intros Hrow Hys. induction Hys as [|y ys Hs IH Hall]; simpl; [constructor|].
  apply StronglySorted_app_2; [| |exact IH].
  - intros p q Hp Hq. apply list_elem_of_In in Hp, Hq.
    apply in_map_iff in Hp as (x & <- & _).
    apply In_rows in Hq as [Hq _].
    rewrite List.Forall_forall in Hall. left. simpl. auto.
  - specialize (Hrow y). induction Hrow as [|x xs Hxs IHx Hfa]; simpl; constructor.
    + exact IHx.
    + rewrite List.Forall_forall in *. intros q Hq.
      apply in_map_iff in Hq as (x' & <- & Hx'). right. simpl. auto.
Qed.

Variables (screenImg templateImg : Image) (tolerance : spec_float).

(** The scan of an area, for a template with at least one pixel. *)
Lemma scanArea_spec (area : Rectangle) :
  nonEmpty templateImg →
  let found := screen.scanArea screenImg templateImg area tolerance in
  (∀ p, In p found ↔
     inArea area templateImg p
     ∧ screen.match_ screenImg templateImg (X p) (Y p) tolerance = true
     ∧ ¬ skippedBy templateImg found p)
  ∧ StronglySorted rowMajorLt found.
Proof.
  intros Hne found. pose proof Hne as [Hw Hh]. split.
  - intros p. unfold found, screen.scanArea. rewrite In_rows, In_seqZ.
    pose proof (half_range _ Hw) as [Hskip _].
    rewrite (scanRow_spec _ _ _ Hskip _ _ (le_n _)).
    rewrite candidate_match by assumption.
    unfold inArea, skippedBy. split.
    + intros (Hy & Hx & Hm & Hns). split; [lia|]. split; [assumption|].
      intros (q & Hq & Hqy & Hlt). apply Hns. exists (X q).
      apply In_rows in Hq as [_ Hq]. rewrite Hqy in Hq. auto.
    + intros ([Hx Hy] & Hm & Hns). split; [lia|]. split; [lia|].
      split; [assumption|]. intros (q & Hq & Hlt). apply Hns.
      exists (mkPoint q (Y p)). simpl. split; [|auto].
      apply In_rows. simpl. rewrite In_seqZ. split; [lia|assumption].
  - unfold found, screen.scanArea. apply rows_sorted; [|apply seqZ_sorted].
    intros y. apply scanRow_sorted. apply half_range. assumption.
Qed.

End scan_area.

Section matcher_theorems.

Import matching.

Lemma uniform_opaque (w h : Z) (c : Z * Z * Z * Z) :
  c.2 `div` 256 ≠ 0 → opaque (uniform w h c).
Proof.
  intros Hc x y Hx Hy. unfold alpha, screen.getRgbAndAlpha, uniform in *.
  simpl in *. unfold inBounds. simpl.
  replace (0 <=? x) with true by (symmetry; apply Z.leb_le; lia).
  replace (x <? w) with true by (symmetry; apply Z.ltb_lt; lia).
  replace (0 <=? y) with true by (symmetry; apply Z.leb_le; lia).
  replace (y <? h) with true by (symmetry; apply Z.ltb_lt; lia).
  simpl. destruct c as [[[r g] b] a]. simpl in *.
  unfold uint32.shr. rewrite Z.shiftr_div_pow2 by lia. exact Hc.
Qed.

(** C1 (as amended): on a template with at least one pixel and no
transparent pixel, [FindAllTemplates] reports a position exactly when the
template fits into the frame there, every template pixel placed there is
within tolerance of the frame pixel under it, and the position does not lie
within half a template width to the right of another reported position of
the same row (the stretch that the scan jumps over after a match).  The
positions come in row-major order, top to bottom and left to right. *)
Theorem FindAllTemplates_reports (screenImg templateImg : Image)
    (tolerance : spec_float) :
  nonEmpty templateImg → opaque templateImg →
  let found := screen.FindAllTemplates screenImg templateImg tolerance in
  (∀ p, In p found ↔
     inArea (Bounds screenImg) templateImg p
     ∧ placedWithin screenImg templateImg tolerance p
     ∧ ¬ skippedBy templateImg found p)
  ∧ StronglySorted rowMajorLt found.
Proof.
  intros Hne Hop found.
  destruct (scanArea_spec screenImg templateImg tolerance (Bounds screenImg) Hne)
    as [Hin Hsorted].
  split; [|exact Hsorted]. intros p. unfold found, screen.FindAllTemplates.
  rewrite Hin. rewrite (match_placedWithin _ _ _ _ _ Hop).
  destruct p; reflexivity.
Qed.

Lemma FindAllTemplates_reports_witness :
  let found := screen.FindAllTemplates frame3x1 template2x1 constants.DefaultTolerance in
  (∀ p, In p found ↔
     inArea (Bounds frame3x1) template2x1 p
     ∧ placedWithin frame3x1 template2x1 constants.DefaultTolerance p
     ∧ ¬ skippedBy template2x1 found p)
  ∧ StronglySorted rowMajorLt found.
Proof.
  apply (FindAllTemplates_reports frame3x1 template2x1 constants.DefaultTolerance).
  - split; vm_compute; reflexivity.
  - apply uniform_opaque. vm_compute. discriminate.
Defined.

(** C1 as stated fails: in a black frame of 3 by 1 pixels the black
template of 2 by 1 pixels matches at (0,0) and at (1,0), and only (0,0) is
reported, the scan having jumped over (1,0). *)
Lemma FindAllTemplates_skips_overlapping_match :
  opaque template2x1
  ∧ placedWithin frame3x1 template2x1 constants.DefaultTolerance (mkPoint 1 0)
  ∧ ¬ In (mkPoint 1 0)
        (screen.FindAllTemplates frame3x1 template2x1 constants.DefaultTolerance).
Proof.
  split; [apply uniform_opaque; vm_compute; discriminate|]. split.
  - intros tx ty Hx Hy. change (Dx (Bounds template2x1)) with 2 in Hx.
    change (Dy (Bounds template2x1)) with 1 in Hy.
    assert (ty = 0) as -> by lia.
    assert (tx = 0 ∨ tx = 1) as [-> | ->] by lia; vm_compute; reflexivity.
  - vm_compute. intros [H|[]]. discriminate H.
Qed.

Lemma scanRow_ext (c1 c2 : Z → bool) (skip xmax : Z) (fuel : nat) (x : Z) :
  (∀ x, c1 x = c2 x) →
  screen.scanRow c1 skip xmax fuel x = screen.scanRow c2 skip xmax fuel x.
Proof.
  intros E. revert x. induction fuel as [|fuel IH]; intros x; simpl; [reflexivity|].
  rewrite E. destruct (x <=? xmax); [|reflexivity].
  destruct (c2 x); [f_equal|]; apply IH.
Qed.

Lemma forallb_pointwise {A} (f g : A → bool) (l : list A) :
  (∀ a, f a = g a) → forallb f l = forallb g l.
Proof. intros E. induction l as [|a l IH]; simpl; [reflexivity|]. rewrite E, IH. reflexivity. Qed.

Lemma quickCheck_transparent (screenImg t1 t2 : Image) (tolerance : spec_float)
    (kx ky px py : Z) :
  (alpha t1 kx ky = 0 ∧ alpha t2 kx ky = 0) ∨ At t1 kx ky = At t2 kx ky →
  screen.quickCheck screenImg t1 tolerance kx ky px py
  = screen.quickCheck screenImg t2 tolerance kx ky px py.
Proof.
  unfold screen.quickCheck, alpha, screen.getRgbAndAlpha.
  intros [[H1 H2]|E]; [|rewrite E; reflexivity].
  destruct (At t1 kx ky) as [[[r1 g1] b1] a1].
  destruct (At t2 kx ky) as [[[r2 g2] b2] a2].
  rewrite H1, H2. reflexivity.
Qed.

Lemma match_pixel_transparent (screenImg t1 t2 : Image) (tolerance : spec_float)
    (sx sy ty tx : Z) :
  sameUpToTransparent t1 t2 →
  screen.match_pixel screenImg t1 sx sy tolerance ty tx
  = screen.match_pixel screenImg t2 sx sy tolerance ty tx.
Proof.
  intros [Hb H]. unfold screen.match_pixel. rewrite <- Hb.
  specialize (H (X (Min (Bounds t1)) + tx) (Y (Min (Bounds t1)) + ty)).
  unfold alpha, screen.getRgbAndAlpha in *.
  destruct H as [[H1 H2]|E]; [|rewrite E; reflexivity].
  destruct (At t1 _ _) as [[[r1 g1] b1] a1].
  destruct (At t2 _ _) as [[[r2 g2] b2] a2].
  rewrite H1, H2. reflexivity.
Qed.

Lemma candidate_transparent (screenImg t1 t2 : Image) (tolerance : spec_float)
    (x y : Z) :
  sameUpToTransparent t1 t2 →
  screen.candidate screenImg t1 tolerance x y
  = screen.candidate screenImg t2 tolerance x y.
Proof.
  intros Hs. pose proof Hs as [Hb H]. unfold screen.candidate, screen.match_.
  rewrite <- Hb.
  rewrite !(quickCheck_transparent screenImg t1 t2) by apply H.
  f_equal. apply forallb_pointwise. intros ty. apply forallb_pointwise. intros tx.
  apply match_pixel_transparent. assumption.
Qed.

(** C2: the colour stored in transparent template pixels never affects the
result.  Two templates with the same bounds that agree at every coordinate
where either is not transparent yield the same list of matches, on every
frame and for every tolerance. *)
Theorem FindAllTemplates_ignores_transparent (screenImg t1 t2 : Image)
    (tolerance : spec_float) :
  sameUpToTransparent t1 t2 →
  screen.FindAllTemplates screenImg t1 tolerance
  = screen.FindAllTemplates screenImg t2 tolerance.
Proof.
  intros Hs. unfold screen.FindAllTemplates, screen.scanArea.
  destruct Hs as [Hb H]. rewrite <- Hb. f_equal. apply map_ext. intros y.
  f_equal. apply scanRow_ext. intros x.
  apply candidate_transparent. split; assumption.
Qed.

Lemma FindAllTemplates_ignores_transparent_witness :
  screen.FindAllTemplates frame3x1 (holed (65535, 0, 0)) constants.DefaultTolerance
  = screen.FindAllTemplates frame3x1 (holed (0, 0, 65535)) constants.DefaultTolerance.
Proof.
  apply FindAllTemplates_ignores_transparent. split; [reflexivity|].
  intros x y. unfold alpha, screen.getRgbAndAlpha, holed. simpl.
  destruct (inBounds _ x y); [|right; reflexivity].
  destruct (x =? 1); [left; split; reflexivity|right; reflexivity].
Defined.

End matcher_theorems.

Section roi_theorems.

Import matching.

(** C8 (as amended): [FindAllTemplatesInROI] falls back to the full-frame
search exactly when [roi.Empty()] holds.  A non-empty ROI that does not
intersect the frame, or whose intersection with the frame is smaller than
the template, yields no match at all; any other ROI is scanned after
clipping to the frame. *)
Theorem FindAllTemplatesInROI_cases (screenImg templateImg : Image)
    (roi : Rectangle) (tolerance : spec_float) :
  (Empty roi = true →
     screen.FindAllTemplatesInROI screenImg templateImg roi tolerance
     = screen.FindAllTemplates screenImg templateImg tolerance)
  ∧ (Empty roi = false →
     Empty (Intersect roi (Bounds screenImg)) = true
     ∨ Dx (Intersect roi (Bounds screenImg)) < Dx (Bounds templateImg)
     ∨ Dy (Intersect roi (Bounds screenImg)) < Dy (Bounds templateImg) →
     screen.FindAllTemplatesInROI screenImg templateImg roi tolerance = [])
  ∧ (Empty roi = false →
     Empty (Intersect roi (Bounds screenImg)) = false →
     Dx (Bounds templateImg) ≤ Dx (Intersect roi (Bounds screenImg)) →
     Dy (Bounds templateImg) ≤ Dy (Intersect roi (Bounds screenImg)) →
     screen.FindAllTemplatesInROI screenImg templateImg roi tolerance
     = screen.scanArea screenImg templateImg
         (Intersect roi (Bounds screenImg)) tolerance).
Proof.
  unfold screen.FindAllTemplatesInROI. split; [|split].
  - intros ->. reflexivity.
  - intros -> H. destruct (Empty (Intersect roi (Bounds screenImg))); [reflexivity|].
    destruct H as [H|[H|H]]; [discriminate| |].
    + apply Z.ltb_lt in H. rewrite H. reflexivity.
    + apply Z.ltb_lt in H. rewrite H, orb_true_r. reflexivity.
  - intros -> -> Hx Hy. apply Z.ltb_ge in Hx, Hy. rewrite Hx, Hy. reflexivity.
Qed.

Lemma FindAllTemplatesInROI_cases_witness :
  screen.FindAllTemplatesInROI blackPixel blackPixel ZR constants.DefaultTolerance
  = screen.FindAllTemplates blackPixel blackPixel constants.DefaultTolerance
  ∧ screen.FindAllTemplatesInROI frame3x1 template2x1 narrowROI
      constants.DefaultTolerance = []
  ∧ screen.FindAllTemplatesInROI frame3x1 blackPixel narrowROI
      constants.DefaultTolerance
    = screen.scanArea frame3x1 blackPixel
        (Intersect narrowROI (Bounds frame3x1)) constants.DefaultTolerance.
Proof.
  pose proof (FindAllTemplatesInROI_cases blackPixel blackPixel ZR
                constants.DefaultTolerance) as (H1 & _ & _).
  pose proof (FindAllTemplatesInROI_cases frame3x1 template2x1 narrowROI
                constants.DefaultTolerance) as (_ & H2 & _).
  pose proof (FindAllTemplatesInROI_cases frame3x1 blackPixel narrowROI
                constants.DefaultTolerance) as (_ & _ & H3).
  split; [|split].
  - apply H1. reflexivity.
  - apply H2; [reflexivity|]. right. left. vm_compute. reflexivity.
  - apply H3; try reflexivity; vm_compute; discriminate.
Defined.

(** C8 as stated fails: a non-empty ROI off the screen, and one whose part
on the screen is narrower than the template, give no match although the
full-frame search finds one. *)
Lemma FindAllTemplatesInROI_degenerate_no_fallback :
  (Empty offScreenROI = false
   ∧ Empty (Intersect offScreenROI (Bounds blackPixel)) = true
   ∧ screen.FindAllTemplatesInROI blackPixel blackPixel offScreenROI
       constants.DefaultTolerance = []
   ∧ screen.FindAllTemplates blackPixel blackPixel constants.DefaultTolerance
     = [mkPoint 0 0])
  ∧ (Empty narrowROI = false
     ∧ Dx (Intersect narrowROI (Bounds frame3x1)) < Dx (Bounds template2x1)
     ∧ screen.FindAllTemplatesInROI frame3x1 template2x1 narrowROI
         constants.DefaultTolerance = []
     ∧ screen.FindAllTemplates frame3x1 template2x1 constants.DefaultTolerance
       = [mkPoint 0 0]).
Proof. vm_compute. repeat split; reflexivity. Qed.

End roi_theorems.

Section old_new.

Import matching.

Variables (screenImg templateImg : Image) (tolerance : spec_float).

Lemma forallb_pointwise_in {A} (f g : A → bool) (l : list A) :
  (∀ a, In a l → f a = g a) → forallb f l = forallb g l.
Proof.
  induction l as [|a l IH]; simpl; intros E; [reflexivity|].
  rewrite E by (left; reflexivity). rewrite IH; [reflexivity|]. auto.
Qed.

Lemma vision_match_pixel (x y ty tx : Z) :
  opaque templateImg →
  0 ≤ ty < Dy (Bounds templateImg) → 0 ≤ tx < Dx (Bounds templateImg) →
  vision.match_pixel screenImg templateImg x y tolerance ty tx
  = screen.match_pixel screenImg templateImg x y tolerance ty tx.
Proof.
  intros Hop Hy Hx. unfold vision.match_pixel, screen.match_pixel.
  specialize (Hop (X (Min (Bounds templateImg)) + tx)
                  (Y (Min (Bounds templateImg)) + ty)).
  unfold alpha, vision.getRgb, screen.getRgbAndAlpha, Dx, Dy in *.
  destruct (At templateImg _ _) as [[[tr tg] tb] ta].
  destruct (At screenImg _ _) as [[[sr sg] sb] sa].
  destruct (Z.eqb_spec (uint32.shr ta 8) 0) as [E|_]; [|reflexivity].
  exfalso. apply Hop; [lia|lia|exact E].
Qed.

Lemma vision_match (x y : Z) :
  opaque templateImg →
  vision.match_ screenImg templateImg x y tolerance
  = screen.match_ screenImg templateImg x y tolerance.
Proof.
  intros Hop. unfold vision.match_, screen.match_.
  apply forallb_pointwise_in. intros ty Hy. apply forallb_pointwise_in. intros tx Hx.
  apply In_seqZ in Hy, Hx. apply vision_match_pixel; [assumption|lia|lia].
Qed.

(** With at least one opaque pixel the old quick check on the first pixel
is a comparison that the full check repeats. *)
Lemma vision_candidate (x y : Z) :
  nonEmpty templateImg → opaque templateImg →
  vision.candidate screenImg templateImg tolerance x y
  = screen.match_ screenImg templateImg x y tolerance.
Proof.
  intros [Hw Hh] Hop. unfold vision.candidate.
  rewrite <- (vision_match x y Hop).
  destruct (vision.match_ screenImg templateImg x y tolerance) eqn:Hm.
  - unfold vision.match_ in Hm. rewrite forallb_forall in Hm.
    specialize (Hm 0 ltac:(apply In_seqZ; lia)). rewrite forallb_forall in Hm.
    specialize (Hm 0 ltac:(apply In_seqZ; lia)).
    unfold vision.match_pixel in Hm. rewrite !Z.add_0_r in Hm.
    destruct (vision.getRgb templateImg _ _) as [[tr tg] tb].
    destruct (vision.getRgb screenImg _ _) as [[sr sg] sb].
    rewrite Hm. reflexivity.
  - destruct (vision.getRgb templateImg _ _) as [[tr tg] tb].
    destruct (vision.getRgb screenImg _ _) as [[sr sg] sb].
    apply andb_false_r.
Qed.

Lemma firstInRow_ext (c1 c2 : Z → bool) (xs : list Z) :
  (∀ x, c1 x = c2 x) → vision.firstInRow c1 xs = vision.firstInRow c2 xs.
Proof.
  intros E. induction xs as [|x xs IH]; simpl; [reflexivity|].
  rewrite E, IH. reflexivity.
Qed.

Lemma firstInRows_ext (c1 c2 : Z → Z → bool) (xs ys : list Z) :
  (∀ x y, c1 x y = c2 x y) →
  vision.firstInRows c1 xs ys = vision.firstInRows c2 xs ys.
Proof.
  intros E. induction ys as [|y ys IH]; simpl; [reflexivity|].
  rewrite (firstInRow_ext _ (fun x => c2 x y)) by (intros; apply E).
  rewrite IH. reflexivity.
Qed.

Lemma firstInRows_no_column (c : Z → Z → bool) (ys : list Z) :
  vision.firstInRows c [] ys = None.
Proof. induction ys as [|y ys IH]; simpl; [reflexivity|exact IH]. Qed.

(** The first element of the rows laid end to end is the first hit of the
row-by-row search. *)
Lemma first_of_rows (c : Z → Z → bool) (row : Z → list Z) (xs ys : list Z) :
  (∀ y, head (row y) = vision.firstInRow (fun x => c x y) xs) →
  match concat (map (fun y => map (fun x => mkPoint x y) (row y)) ys) with
  | p :: _ => (X p, Y p, true)
  | [] => (0, 0, false)
  end
  = match vision.firstInRows c xs ys with
    | Some (x, y) => (x, y, true)
    | None => (0, 0, false)
    end.
Proof.
  intros Hrow. induction ys as [|y ys IH]; simpl; [reflexivity|].
  rewrite <- Hrow. destruct (row y) as [|x r]; simpl; [exact IH|reflexivity].
Qed.

Lemma FindTemplate_old_new :
  nonEmpty templateImg → opaque templateImg →
  vision.FindTemplate screenImg templateImg tolerance
  = screen.FindTemplate screenImg templateImg tolerance.
Proof.
  intros Hne Hop. pose proof Hne as [Hw Hh].
  unfold screen.FindTemplate, screen.FindAllTemplates, screen.scanArea.
  rewrite (first_of_rows
             (fun x y => screen.match_ screenImg templateImg x y tolerance) _
             (seqZ (X (Min (Bounds screenImg)))
                   (X (Max (Bounds screenImg)) - Dx (Bounds templateImg)
                    - X (Min (Bounds screenImg)) + 1))).
  2:{ intros y. rewrite scanRow_head by apply le_n.
      apply firstInRow_ext. intros x. apply candidate_match. assumption. }
  unfold vision.FindTemplate.
  rewrite (firstInRows_ext _
             (fun x y => screen.match_ screenImg templateImg x y tolerance))
    by (intros; apply vision_candidate; assumption).
  destruct (Z.ltb_spec (Dx (Bounds screenImg)) (Dx (Bounds templateImg))) as [Hx|Hx];
    simpl.
  - rewrite (seqZ_nil (X (Min (Bounds screenImg)))) by (unfold Dx in *; lia).
    rewrite firstInRows_no_column. reflexivity.
  - destruct (Z.ltb_spec (Dy (Bounds screenImg)) (Dy (Bounds templateImg))) as [Hy|Hy];
      [|reflexivity].
    rewrite (seqZ_nil (Y (Min (Bounds screenImg)))) by (unfold Dy in *; lia).
    reflexivity.
Qed.

End old_new.

Section old_new_theorems.

Import matching.

(** C10 (as amended): on every frame and for every tolerance, the old and
the new [FindTemplate] return the same found flag and the same position,
for every template that has at least one pixel and no transparent pixel. *)
Theorem FindTemplate_variants_agree (screenImg templateImg : Image)
    (tolerance : spec_float) :
  nonEmpty templateImg → opaque templateImg →
  vision.FindTemplate screenImg templateImg tolerance
  = screen.FindTemplate screenImg templateImg tolerance.
Proof. apply FindTemplate_old_new. Qed.

Lemma FindTemplate_variants_agree_witness :
  vision.FindTemplate frame3x1 template2x1 constants.DefaultTolerance
  = screen.FindTemplate frame3x1 template2x1 constants.DefaultTolerance.
Proof.
  apply FindTemplate_variants_agree.
  - split; vm_compute; reflexivity.
  - apply uniform_opaque. vm_compute. discriminate.
Defined.

(** C10 as stated fails in two ways.  On a template without pixels, all of
whose (zero) pixels have non-zero alpha, the old variant compares the
colour read outside the empty template: on a frame of one white pixel it
answers (1,0), the new variant (0,0).  And a pixel whose alpha is not zero
but below 256 of 65535 is a wildcard for the new variant only: on the same
frame the new variant finds the faint black pixel, the old one does not. *)
Lemma FindTemplate_variants_differ :
  (opaque emptyTemplate
   ∧ vision.FindTemplate whitePixel emptyTemplate constants.DefaultTolerance
     = (1, 0, true)
   ∧ screen.FindTemplate whitePixel emptyTemplate constants.DefaultTolerance
     = (0, 0, true))
  ∧ (At faintPixel 0 0 = (0, 0, 0, 128)
     ∧ vision.FindTemplate whitePixel faintPixel constants.DefaultTolerance
       = (0, 0, false)
     ∧ screen.FindTemplate whitePixel faintPixel constants.DefaultTolerance
       = (0, 0, true)).
Proof.
  split; [split; [|split; vm_compute; reflexivity]
         |repeat split; vm_compute; reflexivity].
  intros x y Hx Hy. simpl in Hx. lia.
Qed.

End old_new_theorems.

(** ** The entity tracker *)

Section tracker_keys.

Import global tracking.

Lemma entityKey_thresh (t1 t2 : EntityTracker) (e : DetectedEntity) :
  positionThresh t1 = positionThresh t2 → entityKey t1 e = entityKey t2 e.
Proof. unfold entityKey. intros ->. reflexivity. Qed.

Lemma go_div_cell (u i x : Z) :
  0 ≤ i → i * u ≤ x < (i + 1) * u → go_div x u = i.
Proof.
  intros Hi Hx. unfold go_div. assert (0 < u) by nia.
  rewrite Z.quot_div_nonneg by nia.
  symmetry. apply (Z.div_unique x u i (x - i * u)); lia.
Qed.

(** C7 (as amended): for every priority, two positions that lie in the same
cell of the quantization grid (the same multiple of the unit, default
20 px, in both axes) get the same key from [entityKey]. *)
Theorem entityKey_same_cell (t : EntityTracker) (a b : DetectedEntity) :
  Priority a = Priority b →
  sameCell (positionThresh t) (Position a) (Position b) →
  entityKey t a = entityKey t b.
Proof.
  intros Hp (i & j & Hi & Hj & Hxa & Hxb & Hya & Hyb). unfold entityKey.
  rewrite Hp.
  rewrite (go_div_cell _ i (X (Position a))), (go_div_cell _ i (X (Position b))),
    (go_div_cell _ j (Y (Position a))), (go_div_cell _ j (Y (Position b)))
    by assumption.
  reflexivity.
Qed.

Lemma entityKey_same_cell_witness :
  entityKey NewEntityTracker (detection 20 100 500)
  = entityKey NewEntityTracker (detection 20 119 519).
Proof.
  apply entityKey_same_cell; [reflexivity|].
  exists 5, 25. simpl. lia.
Defined.

(** C7 as stated fails: (19, 0) and (20, 0) are one pixel apart and fall
into different cells. *)
Lemma entityKey_differs_across_cells :
  Z.abs (X (Position (detection 20 19 0)) - X (Position (detection 20 20 0))) ≤ 20
  ∧ Z.abs (Y (Position (detection 20 19 0)) - Y (Position (detection 20 20 0))) ≤ 20
  ∧ entityKey NewEntityTracker (detection 20 19 0) = "20_0_0"
  ∧ entityKey NewEntityTracker (detection 20 20 0) = "20_20_0".
Proof. vm_compute. repeat split; discriminate. Qed.

End tracker_keys.

Section tracker_clicks.

Import global tracking.

Lemma RecordClick_params (tF tL tB : Z) (t : EntityTracker) (e : DetectedEntity) :
  maxClicks (RecordClick tF tL tB t e).1 = maxClicks t
  ∧ positionThresh (RecordClick tF tL tB t e).1 = positionThresh t.
Proof.
  unfold RecordClick. destruct (blacklist t !! entityKey t e); [auto|].
  match goal with |- context [if ?c then _ else _] => destruct c end; auto.
Qed.

Lemma RecordClick_blacklisted (tF tL tB : Z) (t : EntityTracker)
    (e : DetectedEntity) :
  IsBlacklisted t e = true → RecordClick tF tL tB t e = (t, true).
Proof.
  unfold IsBlacklisted, RecordClick.
  destruct (blacklist t !! entityKey t e); [reflexivity|discriminate].
Qed.

Lemma RecordClick_keeps_blacklist (tF tL tB : Z) (t : EntityTracker)
    (e : DetectedEntity) (k : string) :
  is_Some (blacklist t !! k) →
  is_Some (blacklist (RecordClick tF tL tB t e).1 !! k).
Proof.
  intros Hk. unfold RecordClick. destruct (blacklist t !! entityKey t e); [exact Hk|].
  match goal with |- context [if ?c then _ else _] => destruct c end;
    simpl; [|exact Hk].
  rewrite lookup_insert_is_Some. destruct (decide (entityKey t e = k)); auto.
Qed.

(** One click on a key that is not blacklisted: the count goes up by one,
and the key is blacklisted, with result [true], exactly when the new count
reaches [maxClicks]. *)
Lemma RecordClick_counts (tF tL tB : Z) (t : EntityTracker) (e : DetectedEntity) :
  blacklist t !! entityKey t e = None →
  let '(t1, r) := RecordClick tF tL tB t e in
  clicksAt t1 (entityKey t e) = clicksAt t (entityKey t e) + 1
  ∧ r = (maxClicks t <=? clicksAt t (entityKey t e) + 1)
  ∧ (r = true → is_Some (blacklist t1 !! entityKey t e))
  ∧ (r = false → blacklist t1 !! entityKey t e = None).
Proof.
  intros Hb. unfold RecordClick, clicksAt. rewrite Hb.
  destruct (entities t !! entityKey t e) as [tr|]; simpl;
    match goal with |- context [if ?c then _ else _] => destruct c eqn:Hc end;
    simpl; rewrite ?lookup_insert_eq; simpl;
    (split; [reflexivity|]); (split; [reflexivity|]);
    split; intros ?; try discriminate; eauto.
Qed.

Lemma RecordClicks_length (t : EntityTracker) (calls : list Click) :
  length (RecordClicks t calls).2 = length calls.
Proof.
  revert t. induction calls as [|[[[tF tL] tB] e] calls IH]; intros t; simpl;
    [reflexivity|].
  destruct (RecordClick tF tL tB t e) as [t1 r].
  specialize (IH t1). destruct (RecordClicks t1 calls). simpl in *. congruence.
Qed.

Lemma RecordClicks_params (t : EntityTracker) (calls : list Click) :
  maxClicks (RecordClicks t calls).1 = maxClicks t
  ∧ positionThresh (RecordClicks t calls).1 = positionThresh t.
Proof.
  revert t. induction calls as [|[[[tF tL] tB] e] calls IH]; intros t; simpl;
    [auto|].
  pose proof (RecordClick_params tF tL tB t e) as [Hm Hp].
  destruct (RecordClick tF tL tB t e) as [t1 r].
  specialize (IH t1). destruct (RecordClicks t1 calls). simpl in *.
  destruct IH. split; congruence.
Qed.

Lemma RecordClicks_keeps_blacklist (t : EntityTracker) (calls : list Click)
    (k : string) :
  is_Some (blacklist t !! k) →
  is_Some (blacklist (RecordClicks t calls).1 !! k).
Proof.
  revert t. induction calls as [|[[[tF tL] tB] e] calls IH]; intros t Hk; simpl;
    [exact Hk|].
  pose proof (RecordClick_keeps_blacklist tF tL tB t e k Hk) as H1.
  destruct (RecordClick tF tL tB t e) as [t1 r].
  specialize (IH t1 H1). destruct (RecordClicks t1 calls). exact IH.
Qed.

(** Clicks on a blacklisted key change nothing and all answer [true]. *)
Lemma RecordClicks_blacklisted (t : EntityTracker) (calls : list Click)
    (k : string) :
  is_Some (blacklist t !! k) →
  Forall (fun c => entityKey t c.2 = k) calls →
  RecordClicks t calls = (t, replicate (length calls) true).
Proof.
  intros Hk Hall. induction Hall as [|[[[tF tL] tB] e] calls Hc Hall IH]; simpl;
    [reflexivity|].
  simpl in Hc. rewrite RecordClick_blacklisted.
  - rewrite IH. reflexivity.
  - unfold IsBlacklisted. rewrite Hc. destruct Hk as [s ->]. reflexivity.
Qed.

Lemma last_replicate_true (n : nat) :
  n ≠ 0%nat → last (replicate n true) = Some true.
Proof.
  induction n as [|[|n] IH]; intros Hn; [congruence|reflexivity|].
  change (replicate (S (S n)) true) with (true :: replicate (S n) true).
  rewrite last_cons. rewrite IH by discriminate. reflexivity.
Qed.

(** Enough clicks on one key blacklist it, and the last of them answers
[true]. *)
Lemma RecordClicks_reach (calls : list Click) (t : EntityTracker) (k : string) :
  blacklist t !! k = None →
  Forall (fun c => entityKey t c.2 = k) calls →
  maxClicks t ≤ clicksAt t k + Z.of_nat (length calls) →
  calls ≠ [] →
  is_Some (blacklist (RecordClicks t calls).1 !! k)
  ∧ last (RecordClicks t calls).2 = Some true.
Proof.
  revert t. induction calls as [|[[[tF tL] tB] e] calls IH];
    intros t Hb Hall Hn Hne; [congruence|].
  apply Forall_cons in Hall as [Hk Hall]. simpl in Hk. simpl.
  pose proof (RecordClick_counts tF tL tB t e) as Hc. rewrite Hk in Hc.
  specialize (Hc Hb).
  pose proof (RecordClick_params tF tL tB t e) as [Hm Hp].
  destruct (RecordClick tF tL tB t e) as [t1 r]. simpl in *.
  destruct Hc as (Hcnt & Hr & Ht & Hf).
  assert (Hall1 : Forall (fun c => entityKey t1 c.2 = k) calls).
  { eapply Forall_impl; [exact Hall|]. intros c Hc. simpl in *.
    rewrite <- Hc. apply entityKey_thresh. assumption. }
  destruct r.
  - specialize (Ht eq_refl).
    rewrite (RecordClicks_blacklisted t1 calls k Ht Hall1). simpl.
    split; [exact Ht|].
    change (true :: replicate (length calls) true)
      with (replicate (S (length calls)) true).
    apply last_replicate_true. discriminate.
  - specialize (Hf eq_refl). symmetry in Hr. apply Z.leb_gt in Hr.
    destruct calls as [|c calls']; [simpl in Hn; lia|].
    specialize (IH t1 Hf Hall1 ltac:(simpl length in *; lia) ltac:(discriminate)).
    destruct (RecordClicks t1 (c :: calls')) as [t2 rs] eqn:E. simpl in *.
    destruct IH as [IH1 IH2]. split; [exact IH1|].
    destruct rs as [|r0 rs]; [discriminate|]. rewrite last_cons, IH2. reflexivity.
Qed.

(** Clicks on one key that keep its count below the threshold neither
blacklist it nor answer [true]. *)
Lemma RecordClicks_below (calls : list Click) (t : EntityTracker) (k : string) :
  blacklist t !! k = None →
  Forall (fun c => entityKey t c.2 = k) calls →
  clicksAt t k + Z.of_nat (length calls) < maxClicks t →
  blacklist (RecordClicks t calls).1 !! k = None
  ∧ clicksAt (RecordClicks t calls).1 k = clicksAt t k + Z.of_nat (length calls)
  ∧ (RecordClicks t calls).2 = replicate (length calls) false.
Proof.
  revert t. induction calls as [|[[[tF tL] tB] e] calls IH]; intros t Hb Hall Hn.
  - simpl. split; [exact Hb|]. split; [lia|reflexivity].
  - apply Forall_cons in Hall as [Hk Hall]. simpl in Hk.
    rewrite length_cons, Nat2Z.inj_succ in Hn. cbn [RecordClicks].
    pose proof (RecordClick_counts tF tL tB t e) as Hc. rewrite Hk in Hc.
    specialize (Hc Hb).
    pose proof (RecordClick_params tF tL tB t e) as [Hm Hp].
    destruct (RecordClick tF tL tB t e) as [t1 r]. simpl in Hm, Hp.
    destruct Hc as (Hcnt & Hr & _ & Hf).
    assert (r = false) as -> by (rewrite Hr; apply Z.leb_gt; lia).
    assert (Hall1 : Forall (fun c => entityKey t1 c.2 = k) calls).
    { eapply Forall_impl; [exact Hall|]. intros c Hc. simpl in *.
      rewrite <- Hc. apply entityKey_thresh. assumption. }
    destruct (IH t1 (Hf eq_refl) Hall1) as (H1 & H2 & H3); [lia|].
    destruct (RecordClicks t1 calls) as [t2 rs]. simpl in *.
    split; [exact H1|]. split; [lia|]. rewrite H3. reflexivity.
Qed.

(** C4 (as amended): let [key] be not blacklisted, with a click count that
is not negative (0 for a key that is not tracked), let the threshold
[maxClicks] (7 by default) be at least 1, and let [maxClicks] calls of
[RecordClick] with detections of that key follow one another, with no
[Reset] and no [Update] in between.  As long as the count stays below the
threshold (for a count of 0: after each of the first [maxClicks - 1]
calls) [IsBlacklisted] answers [false], the count has gone up by one per
call and every call has returned [false].  The last call has returned
[true], and from then on, whatever further [RecordClick] calls follow,
[IsBlacklisted] answers [true] for the key and a [RecordClick] on it
returns [true] and leaves the tracker, hence the click count, as it
is. *)
Theorem RecordClick_blacklists_at_maxClicks (t : EntityTracker) (key : string)
    (calls : list Click) :
  1 ≤ maxClicks t →
  blacklist t !! key = None →
  0 ≤ clicksAt t key →
  Forall (fun c => entityKey t c.2 = key) calls →
  Z.of_nat (length calls) = maxClicks t →
  (∀ (n : nat) (e : DetectedEntity),
      clicksAt t key + Z.of_nat n < maxClicks t →
      entityKey t e = key →
      let r := RecordClicks t (take n calls) in
      IsBlacklisted r.1 e = false
      ∧ GetClickCount r.1 e = clicksAt t key + Z.of_nat n
      ∧ r.2 = replicate n false)
  ∧ last (RecordClicks t calls).2 = Some true
  ∧ ∀ (later : list Click) (e : DetectedEntity) (tF tL tB : Z),
      entityKey t e = key →
      let t2 := (RecordClicks (RecordClicks t calls).1 later).1 in
      IsBlacklisted t2 e = true
      ∧ RecordClick tF tL tB t2 e = (t2, true).
Proof.
  intros Hmax Hb Hcnt Hall Hlen. split.
  { intros n e Hn He r.
    assert (Hlen_n : length (take n calls) = n)
      by (rewrite length_take; lia).
    destruct (RecordClicks_below (take n calls) t key Hb) as (H1 & H2 & H3);
      [apply Forall_take; exact Hall|rewrite Hlen_n; exact Hn|].
    fold r in H1, H2, H3. rewrite Hlen_n in H2, H3.
    assert (Hk : entityKey r.1 e = key).
    { rewrite <- He. apply entityKey_thresh. unfold r.
      destruct (RecordClicks_params t (take n calls)) as [_ ->]. reflexivity. }
    unfold IsBlacklisted, GetClickCount. rewrite Hk, H1.
    split; [reflexivity|]. split; [exact H2|exact H3]. }
  destruct (RecordClicks_reach calls t key Hb Hall) as [Hbl Hlast];
    [lia|intros ->; simpl in Hlen; lia|].
  split; [exact Hlast|]. intros later e tF tL tB He t2.
  assert (Hbl2 : IsBlacklisted t2 e = true).
  { unfold IsBlacklisted.
    assert (Hk : entityKey t2 e = key).
    { rewrite <- He. apply entityKey_thresh. unfold t2.
      destruct (RecordClicks_params (RecordClicks t calls).1 later) as [_ ->].
      destruct (RecordClicks_params t calls) as [_ ->]. reflexivity. }
    rewrite Hk.
    destruct (RecordClicks_keeps_blacklist _ later key Hbl) as [s Hs].
    fold t2 in Hs. rewrite Hs. reflexivity. }
  split; [exact Hbl2|]. apply RecordClick_blacklisted. exact Hbl2.
Qed.

Lemma RecordClick_blacklists_at_maxClicks_witness :
  (∀ (n : nat) (e : DetectedEntity),
      clicksAt NewEntityTracker "20_100_500" + Z.of_nat n
      < maxClicks NewEntityTracker →
      entityKey NewEntityTracker e = "20_100_500" →
      let r := RecordClicks NewEntityTracker (take n sevenClicks) in
      IsBlacklisted r.1 e = false
      ∧ GetClickCount r.1 e
        = clicksAt NewEntityTracker "20_100_500" + Z.of_nat n
      ∧ r.2 = replicate n false)
  ∧ last (RecordClicks NewEntityTracker sevenClicks).2 = Some true
  ∧ ∀ (later : list Click) (e : DetectedEntity) (tF tL tB : Z),
      entityKey NewEntityTracker e = "20_100_500" →
      let t2 :=
        (RecordClicks (RecordClicks NewEntityTracker sevenClicks).1 later).1 in
      IsBlacklisted t2 e = true
      ∧ RecordClick tF tL tB t2 e = (t2, true).
Proof.
  apply (RecordClick_blacklists_at_maxClicks NewEntityTracker "20_100_500"
           sevenClicks).
  - vm_compute. discriminate.
  - reflexivity.
  - vm_compute. discriminate.
  - repeat constructor.
  - reflexivity.
Defined.

(** C4, as first stated: [Update] is not [Reset], and it undoes the
blacklisting of a key.  Seven clicks on the entity at (100, 500) blacklist
its key; an [Update] that then sees the entity at (105, 350) carries the
entry over to the new key, and [IsBlacklisted] answers [false] for the old
one.  And with an [Update] after the fourth click that comes 4 s later and
sees nothing, the entity expires with its count: after the seven clicks
the count is 3, the seventh has returned [false] and the key is not
blacklisted. *)
Lemma RecordClick_blacklist_undone_by_Update :
  (let t7 := (RecordClicks NewEntityTracker sevenClicks).1 in
   let t8 := (Update canonicalOrder 1500 t7 [detection 20 105 350]).1 in
   IsBlacklisted t7 (detection 20 100 500) = true
   ∧ IsBlacklisted t8 (detection 20 100 500) = false
   ∧ GetClickCount t8 (detection 20 100 500) = 0)
  ∧ (let click := (1000, 1000, 1000, detection 20 100 500) in
     let t4 := (RecordClicks NewEntityTracker (replicate 4 click)).1 in
     let t5 := (Update canonicalOrder 4000001000 t4 []).1 in
     let r := RecordClicks t5 (replicate 3 click) in
     last r.2 = Some false
     ∧ IsBlacklisted r.1 (detection 20 100 500) = false
     ∧ GetClickCount r.1 (detection 20 100 500) = 3).
Proof. vm_compute. repeat split. Qed.

End tracker_clicks.

Section tracker_update.

Import global tracking.

Variables (order : RangeOrder) (now : Z).

(** *** What the loops leave alone *)

Lemma reconcile_frame (i : nat) (st : UpdateState) (d : DetectedEntity) :
  let st' := reconcile order now i st d in
  positionThresh (tracker st') = positionThresh (tracker st)
  ∧ ttl (tracker st') = ttl (tracker st)
  ∧ seen st' = {[ entityKey (tracker st) d ]} ∪ seen st
  ∧ ∃ ev, events st' = events st ++ ev.
Proof.
  unfold reconcile.
  destruct (entities (tracker st) !! entityKey (tracker st) d); simpl;
    [eauto 6|].
  destruct (negb (String.eqb _ "")); simpl; [|eauto 6].
  destruct (entities (tracker st) !! findMovedEntity _ _ _); simpl.
  - destruct (blacklist (tracker st) !! _); simpl; eauto 6.
  - repeat split; try reflexivity. exists []. rewrite app_nil_r. reflexivity.
Qed.

Lemma reconcileAll_frame (detected : list DetectedEntity) (i : nat)
    (st : UpdateState) :
  let st' := reconcileAll order now i st detected in
  positionThresh (tracker st') = positionThresh (tracker st)
  ∧ ttl (tracker st') = ttl (tracker st)
  ∧ seen st' = list_to_set (detectedKeys (tracker st) detected) ∪ seen st
  ∧ ∃ ev, events st' = events st ++ ev.
Proof.
  revert i st. induction detected as [|d ds IH]; intros i st; simpl.
  - repeat split; try reflexivity; [cbn; rewrite union_empty_l_L; reflexivity|].
    exists []. rewrite app_nil_r. reflexivity.
  - destruct (reconcile_frame i st d) as (Hp & Ht & Hs & ev1 & He).
    destruct (IH (S i) (reconcile order now i st d)) as (Hp' & Ht' & Hs' & ev2 & He').
    split; [congruence|]. split; [congruence|]. split.
    + rewrite Hs', Hs. unfold detectedKeys.
      rewrite (map_ext (entityKey (tracker (reconcile order now i st d)))
                       (entityKey (tracker st)))
        by (intros; apply entityKey_thresh; exact Hp).
      cbn [map list_to_set].
      rewrite (assoc_L (∪)), (comm_L (∪) (list_to_set _)). reflexivity.
    + exists (ev1 ++ ev2). rewrite He', He, app_assoc. reflexivity.
Qed.

Lemma expireOne_frame (st : UpdateState) (entry : string * TrackedEntity) :
  let st' := expireOne now st entry in
  seen st' = seen st ∧ ttl (tracker st') = ttl (tracker st)
  ∧ blacklist (tracker st') = blacklist (tracker st)
  ∧ ∃ ev, events st' = events st ++ ev
      ∧ ∀ k nk, EvMoved k nk ∈ ev → False.
Proof.
  unfold expireOne. destruct entry as [key tracked].
  destruct (_ && _); simpl.
  - repeat split; try reflexivity. eexists; split; [reflexivity|].
    intros k nk H. apply list_elem_of_singleton in H. discriminate.
  - repeat split; try reflexivity. exists []. rewrite app_nil_r.
    split; [reflexivity|]. intros k nk H. inversion H.
Qed.

Lemma expire_frame (l : list (string * TrackedEntity)) (st : UpdateState) :
  let st' := fold_left (expireOne now) l st in
  seen st' = seen st ∧ ttl (tracker st') = ttl (tracker st)
  ∧ blacklist (tracker st') = blacklist (tracker st)
  ∧ ∃ ev, events st' = events st ++ ev
      ∧ ∀ k nk, EvMoved k nk ∈ ev → False.
Proof.
  revert st. induction l as [|entry l IH]; intros st; simpl.
  - repeat split; try reflexivity. exists []. rewrite app_nil_r.
    split; [reflexivity|]. intros k nk H. inversion H.
  - destruct (expireOne_frame st entry) as (Hs & Ht & Hb & ev1 & He & Hm).
    destruct (IH (expireOne now st entry)) as (Hs' & Ht' & Hb' & ev2 & He' & Hm').
    repeat split; try congruence.
    exists (ev1 ++ ev2). split; [rewrite He', He, app_assoc; reflexivity|].
    intros k nk H. apply elem_of_app in H as [H|H]; eauto.
Qed.

(** *** The expiry loop, key by key *)

Lemma expire_lookup (l : list (string * TrackedEntity)) (st : UpdateState)
    (k : string) :
  entities (tracker (fold_left (expireOne now) l st)) !! k
  = if expires now st k l then None else entities (tracker st) !! k.
Proof.
  revert st. induction l as [|[k' tr'] l IH]; intros st; [reflexivity|].
  cbn [fold_left]. rewrite IH.
  destruct (expireOne_frame st (k', tr')) as (Hs & Ht & _).
  assert (E : expires now (expireOne now st (k', tr')) k l = expires now st k l).
  { unfold expires. rewrite Hs, Ht. reflexivity. }
  rewrite E.
  change (expires now st k ((k', tr') :: l))
    with (bool_decide (k' = k) && negb (bool_decide (k ∈ seen st))
          && (ttl (tracker st) <? now - LastSeen tr') || expires now st k l).
  unfold expireOne.
  destruct (decide (k' = k)) as [->|Hne].
  - rewrite (bool_decide_eq_true_2 (k = k)) by reflexivity. cbn [andb].
    destruct (negb (bool_decide (k ∈ seen st))
              && (ttl (tracker st) <? now - LastSeen tr')) eqn:Hc; cbn [orb].
    + cbn. rewrite lookup_delete_eq. destruct (expires now st k l); reflexivity.
    + reflexivity.
  - rewrite (bool_decide_eq_false_2 (k' = k)) by assumption. cbn [andb orb].
    destruct (negb (bool_decide (k' ∈ seen st))
              && (ttl (tracker st) <? now - LastSeen tr')); [|reflexivity].
    cbn. rewrite lookup_delete_ne by assumption. reflexivity.
Qed.

(** On the entries of the map itself, in whatever order, a tracked key is
deleted exactly when it was not seen and its entity is older than the
time to live. *)
Lemma expires_tracked (st : UpdateState) (k : string) (cur : TrackedEntity)
    (i : nat) :
  valid_order order →
  entities (tracker st) !! k = Some cur →
  expires now st k (order i (entities (tracker st)))
  = negb (bool_decide (k ∈ seen st)) && (ttl (tracker st) <? now - LastSeen cur).
Proof.
  intros Hval Hk. specialize (Hval i (entities (tracker st))).
  apply eq_true_iff_eq. unfold expires. rewrite existsb_exists. split.
  - intros ([k' tr'] & Hin & Hc). simpl in Hc.
    apply andb_prop in Hc as [Hc H3]. apply andb_prop in Hc as [H1 H2].
    apply bool_decide_eq_true_1 in H1. subst k'.
    apply list_elem_of_In in Hin. rewrite Hval in Hin.
    apply elem_of_map_to_list in Hin. rewrite Hk in Hin.
    injection Hin as ->. rewrite H2, H3. reflexivity.
  - intros Hc. exists (k, cur). split.
    + apply list_elem_of_In. rewrite Hval. apply elem_of_map_to_list. exact Hk.
    + simpl. rewrite bool_decide_eq_true_2 by reflexivity. exact Hc.
Qed.

Lemma expires_untracked (st : UpdateState) (k : string)
    (l : list (string * TrackedEntity)) :
  entities (tracker (fold_left (expireOne now) l st)) !! k = None
  ∨ entities (tracker (fold_left (expireOne now) l st)) !! k
    = entities (tracker st) !! k.
Proof. rewrite expire_lookup. destruct (expires now st k l); auto. Qed.

(** *** The reconciliation loop, for one key that is never moved *)

Section one_key.

Variables (k : string) (tr : TrackedEntity).



End one_key.

End tracker_update.

Section tracker_invariant.

Import global tracking.

Lemma NewEntityTracker_wellFormed : wellFormed NewEntityTracker.
Proof.
  split; [vm_compute; discriminate|]. intros k tr H.
  change (entities NewEntityTracker) with (∅ : gmap string TrackedEntity) in H.
  rewrite lookup_empty in H. discriminate H.
Qed.

Lemma Reset_wellFormed (t : EntityTracker) : wellFormed t → wellFormed (Reset t).
Proof.
  intros [Hm _]. split; [exact Hm|]. intros k tr H. simpl in H.
  rewrite lookup_empty in H. discriminate H.
Qed.

Lemma RecordClick_wellFormed (tF tL tB : Z) (t : EntityTracker)
    (e : DetectedEntity) :
  wellFormed t → wellFormed (RecordClick tF tL tB t e).1.
Proof.
  intros [Hm Hc]. unfold RecordClick.
  destruct (blacklist t !! entityKey t e); [split; assumption|].
  set (tracked := match entities t !! entityKey t e with
                  | Some tr0 => tr0
                  | None => mkTracked e 0 tL tF
                  end).
  assert (Ht : 0 ≤ ClickCount tracked).
  { unfold tracked. destruct (entities t !! entityKey t e) eqn:E; simpl;
      [eauto|lia]. }
  assert (H1 : ∀ k tr,
            <[ entityKey t e :=
                 mkTracked (Entity tracked) (ClickCount tracked + 1)
                           (LastSeen tracked) (FirstSeen tracked) ]>
              (entities t) !! k = Some tr →
            0 ≤ ClickCount tr).
  { intros k tr H. apply lookup_insert_Some in H as [[_ <-]|[_ H]]; simpl;
      [lia|eauto]. }
  match goal with |- context [if ?c then _ else _] => destruct c end;
    split; simpl; assumption.
Qed.

Lemma reconcile_wellFormed (order : RangeOrder) (now : Z) (i : nat)
    (st : UpdateState) (d : DetectedEntity) :
  wellFormed (tracker st) → wellFormed (tracker (reconcile order now i st d)).
Proof.
  intros [Hm Hc]. unfold reconcile.
  destruct (entities (tracker st) !! entityKey (tracker st) d) as [ex|] eqn:Hex;
    simpl.
  - split; [exact Hm|]. intros k tr H. simpl in H.
    apply lookup_insert_Some in H as [[_ <-]|[_ H]]; simpl; eauto.
  - destruct (negb (String.eqb _ "")); simpl.
    + destruct (entities (tracker st) !! findMovedEntity _ _ _) as [old|] eqn:Ho;
        simpl; [|split; assumption].
      destruct (blacklist (tracker st) !! _); simpl;
        (split; [exact Hm|]); intros k tr H; simpl in H;
        apply lookup_delete_Some in H as [_ H];
        apply lookup_insert_Some in H as [[_ <-]|[_ H]]; simpl; eauto.
    + split; [exact Hm|]. intros k tr H. simpl in H.
      apply lookup_insert_Some in H as [[_ <-]|[_ H]]; simpl; [lia|eauto].
Qed.

Lemma expireOne_wellFormed (now : Z) (st : UpdateState)
    (entry : string * TrackedEntity) :
  wellFormed (tracker st) → wellFormed (tracker (expireOne now st entry)).
Proof.
  intros [Hm Hc]. unfold expireOne. destruct entry as [key tracked].
  destruct (_ && _); simpl; [|split; assumption].
  split; [exact Hm|]. intros k tr H. simpl in H.
  apply lookup_delete_Some in H as [_ H]. eauto.
Qed.

(** From a fresh tracker on, [Update], [RecordClick] and [Reset] keep the
threshold positive and the click counts non-negative. *)
Lemma Update_wellFormed (order : RangeOrder) (now : Z) (t : EntityTracker)
    (detected : list DetectedEntity) :
  wellFormed t → wellFormed (Update order now t detected).1.
Proof.
  intros Hwf. unfold Update. simpl.
  assert (H1 : ∀ ds i st, wellFormed (tracker st) →
                 wellFormed (tracker (reconcileAll order now i st ds))).
  { induction ds as [|d ds IH]; intros i st H; simpl; [exact H|].
    apply IH. apply reconcile_wellFormed. exact H. }
  assert (H2 : ∀ l st, wellFormed (tracker st) →
                 wellFormed (tracker (fold_left (expireOne now) l st))).
  { induction l as [|entry l IH]; intros st H; simpl; [exact H|].
    apply IH. apply expireOne_wellFormed. exact H. }
  apply H2, H1. exact Hwf.
Qed.

End tracker_invariant.

Section tracker_theorems.

Import global tracking.




Lemma append_inj_l (s a b : string) : s +:+ a = s +:+ b → a = b.
Proof.
  induction s as [|c s IH]; simpl; intros H; [exact H|].
  injection H as H. auto.
Qed.

Lemma append_nonempty (s : string) (c : Ascii.ascii) (a : string) :
  String.eqb (s +:+ String c a) "" = false.
Proof. destruct s; reflexivity. Qed.

(** [findMovedEntity] answers the key of the one entity that qualifies, in
whatever order the map is visited. *)
Lemma findMovedEntity_only (t : EntityTracker) (m : gmap string TrackedEntity)
    (l : list (string * TrackedEntity)) (d : DetectedEntity)
    (oldKey : string) (tr : TrackedEntity) :
  l ≡ₚ map_to_list m →
  m !! oldKey = Some tr →
  movedMatch t (Entity tr) d = true →
  (∀ k' tr', m !! k' = Some tr' → k' ≠ oldKey →
     movedMatch t (Entity tr') d = false) →
  findMovedEntity t l d = oldKey.
Proof.
  intros Hperm Hold Hmatch Hothers.
  assert (Hin : (oldKey, tr) ∈ l)
    by (rewrite Hperm; apply elem_of_map_to_list; exact Hold).
  assert (Hall : ∀ k' tr', (k', tr') ∈ l → m !! k' = Some tr').
  { intros k' tr' H. rewrite Hperm in H. apply elem_of_map_to_list in H. exact H. }
  clear Hperm. induction l as [|[k' tr'] l IH]; [inversion Hin|].
  simpl. destruct (decide (k' = oldKey)) as [->|Hne].
  - assert (tr' = tr) as ->.
    { specialize (Hall oldKey tr' ltac:(left)). congruence. }
    rewrite Hmatch. reflexivity.
  - rewrite (Hothers k' tr') by (try apply Hall; try left; assumption).
    apply IH.
    + apply elem_of_cons in Hin as [Hin|Hin]; [congruence|exact Hin].
    + intros k'' tr'' H. apply Hall. right. exact H.
Qed.

(** C5 (as amended): let the tracker, with the default quantization unit
20, hold an entity of priority [P] at (100, 500) under its key, let no
entity be tracked under the key of (105, 350), and let no other tracked
entity qualify as the moved one.  After [Update] with the single detection
of priority [P] at (105, 350), the entity is stored under the new key with
its click count and first-seen instant, the old key is removed, and the
blacklist entry of the old key, if there is one, has gone over to the new
key. *)
Theorem Update_moves_entity (order : RangeOrder) (now : Z) (t : EntityTracker)
    (tr : TrackedEntity) (d : DetectedEntity) :
  valid_order order →
  positionThresh t = 20 →
  Position (Entity tr) = mkPoint 100 500 →
  Position d = mkPoint 105 350 →
  Priority d = Priority (Entity tr) →
  let oldKey := entityKey t (Entity tr) in
  let newKey := entityKey t d in
  entities t !! oldKey = Some tr →
  entities t !! newKey = None →
  (∀ k' tr', entities t !! k' = Some tr' → k' ≠ oldKey →
     movedMatch t (Entity tr') d = false) →
  let t' := (Update order now t [d]).1 in
  oldKey ≠ newKey
  ∧ entities t' !! newKey = Some (mkTracked d (ClickCount tr) now (FirstSeen tr))
  ∧ entities t' !! oldKey = None
  ∧ blacklist t' =
      match blacklist t !! oldKey with
      | Some stamp => delete oldKey (<[ newKey := stamp ]> (blacklist t))
      | None => blacklist t
      end.
Proof.
  intros Hval Hth Hpos Hposd Hprio oldKey newKey Hold Hnew Hothers t'.
  assert (Eold : oldKey = strconv.Itoa (Priority d) +:+ "_100_500").
  { unfold oldKey, entityKey. rewrite Hth, Hpos, Hprio. reflexivity. }
  assert (Enew : newKey = strconv.Itoa (Priority d) +:+ "_100_340").
  { unfold newKey, entityKey. rewrite Hth, Hposd. reflexivity. }
  assert (Hne : oldKey ≠ newKey).
  { rewrite Eold, Enew. intros H. apply append_inj_l in H. discriminate H. }
  assert (Hnonempty : String.eqb oldKey "" = false).
  { rewrite Eold. apply append_nonempty. }
  assert (Hmatch : movedMatch t (Entity tr) d = true).
  { unfold movedMatch. rewrite Hprio, Hpos, Hposd, Hth, Z.eqb_refl. reflexivity. }
  assert (Hfind : findMovedEntity t (order 0%nat (entities t)) d = oldKey).
  { apply (findMovedEntity_only t (entities t) _ d oldKey tr); auto. }
  set (st1 := reconcile order now 0 (mkUpdate t ∅ []) d).
  assert (Est1 : entities (tracker st1)
                 = delete oldKey
                     (<[ newKey := mkTracked d (ClickCount tr) now (FirstSeen tr) ]>
                        (entities t))
               ∧ blacklist (tracker st1)
                 = match blacklist t !! oldKey with
                   | Some stamp => delete oldKey (<[ newKey := stamp ]> (blacklist t))
                   | None => blacklist t
                   end
               ∧ seen st1 = {[ newKey ]} ∪ ∅).
  { unfold st1, reconcile. cbn [tracker seen events].
    fold newKey. rewrite Hnew, Hfind, Hnonempty. cbn [negb]. rewrite Hold.
    destruct (blacklist t !! oldKey); cbn; auto. }
  destruct Est1 as (Eent & Ebl & Eseen).
  assert (Hnew1 : entities (tracker st1) !! newKey
                  = Some (mkTracked d (ClickCount tr) now (FirstSeen tr))).
  { rewrite Eent, lookup_delete_ne, lookup_insert_eq by assumption. reflexivity. }
  assert (Hold1 : entities (tracker st1) !! oldKey = None).
  { rewrite Eent, lookup_delete_eq. reflexivity. }
  subst t'. unfold Update. cbn [fst reconcileAll length]. fold st1.
  split; [exact Hne|]. split; [|split].
  - rewrite expire_lookup.
    rewrite (expires_tracked order now st1 newKey _ _ Hval Hnew1).
    rewrite bool_decide_eq_true_2
      by (rewrite Eseen; apply elem_of_union_l, elem_of_singleton; reflexivity).
    exact Hnew1.
  - destruct (expires_untracked now st1 oldKey
                (order 1%nat (entities (tracker st1)))) as [H|H];
      [exact H|rewrite H; exact Hold1].
  - destruct (expire_frame now (order 1%nat (entities (tracker st1))) st1)
      as (_ & _ & Hb & _).
    rewrite Hb. exact Ebl.
Qed.

Lemma Update_moves_entity_witness :
  let t' := (Update canonicalOrder 1500 oneEntity [detection 20 105 350]).1 in
  "20_100_500" ≠ "20_100_340"
  ∧ entities t' !! "20_100_340"
    = Some (mkTracked (detection 20 105 350) 3 1500 1000)
  ∧ entities t' !! "20_100_500" = None
  ∧ blacklist t' = blacklist oneEntity.
Proof.
  apply (Update_moves_entity canonicalOrder 1500 oneEntity
           (mkTracked (detection 20 100 500) 3 1000 1000)
           (detection 20 105 350)).
  - intros i m. reflexivity.
  - reflexivity.
  - reflexivity.
  - reflexivity.
  - reflexivity.
  - reflexivity.
  - reflexivity.
  - intros k' tr' H Hne. exfalso. apply Hne.
    change (entities oneEntity)
      with ({[ "20_100_500" := mkTracked (detection 20 100 500) 3 1000 1000 ]}
            : gmap string TrackedEntity) in H.
    apply lookup_singleton_Some in H as [<- _]. reflexivity.
Defined.

(** C5 as stated fails when the tracker holds more than the one entity.
With a second entity of the same priority already tracked at (100, 350),
the detection at (105, 350) refreshes that one: the entity at (100, 500)
keeps its key, and the click count under the new key is 0, not 3.  With a
second entity at (100, 400) instead, both qualify as the moved one, and
when the map is visited in the order that meets the second one first, it is
that one which moves: the new key gets its 5 clicks and the entity at
(100, 500) keeps its key. *)
Lemma Update_second_entity_takes_detection :
  (entities twoEntities !! "20_100_500"
   = Some (mkTracked (detection 20 100 500) 3 1000 1000)
   ∧ entityKey twoEntities (detection 20 105 350) = "20_100_340"
   ∧ entities (Update canonicalOrder 1500 twoEntities [detection 20 105 350]).1
       !! "20_100_500"
     = Some (mkTracked (detection 20 100 500) 3 1000 1000)
   ∧ entities (Update canonicalOrder 1500 twoEntities [detection 20 105 350]).1
       !! "20_100_340"
     = Some (mkTracked (detection 20 105 350) 0 1500 1000))
  ∧ (valid_order reverseOrder
     ∧ entities rivals !! "20_100_500"
       = Some (mkTracked (detection 20 100 500) 3 1000 1000)
     ∧ entities rivals !! "20_100_340" = None
     ∧ entities (Update reverseOrder 1500 rivals [detection 20 105 350]).1
         !! "20_100_500"
       = Some (mkTracked (detection 20 100 500) 3 1000 1000)
     ∧ entities (Update reverseOrder 1500 rivals [detection 20 105 350]).1
         !! "20_100_340"
       = Some (mkTracked (detection 20 105 350) 5 1500 1000)).
Proof.
  split; [vm_compute; repeat split; reflexivity|].
  split; [intros i m; apply reverse_Permutation|].
  vm_compute. repeat split; reflexivity.
Qed.

End tracker_theorems.

(** ** The search-open handler *)

Section search_open.

Import bot searching.

Variable others : BotState → Handler.

(** A tick whose capture fails leaves state and counter as they are. *)
Lemma handleSearchOpenState_capture_error (b : GlobalBot) :
  (handleSearchOpenState b None).1.1 = b.
Proof. reflexivity. Qed.

(** One failed tick in the search-open state: the counter goes up by one,
and on reaching [SearchMaxRetries] it is reset and the state becomes
[StateAutoDetect]. *)
Lemma failed_tick_step (b : GlobalBot) (capture : option image.Image) :
  State b = StateSearchOpen →
  failedTick b capture →
  let b' := (processState others b capture).1.1 in
  targetsChannelOpen b' = targetsChannelOpen b
  ∧ if constants.SearchMaxRetries <=? searchRetryCount b + 1
    then State b' = StateAutoDetect ∧ searchRetryCount b' = 0
    else State b' = StateSearchOpen
         ∧ searchRetryCount b' = searchRetryCount b + 1.
Proof.
  intros Hs (screenImg & -> & Hnone). unfold processState. rewrite Hs.
  unfold handleSearchOpenState. rewrite Hnone. cbn [searchRetryCount setRetryCount].
  destruct (constants.SearchMaxRetries <=? searchRetryCount b + 1); cbn; auto.
Qed.

Lemma failed_ticks_run (captures : list (option image.Image)) (b : GlobalBot) :
  State b = StateSearchOpen →
  0 ≤ searchRetryCount b →
  Forall (failedTick b) captures →
  let n := Z.of_nat (length captures) in
  let b' := runTicks others b captures in
  (searchRetryCount b + n < constants.SearchMaxRetries →
     State b' = StateSearchOpen ∧ searchRetryCount b' = searchRetryCount b + n)
  ∧ (0 < n → searchRetryCount b + n = constants.SearchMaxRetries →
     State b' = StateAutoDetect ∧ searchRetryCount b' = 0).
Proof.
  revert b. induction captures as [|c cs IH]; intros b Hs Hc Hall n b'.
  - subst n b'. simpl. split; [intros _; split; [assumption|lia]|lia].
  - apply Forall_cons in Hall as [Hfail Hall].
    pose proof (failed_tick_step b c Hs Hfail) as [Ht Hstep].
    subst n b'. cbn [runTicks]. set (b1 := (processState others b c).1.1) in *.
    assert (Hall1 : Forall (failedTick b1) cs).
    { eapply Forall_impl; [exact Hall|]. intros c' (img & -> & Hn).
      exists img. rewrite Ht. auto. }
    rewrite length_cons, Nat2Z.inj_succ.
    destruct (Z.leb_spec constants.SearchMaxRetries (searchRetryCount b + 1))
      as [Hge|Hlt].
    + destruct Hstep as [Hs1 Hc1]. split; [lia|]. intros _ Hsum.
      assert (length cs = 0%nat) as E by lia.
      apply length_zero_iff_nil in E. subst cs. simpl. auto.
    + destruct Hstep as [Hs1 Hc1].
      specialize (IH b1 Hs1 ltac:(lia) Hall1). cbv zeta in IH.
      destruct IH as [IHlt IHeq]. rewrite Hc1 in IHlt, IHeq. split.
      * intros Hsum. destruct IHlt as [-> ->]; [lia|]. split; [reflexivity|lia].
      * intros _ Hsum. apply IHeq; lia.
Qed.

End search_open.

Section search_open_theorem.

Import bot searching.

(** C6: let the bot be in the search-open state with a retry counter of
zero, and let every tick be a failed one: the screen is captured and no
channel-open marker is found on it.  After fewer than [SearchMaxRetries]
(3) such ticks the state is still search-open, with the counter equal to
their number; after exactly [SearchMaxRetries] the state is
[StateAutoDetect] and the counter is zero again.  The handlers of the other
states play no part. *)
Theorem SearchOpen_falls_back_after_max_retries (others : BotState → Handler)
    (b : GlobalBot) (captures : list (option image.Image)) :
  State b = StateSearchOpen →
  searchRetryCount b = 0 →
  Forall (failedTick b) captures →
  let n := Z.of_nat (length captures) in
  let b' := runTicks others b captures in
  (n < constants.SearchMaxRetries →
     State b' = StateSearchOpen ∧ searchRetryCount b' = n)
  ∧ (n = constants.SearchMaxRetries →
     State b' = StateAutoDetect ∧ searchRetryCount b' = 0).
Proof.
  intros Hs Hc Hall n b'.
  destruct (failed_ticks_run others captures b Hs ltac:(lia) Hall) as [Hlt Heq].
  rewrite Hc in Hlt, Heq. split.
  - intros Hn. apply Hlt. exact Hn.
  - intros Hn. apply Heq; [unfold n in Hn; rewrite Hn; reflexivity|exact Hn].
Qed.

Lemma blackScreens_fail (n : nat) :
  Forall (failedTick searchingBot) (blackScreens n).
Proof.
  apply Forall_replicate. exists matching.blackPixel.
  split; [reflexivity|]. vm_compute. reflexivity.
Qed.

Lemma SearchOpen_falls_back_after_max_retries_witness :
  (State (runTicks idle searchingBot (blackScreens 2)) = StateSearchOpen
   ∧ searchRetryCount (runTicks idle searchingBot (blackScreens 2)) = 2)
  ∧ (State (runTicks idle searchingBot (blackScreens 3)) = StateAutoDetect
     ∧ searchRetryCount (runTicks idle searchingBot (blackScreens 3)) = 0).
Proof.
  split.
  - apply (SearchOpen_falls_back_after_max_retries idle searchingBot
             (blackScreens 2) eq_refl eq_refl (blackScreens_fail 2)).
    reflexivity.
  - apply (SearchOpen_falls_back_after_max_retries idle searchingBot
             (blackScreens 3) eq_refl eq_refl (blackScreens_fail 3)).
    reflexivity.
Defined.

End search_open_theorem.

(** ** The colour comparison *)

Section colour_lemmas.

Import colour.

Lemma allFrom_spec (p : Z → bool) (fuel : nat) (lo : Z) :
  allFrom p fuel lo = true → ∀ k, lo ≤ k < lo + Z.of_nat fuel → p k = true.
Proof.
  revert lo. induction fuel as [|fuel IH]; intros lo H k Hk; [lia|].
  simpl in H. destruct (p lo) eqn:Hp; [|discriminate].
  destruct (Z.eq_dec k lo) as [->|Hne]; [exact Hp|].
  apply (IH (lo + 1) H). lia.
Qed.

(** Every sum of squares that can arise has its float64 square root
bracketed by the neighbouring integers: checked value by value. *)
Lemma sqrt_table :
  allFrom sqrtBracketed (Z.to_nat maxSumSquares) 1 = true.
Proof. vm_cast_no_check (eq_refl true). Qed.

(** The number of binary digits of a mantissa. *)
Lemma digits2_bounds (p : positive) :
  2 ^ (Z.pos (digits2_pos p) - 1) ≤ Z.pos p < 2 ^ Z.pos (digits2_pos p).
Proof.
  induction p as [p IH|p IH|]; cbn [digits2_pos].
  - rewrite Pos2Z.inj_succ.
    replace (Z.succ (Z.pos (digits2_pos p)) - 1)
      with (Z.succ (Z.pos (digits2_pos p) - 1)) by lia.
    rewrite !Z.pow_succ_r by lia. lia.
  - rewrite Pos2Z.inj_succ.
    replace (Z.succ (Z.pos (digits2_pos p)) - 1)
      with (Z.succ (Z.pos (digits2_pos p) - 1)) by lia.
    rewrite !Z.pow_succ_r by lia. lia.
  - simpl. lia.
Qed.

(** Shifting a mantissa left by [k] bits. *)
Lemma shift_left_mantissa (k p : positive) :
  Z.pos (Pos.iter xO p k) = Z.pos p * 2 ^ Z.pos k
  ∧ digits2_pos (Pos.iter xO p k) = (digits2_pos p + k)%positive.
Proof.
  induction k as [|k IH] using Pos.peano_ind.
  - simpl. split; lia.
  - rewrite Pos.iter_succ. destruct IH as [IH1 IH2]. split.
    + rewrite Pos2Z.inj_xO, IH1, Pos2Z.inj_succ, Z.pow_succ_r by lia. ring.
    + cbn [digits2_pos]. rewrite IH2. lia.
Qed.

(** Rounding leaves a mantissa of 53 bits as it is. *)
Lemma round_full_mantissa (m : positive) (e : Z) :
  digits2_pos m = 53%positive → -1074 ≤ e ≤ 971 →
  binary_round_aux 53 1024 false (Z.pos m) e loc_Exact = S754_finite false m e.
Proof.
  intros Hd He. unfold binary_round_aux, shr_fexp, Zdigits2, fexp, emin.
  rewrite Hd.
  replace (Z.max (53 + e - 53) (3 - 1024 - 53) - e) with 0 by lia.
  cbn [shr shr_record_of_loc shr_m loc_of_shr_record round_nearest_even].
  unfold Zdigits2. rewrite Hd.
  replace (Z.max (53 + e - 53) (3 - 1024 - 53) - e) with 0 by lia.
  cbn [shr shr_record_of_loc shr_m].
  replace (e <=? 1024 - 53) with true by (symmetry; apply Z.leb_le; lia).
  reflexivity.
Qed.

(** Every integer from 1 to [maxTolerance] is a float64: the conversion
shifts it into a full mantissa and rounds nothing away. *)
Lemma integer_exact (n : Z) :
  1 ≤ n ≤ maxTolerance → integerExact n = true.
Proof.
  unfold maxTolerance. intros Hn. destruct n as [|p|p]; try lia.
  assert (He : ∃ m e, float64.of_Z (Z.pos p) = S754_finite false m e
             ∧ 2 ^ 52 ≤ Z.pos m < 2 ^ 53 ∧ -52 ≤ e
             ∧ Z.pos m * 2 ^ (e + 52) = Z.pos p * 2 ^ 52).
  { unfold float64.of_Z, float64.prec, float64.emax, binary_normalize,
      binary_round, shl_align, fexp, emin.
    pose proof (digits2_bounds p) as Hb.
    set (d := Z.pos (digits2_pos p)) in *.
    assert (Hd : 1 ≤ d ≤ 53).
    { split; [unfold d; lia|].
      destruct (Z.le_gt_cases d 53) as [|Hgt]; [assumption|]. exfalso.
      assert (2 ^ 53 ≤ 2 ^ (d - 1)) by (apply Z.pow_le_mono_r; lia).
      change (2 ^ 53) with 9007199254740992 in *. lia. }
    replace (Z.max (d + 0 - 53) (3 - 1024 - 53)) with (d - 53) by lia.
    rewrite Z.sub_0_r.
    destruct (d - 53) as [|k|k] eqn:Hk; try lia.
    - assert (E : d = 53) by lia. exists p, 0.
      rewrite round_full_mantissa by (try lia; unfold d in *; lia).
      split; [reflexivity|]. rewrite E in Hb.
      replace (53 - 1) with 52 in Hb by lia. repeat split; lia.
    - destruct (shift_left_mantissa k p) as [Hv Hdig].
      exists (Pos.iter xO p k), (Z.neg k).
      rewrite round_full_mantissa; [|rewrite Hdig; unfold d in *; lia|lia].
      split; [reflexivity|].
      assert (Ek : Z.pos k = 53 - d) by lia. rewrite Hv, Ek.
      assert (E1 : 2 ^ 53 = 2 ^ d * 2 ^ (53 - d))
        by (rewrite <- Z.pow_add_r by lia; f_equal; lia).
      assert (E2 : 2 ^ 52 = 2 ^ (d - 1) * 2 ^ (53 - d))
        by (rewrite <- Z.pow_add_r by lia; f_equal; lia).
      assert (P : 0 < 2 ^ (53 - d)) by (apply Z.pow_pos_nonneg; lia).
      split; [rewrite E1, E2; nia|]. split; [lia|].
      replace (Z.neg k + 52) with (d - 1) by lia. rewrite E2. ring. }
  destruct He as (m & e & Hf & [Hlo Hhi] & Hexp & Hval).
  unfold integerExact. rewrite Hf. unfold normalAboveOne, scaled.
  rewrite Hval, Z.eqb_refl.
  apply Z.leb_le in Hlo, Hexp. apply Z.ltb_lt in Hhi.
  rewrite Hlo, Hhi, Hexp. reflexivity.
Qed.

(** The subtraction and squaring wrap around modulo 2^32, and the square
comes out right all the same. *)
Lemma square_wraps (a b : Z) :
  channel a → channel b →
  uint32.mul (uint32.sub a b) (uint32.sub a b) = (a - b) * (a - b).
Proof.
  unfold channel, uint32.mul, uint32.sub, uint32.wrap, uint32.modulus.
  change (2 ^ 32) with 4294967296.
  intros Ha Hb. rewrite <- Z.mul_mod by lia. apply Z.mod_small.
  assert (Hd : -255 ≤ a - b ≤ 255) by lia. revert Hd.
  generalize (a - b). intros d Hd. nia.
Qed.

Lemma sum_wraps (r1 g1 b1 r2 g2 b2 : Z) :
  channel r1 → channel g1 → channel b1 →
  channel r2 → channel g2 → channel b2 →
  uint32.add
    (uint32.add (uint32.mul (uint32.sub r1 r2) (uint32.sub r1 r2))
                (uint32.mul (uint32.sub g1 g2) (uint32.sub g1 g2)))
    (uint32.mul (uint32.sub b1 b2) (uint32.sub b1 b2))
  = sumSquares r1 g1 b1 r2 g2 b2
  ∧ 0 ≤ sumSquares r1 g1 b1 r2 g2 b2 ≤ maxSumSquares.
Proof.
  intros Hr1 Hg1 Hb1 Hr2 Hg2 Hb2.
  rewrite !square_wraps by assumption.
  unfold channel, uint32.add, uint32.wrap, uint32.modulus, sumSquares,
    maxSumSquares in *.
  change (2 ^ 32) with 4294967296.
  assert (Hsq : ∀ d, -255 ≤ d ≤ 255 → 0 ≤ d * d ≤ 65025) by (intros; nia).
  pose proof (Hsq (r1 - r2) ltac:(lia)).
  pose proof (Hsq (g1 - g2) ltac:(lia)).
  pose proof (Hsq (b1 - b2) ltac:(lia)).
  rewrite (Z.mod_small ((r1 - r2) * (r1 - r2) + (g1 - g2) * (g1 - g2))) by lia.
  rewrite Z.mod_small by lia. lia.
Qed.

(** On floats of at least 1 with full mantissas the comparison of float64
is the comparison of the values. *)
Lemma le_normal (m1 m2 : positive) (e1 e2 : Z) :
  normalAboveOne m1 e1 = true → normalAboveOne m2 e2 = true →
  float64.le (S754_finite false m1 e1) (S754_finite false m2 e2)
  = (scaled m1 e1 <=? scaled m2 e2).
Proof.
  unfold normalAboveOne, scaled. intros H1 H2.
  apply andb_prop in H1 as [H1 He1]. apply andb_prop in H1 as [Hl1 Hu1].
  apply andb_prop in H2 as [H2 He2]. apply andb_prop in H2 as [Hl2 Hu2].
  apply Z.leb_le in Hl1, Hl2, He1, He2. apply Z.ltb_lt in Hu1, Hu2.
  unfold float64.le, SFleb, SFcompare.
  assert (P1 : 0 < 2 ^ (e1 + 52)) by (apply Z.pow_pos_nonneg; lia).
  assert (P2 : 0 < 2 ^ (e2 + 52)) by (apply Z.pow_pos_nonneg; lia).
  destruct (Z.compare_spec e1 e2) as [->|Hlt|Hgt].
  - change (Pos.compare_cont Eq m1 m2) with (Z.pos m1 ?= Z.pos m2).
    destruct (Z.compare_spec (Z.pos m1) (Z.pos m2)); symmetry.
    + apply Z.leb_le. nia.
    + apply Z.leb_le. nia.
    + apply Z.leb_gt. nia.
  - symmetry. apply Z.leb_le.
    replace (e2 + 52) with ((e1 + 52) + (e2 - e1)) by lia.
    rewrite (Z.pow_add_r 2 (e1 + 52) (e2 - e1)) by lia.
    assert (HB : 2 ^ 1 ≤ 2 ^ (e2 - e1)) by (apply Z.pow_le_mono_r; lia).
    change (2 ^ 1) with 2 in *. change (2 ^ 52) with 4503599627370496 in *.
    change (2 ^ 53) with 9007199254740992 in *.
    revert HB P1. generalize (2 ^ (e2 - e1)) (2 ^ (e1 + 52)). intros B A HB P1.
    assert (Z.pos m1 * A ≤ 2 * Z.pos m2 * A)
      by (apply Z.mul_le_mono_nonneg_r; lia).
    assert (0 ≤ Z.pos m2 * A) by (apply Z.mul_nonneg_nonneg; lia).
    replace (Z.pos m2 * (A * B)) with (Z.pos m2 * A * B) by ring. nia.
  - symmetry. apply Z.leb_gt.
    replace (e1 + 52) with ((e2 + 52) + (e1 - e2)) by lia.
    rewrite (Z.pow_add_r 2 (e2 + 52) (e1 - e2)) by lia.
    assert (HB : 2 ^ 1 ≤ 2 ^ (e1 - e2)) by (apply Z.pow_le_mono_r; lia).
    change (2 ^ 1) with 2 in *. change (2 ^ 52) with 4503599627370496 in *.
    change (2 ^ 53) with 9007199254740992 in *.
    revert HB P2. generalize (2 ^ (e1 - e2)) (2 ^ (e2 + 52)). intros B A HB P2.
    assert (Z.pos m2 * A < 2 * Z.pos m1 * A)
      by (apply Z.mul_lt_mono_pos_r; lia).
    assert (0 ≤ Z.pos m1 * A) by (apply Z.mul_nonneg_nonneg; lia).
    replace (Z.pos m1 * (A * B)) with (Z.pos m1 * A * B) by ring. nia.
Qed.

(** For an integer tolerance the float64 comparison decides [s <= n^2]. *)
Lemma le_sqrt_integer (s n : Z) :
  0 ≤ s ≤ maxSumSquares → 0 ≤ n ≤ maxTolerance →
  float64.le (float64.Sqrt (float64.of_Z s)) (float64.of_Z n) = (s <=? n * n).
Proof.
  intros Hs Hn.
  destruct (Z.eq_dec s 0) as [->|Hs0]; [|destruct (Z.eq_dec n 0) as [->|Hn0]].
  - destruct (Z.eq_dec n 0) as [->|Hn0]; [reflexivity|].
    pose proof (integer_exact n ltac:(lia)) as Hi.
    unfold integerExact in Hi.
    destruct (float64.of_Z n) as [| | |[|] m e]; try discriminate Hi.
    symmetry. apply Z.leb_le. nia.
  - pose proof (allFrom_spec _ _ _ sqrt_table s) as Hq.
    specialize (Hq ltac:(unfold maxSumSquares in *; lia)).
    unfold sqrtBracketed in Hq.
    destruct (float64.Sqrt (float64.of_Z s)) as [| | |[|] m e]; try discriminate Hq.
    symmetry. apply Z.leb_gt. lia.
  - pose proof (integer_exact n ltac:(lia)) as Hi.
    pose proof (allFrom_spec _ _ _ sqrt_table s) as Hq.
    specialize (Hq ltac:(unfold maxSumSquares in *; lia)).
    unfold integerExact in Hi. unfold sqrtBracketed in Hq.
    destruct (float64.of_Z n) as [| | |[|] mn en]; try discriminate Hi.
    destruct (float64.Sqrt (float64.of_Z s)) as [| | |[|] ms es];
      try discriminate Hq.
    apply andb_prop in Hi as [Nn Vn]. apply andb_prop in Hq as [Ns Vs].
    rewrite (le_normal _ _ _ _ Ns Nn). apply Z.eqb_eq in Vn. rewrite Vn.
    pose proof (Z.sqrt_spec s ltac:(lia)) as Hsq. cbv zeta in Vs.
    set (q := Z.sqrt s) in *. assert (0 ≤ q) by (apply Z.sqrt_nonneg).
    change (2 ^ 52) with 4503599627370496 in *.
    unfold Z.succ in Hsq.
    destruct (Z.eqb_spec (q * q) s) as [Esq|Nsq].
    + apply Z.eqb_eq in Vs. rewrite Vs.
      destruct (Z.leb_spec s (n * n)); [apply Z.leb_le|apply Z.leb_gt].
      * assert (q ≤ n) by nia. lia.
      * assert (n < q) by nia. lia.
    + apply andb_prop in Vs as [Vlo Vhi].
      apply Z.ltb_lt in Vlo, Vhi.
      destruct (Z.leb_spec s (n * n)); [apply Z.leb_le|apply Z.leb_gt].
      * assert (q < n) by nia. lia.
      * assert (n ≤ q) by nia. lia.
Qed.

End colour_lemmas.

Section colour_theorems.

Import colour.

(** C9 (as amended): on channel values between 0 and 255, the unsigned
32-bit subtractions and products of [colorSimilar] wrap around and still
yield the sum of squares computed over the mathematical integers; the
result is the float64 comparison of [math.Sqrt] of that sum with the
tolerance, which never errors.  For every integer tolerance [n] from 0 to
2^53 - 1, the default 60 among them, the result is [true] exactly when the
sum of squares is at most [n * n], that is when the square root is at most
[n]. *)
Theorem colorSimilar_exact (r1 g1 b1 r2 g2 b2 : Z) :
  channel r1 → channel g1 → channel b1 →
  channel r2 → channel g2 → channel b2 →
  (∀ tolerance,
     screen.colorSimilar r1 g1 b1 r2 g2 b2 tolerance
     = float64.le
         (float64.Sqrt (float64.of_Z (sumSquares r1 g1 b1 r2 g2 b2)))
         tolerance)
  ∧ (∀ n, 0 ≤ n ≤ maxTolerance →
       screen.colorSimilar r1 g1 b1 r2 g2 b2 (float64.of_Z n) = true
       ↔ sumSquares r1 g1 b1 r2 g2 b2 ≤ n * n).
Proof.
  intros Hr1 Hg1 Hb1 Hr2 Hg2 Hb2.
  destruct (sum_wraps r1 g1 b1 r2 g2 b2) as [Hsum Hrange]; try assumption.
  assert (E : ∀ tolerance,
     screen.colorSimilar r1 g1 b1 r2 g2 b2 tolerance
     = float64.le
         (float64.Sqrt (float64.of_Z (sumSquares r1 g1 b1 r2 g2 b2)))
         tolerance).
  { intros tolerance. unfold screen.colorSimilar. cbv zeta. rewrite Hsum.
    reflexivity. }
  split; [exact E|]. intros n Hn.
  rewrite E, le_sqrt_integer by assumption. apply Z.leb_le.
Qed.

Lemma colorSimilar_exact_witness :
  (∀ tolerance,
     screen.colorSimilar 0 0 0 255 255 255 tolerance
     = float64.le
         (float64.Sqrt (float64.of_Z (sumSquares 0 0 0 255 255 255)))
         tolerance)
  ∧ (∀ n, 0 ≤ n ≤ maxTolerance →
       screen.colorSimilar 0 0 0 255 255 255 (float64.of_Z n) = true
       ↔ sumSquares 0 0 0 255 255 255 ≤ n * n).
Proof.
  apply colorSimilar_exact; unfold channel; lia.
Defined.

(** C9 as stated fails for tolerances that are not integers.  Two colours
one step apart in each channel are at distance sqrt 3; the float64 nearest
to sqrt 3 lies below it, and with that tolerance [colorSimilar] answers
[true] although the distance exceeds the tolerance. *)
Lemma colorSimilar_rounds_sqrt :
  float64.Sqrt (float64.of_Z 3) = sqrt3
  ∧ screen.colorSimilar 1 1 1 0 0 0 sqrt3 = true
  ∧ ¬ distanceWithin (sumSquares 1 1 1 0 0 0) sqrt3.
Proof.
  split; [vm_compute; reflexivity|]. split; [vm_compute; reflexivity|].
  unfold distanceWithin, sqrt3. vm_compute. intros H. apply H. reflexivity.
Qed.

End colour_theorems.

(** * Further properties *)

(** ** The matcher, on any template *)

Section matcher_more.

Import matching wildcards.

Variables (screenImg templateImg : Image) (tolerance : spec_float).

Lemma concat_nil_rows {A} (f : Z → list A) (ys : list Z) :
  (∀ y, f y = []) → concat (map f ys) = [].
Proof.
  intros H. induction ys as [|y ys IH]; simpl; [reflexivity|].
  rewrite H, IH. reflexivity.
Qed.

(** X1.  A frame that is narrower or lower than the template yields no
match: [FindAllTemplates] returns the empty list and [FindTemplate] answers
not found, whatever the pixels and the tolerance. *)
Theorem FindAllTemplates_small_frame :
  Dx (Bounds screenImg) < Dx (Bounds templateImg)
  ∨ Dy (Bounds screenImg) < Dy (Bounds templateImg) →
  screen.FindAllTemplates screenImg templateImg tolerance = []
  ∧ screen.FindTemplate screenImg templateImg tolerance = (0, 0, false).
Proof.
  intros H.
  assert (E : screen.FindAllTemplates screenImg templateImg tolerance = []).
  { unfold screen.FindAllTemplates, screen.scanArea. unfold Dx, Dy in H.
    destruct H as [H|H].
    - apply concat_nil_rows. intros y. unfold screen.rowFuel.
      replace (Z.to_nat _) with 0%nat by (unfold Dx; lia). reflexivity.
    - rewrite seqZ_nil by (unfold Dy; lia). reflexivity. }
  split; [exact E|]. unfold screen.FindTemplate. rewrite E. reflexivity.
Qed.

Lemma match_visibleWithin (x y : Z) :
  screen.match_ screenImg templateImg x y tolerance = true ↔
  visibleWithin screenImg templateImg tolerance (mkPoint x y).
Proof.
  rewrite match_true. unfold visibleWithin. simpl.
  assert (E : ∀ ty tx,
    screen.match_pixel screenImg templateImg x y tolerance ty tx = true ↔
    (alpha templateImg (X (Min (Bounds templateImg)) + tx)
           (Y (Min (Bounds templateImg)) + ty) ≠ 0 →
     pixelWithin screenImg templateImg tolerance (x + tx) (y + ty)
       (X (Min (Bounds templateImg)) + tx) (Y (Min (Bounds templateImg)) + ty)
     = true)).
  { intros ty tx. unfold screen.match_pixel, pixelWithin, alpha.
    destruct (screen.getRgbAndAlpha templateImg _ _) as [[[tr tg] tb] ta].
    destruct (screen.getRgbAndAlpha screenImg _ _) as [[[sr sg] sb] sa].
    destruct (Z.eqb_spec ta 0) as [->|Hne]; split; auto; congruence. }
  split; intros H.
  - intros tx ty Hx Hy. apply E. auto.
  - intros ty tx Hy Hx. apply E. auto.
Qed.

(** X2.  On any template with at least one pixel, transparent pixels or
not, [FindAllTemplates] reports a position exactly when the template fits
into the frame there, every template pixel that is not transparent is
within tolerance of the frame pixel under it, and the position does not
lie in the stretch that the scan jumps over after another reported match
of the row.  The positions come in row-major order. *)
Theorem FindAllTemplates_reports_visible :
  nonEmpty templateImg →
  let found := screen.FindAllTemplates screenImg templateImg tolerance in
  (∀ p, In p found ↔
     inArea (Bounds screenImg) templateImg p
     ∧ visibleWithin screenImg templateImg tolerance p
     ∧ ¬ skippedBy templateImg found p)
  ∧ StronglySorted rowMajorLt found.
Proof.
  intros Hne found.
  destruct (scanArea_spec screenImg templateImg tolerance (Bounds screenImg) Hne)
    as [Hin Hsorted].
  split; [|exact Hsorted]. intros p. unfold found, screen.FindAllTemplates.
  rewrite Hin, match_visibleWithin. destruct p; reflexivity.
Qed.

(** X3.  Two positions that [FindAllTemplates] reports in the same row are
more than half a template width apart. *)
Theorem FindAllTemplates_spacing (p q : Point) :
  nonEmpty templateImg →
  In p (screen.FindAllTemplates screenImg templateImg tolerance) →
  In q (screen.FindAllTemplates screenImg templateImg tolerance) →
  Y p = Y q → X q < X p →
  X q + go_div (Dx (Bounds templateImg)) 2 < X p.
Proof.
  intros Hne Hp Hq Hy Hx.
  destruct (scanArea_spec screenImg templateImg tolerance (Bounds screenImg) Hne)
    as [Hin _].
  apply Hin in Hp as (_ & _ & Hns).
  destruct (Z.lt_ge_cases (X q + go_div (Dx (Bounds templateImg)) 2) (X p))
    as [Hlt|Hge]; [exact Hlt|].
  exfalso. apply Hns. exists q. split; [exact Hq|]. split; [auto|lia].
Qed.

Lemma skippedBy_dec (found : list Point) (p : Point) :
  skippedBy templateImg found p ∨ ¬ skippedBy templateImg found p.
Proof.
  unfold skippedBy. induction found as [|a l IH].
  - right. intros (q & [] & _).
  - destruct IH as [(q & Hq & H)|IH]; [left; exists q; simpl; auto|].
    destruct (Z.eq_dec (Y a) (Y p)) as [Hy|Hy];
      [destruct (Z_lt_dec (X a) (X p)) as [Hx|Hx];
       [destruct (Z_le_dec (X p) (X a + go_div (Dx (Bounds templateImg)) 2))
          as [Hs|Hs]|]|].
    + left. exists a. simpl. auto.
    + right. intros (q & [<-|Hq] & H); [lia|]. apply IH. eauto.
    + right. intros (q & [<-|Hq] & H); [lia|]. apply IH. eauto.
    + right. intros (q & [<-|Hq] & H); [lia|]. apply IH. eauto.
Qed.

Lemma rowMajorLt_trans (a b c : Point) :
  rowMajorLt a b → rowMajorLt b c → rowMajorLt a c.
Proof. unfold rowMajorLt. lia. Qed.

(** The first reported position comes before every position of the area at
which the template matches. *)
Lemma scanArea_head (area : Rectangle) (h : Point) (rest : list Point) (q : Point) :
  nonEmpty templateImg →
  screen.scanArea screenImg templateImg area tolerance = h :: rest →
  inArea area templateImg q →
  screen.match_ screenImg templateImg (X q) (Y q) tolerance = true →
  h = q ∨ rowMajorLt h q.
Proof.
  intros Hne Hfound Hq Hm.
  destruct (scanArea_spec screenImg templateImg tolerance area Hne)
    as [Hin Hsorted].
  cbv zeta in Hin, Hsorted. rewrite Hfound in Hin, Hsorted.
  apply StronglySorted_inv in Hsorted as [_ Hall].
  rewrite List.Forall_forall in Hall.
  assert (Hfirst : ∀ r, In r (h :: rest) → h = r ∨ rowMajorLt h r).
  { intros r [->|Hr]; [left; reflexivity|right; apply Hall; exact Hr]. }
  destruct (skippedBy_dec (h :: rest) q) as [Hs|Hs].
  - destruct Hs as (r & Hr & Hy & Hx). right.
    destruct (Hfirst r Hr) as [->|Hlt].
    + right. lia.
    + eapply rowMajorLt_trans; [exact Hlt|]. right. lia.
  - apply Hfirst. apply Hin. auto.
Qed.

End matcher_more.

Section matcher_more_witness.

Import matching wildcards.

Lemma FindAllTemplates_small_frame_witness :
  screen.FindAllTemplates blackPixel template2x1 constants.DefaultTolerance = []
  ∧ screen.FindTemplate blackPixel template2x1 constants.DefaultTolerance
    = (0, 0, false).
Proof.
  apply (FindAllTemplates_small_frame blackPixel template2x1
           constants.DefaultTolerance).
  left. vm_compute. reflexivity.
Defined.

Lemma FindAllTemplates_reports_visible_witness :
  let found :=
    screen.FindAllTemplates spotted (holed (255, 255, 255))
      constants.DefaultTolerance in
  (∀ p, In p found ↔
     inArea (Bounds spotted) (holed (255, 255, 255)) p
     ∧ visibleWithin spotted (holed (255, 255, 255)) constants.DefaultTolerance p
     ∧ ¬ skippedBy (holed (255, 255, 255)) found p)
  ∧ StronglySorted rowMajorLt found.
Proof.
  apply (FindAllTemplates_reports_visible spotted (holed (255, 255, 255))
           constants.DefaultTolerance).
  split; vm_compute; reflexivity.
Defined.

Lemma FindAllTemplates_spacing_witness :
  X (mkPoint 0 0) + go_div (Dx (Bounds template2x1)) 2 < X (mkPoint 2 0).
Proof.
  apply (FindAllTemplates_spacing (uniform 5 1 black) template2x1
           constants.DefaultTolerance (mkPoint 2 0) (mkPoint 0 0)).
  - split; vm_compute; reflexivity.
  - vm_compute. right. left. reflexivity.
  - vm_compute. left. reflexivity.
  - reflexivity.
  - vm_compute. reflexivity.
Defined.

End matcher_more_witness.

Section matcher_first.

Import matching wildcards.

Variables (screenImg templateImg : Image) (tolerance : spec_float).

(** X4.  The scan jump never hides the first match.  On a template with at
least one pixel, [FindTemplate] answers found exactly when the template
matches somewhere in the frame, and the position it returns is the first
such position in row-major order; when it answers not found, the position
is (0, 0) and the template matches nowhere. *)
Theorem FindTemplate_first_match :
  nonEmpty templateImg →
  match screen.FindTemplate screenImg templateImg tolerance with
  | (x, y, true) =>
      inArea (Bounds screenImg) templateImg (mkPoint x y)
      ∧ visibleWithin screenImg templateImg tolerance (mkPoint x y)
      ∧ ∀ q, inArea (Bounds screenImg) templateImg q →
             visibleWithin screenImg templateImg tolerance q →
             ¬ rowMajorLt q (mkPoint x y)
  | (x, y, false) =>
      x = 0 ∧ y = 0
      ∧ ∀ q, inArea (Bounds screenImg) templateImg q →
             ¬ visibleWithin screenImg templateImg tolerance q
  end.
Proof.
  intros Hne.
  destruct (scanArea_spec screenImg templateImg tolerance (Bounds screenImg) Hne)
    as [Hin _]. cbv zeta in Hin.
  unfold screen.FindTemplate, screen.FindAllTemplates.
  destruct (screen.scanArea screenImg templateImg (Bounds screenImg) tolerance)
    as [|h rest] eqn:Hfound.
  - split; [reflexivity|]. split; [reflexivity|]. intros q Hq Hv.
    destruct (skippedBy_dec templateImg [] q) as [(r & [] & _)|Hs].
    apply (Hin q). split; [exact Hq|]. split; [|exact Hs].
    apply match_visibleWithin. destruct q; exact Hv.
  - assert (Hh : In h (h :: rest)) by (left; reflexivity).
    apply Hin in Hh as (Ha & Hm & _).
    apply match_visibleWithin in Hm. destruct h as [hx hy]. simpl in *.
    split; [exact Ha|]. split; [exact Hm|]. intros q Hq Hv Hlt.
    destruct (scanArea_head screenImg templateImg tolerance (Bounds screenImg)
                (mkPoint hx hy) rest q Hne Hfound Hq) as [E|Hgt].
    + apply match_visibleWithin. destruct q; exact Hv.
    + subst q. unfold rowMajorLt in Hlt. simpl in Hlt. lia.
    + unfold rowMajorLt in *. simpl in *. lia.
Qed.

(** Identical colours are similar under every tolerance that is not below
zero. *)
Lemma colorSimilar_same (r g b : Z) :
  nonNegative tolerance → screen.colorSimilar r g b r g b tolerance = true.
Proof.
  intros Hn. unfold screen.colorSimilar, uint32.sub. rewrite !Z.sub_diag.
  exact Hn.
Qed.

(** X5.  A template cut out of the frame is found in it: if the template
has at least one pixel, fits into the frame at [p] and has there the
colours of the frame, then [FindTemplate] answers found, for every
tolerance that is not below zero, at [p] or at an earlier position in
row-major order. *)
Theorem FindTemplate_finds_copy (p : Point) :
  nonEmpty templateImg →
  nonNegative tolerance →
  inArea (Bounds screenImg) templateImg p →
  copiedFrom screenImg templateImg p →
  ∃ x y, screen.FindTemplate screenImg templateImg tolerance = (x, y, true)
         ∧ ¬ rowMajorLt p (mkPoint x y).
Proof.
  intros Hne Htol Hp Hcopy.
  assert (Hv : visibleWithin screenImg templateImg tolerance p).
  { intros tx ty Hx Hy _. specialize (Hcopy tx ty Hx Hy).
    unfold pixelWithin.
    destruct (screen.getRgbAndAlpha screenImg _ _) as [[[sr sg] sb] sa].
    destruct (screen.getRgbAndAlpha templateImg _ _) as [[[tr tg] tb] ta].
    simpl in Hcopy. injection Hcopy as -> -> ->.
    apply colorSimilar_same. exact Htol. }
  destruct (scanArea_spec screenImg templateImg tolerance (Bounds screenImg) Hne)
    as [Hin _]. cbv zeta in Hin.
  apply match_visibleWithin in Hv.
  unfold screen.FindTemplate, screen.FindAllTemplates.
  destruct (screen.scanArea screenImg templateImg (Bounds screenImg) tolerance)
    as [|h rest] eqn:Hfound.
  - exfalso. destruct (skippedBy_dec templateImg [] p) as [(r & [] & _)|Hs].
    apply (Hin p). split; [exact Hp|]. split; [|exact Hs].
    destruct p; exact Hv.
  - exists (X h), (Y h). split; [reflexivity|]. intros Hlt.
    destruct (scanArea_head screenImg templateImg tolerance (Bounds screenImg)
                h rest p Hne Hfound Hp) as [E|Hgt].
    + destruct p; exact Hv.
    + subst p. destruct h. unfold rowMajorLt in Hlt. simpl in Hlt. lia.
    + destruct h. unfold rowMajorLt in *. simpl in *. lia.
Qed.

End matcher_first.

Section matcher_first_witness.

Import matching wildcards.

Lemma FindTemplate_first_match_witness :
  match screen.FindTemplate spotted whitePixel constants.DefaultTolerance with
  | (x, y, true) =>
      inArea (Bounds spotted) whitePixel (mkPoint x y)
      ∧ visibleWithin spotted whitePixel constants.DefaultTolerance (mkPoint x y)
      ∧ ∀ q, inArea (Bounds spotted) whitePixel q →
             visibleWithin spotted whitePixel constants.DefaultTolerance q →
             ¬ rowMajorLt q (mkPoint x y)
  | (x, y, false) =>
      x = 0 ∧ y = 0
      ∧ ∀ q, inArea (Bounds spotted) whitePixel q →
             ¬ visibleWithin spotted whitePixel constants.DefaultTolerance q
  end.
Proof.
  apply (FindTemplate_first_match spotted whitePixel constants.DefaultTolerance).
  split; vm_compute; reflexivity.
Defined.

Lemma FindTemplate_finds_copy_witness :
  ∃ x y, screen.FindTemplate spotted whitePixel constants.DefaultTolerance
         = (x, y, true)
         ∧ ¬ rowMajorLt (mkPoint 2 1) (mkPoint x y).
Proof.
  apply (FindTemplate_finds_copy spotted whitePixel constants.DefaultTolerance
           (mkPoint 2 1)).
  - split; vm_compute; reflexivity.
  - vm_compute. reflexivity.
  - vm_compute. repeat split; discriminate.
  - intros tx ty Hx Hy. change (Dx (Bounds whitePixel)) with 1 in Hx.
    change (Dy (Bounds whitePixel)) with 1 in Hy.
    assert (tx = 0) as -> by lia. assert (ty = 0) as -> by lia.
    vm_compute. reflexivity.
Defined.

End matcher_first_witness.

Section colour_more.

Import matching wildcards.

Lemma square_sym (a b : Z) :
  uint32.mul (uint32.sub a b) (uint32.sub a b)
  = uint32.mul (uint32.sub b a) (uint32.sub b a).
Proof.
  unfold uint32.mul, uint32.sub, uint32.wrap, uint32.modulus.
  change (2 ^ 32) with 4294967296.
  rewrite <- !Z.mul_mod by lia. f_equal. ring.
Qed.

(** X6.  [colorSimilar] does not depend on which of the two colours is the
template's: it is symmetric, for all 32-bit values and every tolerance,
wrap-around included. *)
Theorem colorSimilar_symmetric (r1 g1 b1 r2 g2 b2 : Z) (tolerance : spec_float) :
  screen.colorSimilar r1 g1 b1 r2 g2 b2 tolerance
  = screen.colorSimilar r2 g2 b2 r1 g1 b1 tolerance.
Proof.
  unfold screen.colorSimilar. cbv zeta.
  rewrite (square_sym r1 r2), (square_sym g1 g2), (square_sym b1 b2).
  reflexivity.
Qed.

End colour_more.

Section tolerance_more.

Import matching wildcards.

Lemma round_notBelowZero (m e : Z) (l : location) :
  notBelowZero (binary_round_aux float64.prec float64.emax false m e l).
Proof.
  unfold binary_round_aux.
  destruct (shr_fexp _ _ _ _ _) as [mrs' e'].
  destruct (shr_fexp _ _ _ _ _) as [mrs'' e''].
  destruct (shr_m mrs'') as [|p|p]; simpl; try exact I.
  destruct (e'' <=? _); exact I.
Qed.

Lemma of_Z_notBelowZero (v : Z) : 0 ≤ v → notBelowZero (float64.of_Z v).
Proof.
  intros Hv. unfold float64.of_Z, binary_normalize.
  destruct v as [|p|p]; [exact I| |lia].
  unfold binary_round. destruct (shl_align _ _ _) as [mz ez].
  apply round_notBelowZero.
Qed.

Lemma Sqrt_notBelowZero (x : spec_float) :
  notBelowZero x → notBelowZero (float64.Sqrt x).
Proof.
  unfold float64.Sqrt, SFsqrt. destruct x as [[|]|[|]| |[|] m e]; simpl; try tauto.
  intros _. destruct (SFsqrt_core_binary _ _ _ _) as [[mz ez] lz].
  apply round_notBelowZero.
Qed.

(** X7.  A tolerance that is NaN or below zero makes no two colours
similar, not even identical ones: the distance is a square root, never
below zero. *)
Theorem colorSimilar_unusable (r1 g1 b1 r2 g2 b2 : Z) (tolerance : spec_float) :
  unusable tolerance →
  screen.colorSimilar r1 g1 b1 r2 g2 b2 tolerance = false.
Proof.
  intros Hu. unfold screen.colorSimilar. cbv zeta.
  set (sum := uint32.add _ _).
  assert (Hs : 0 ≤ sum).
  { unfold sum, uint32.add, uint32.wrap, uint32.modulus.
    apply Z.mod_pos_bound. reflexivity. }
  pose proof (Sqrt_notBelowZero _ (of_Z_notBelowZero sum Hs)) as Hd.
  destruct (float64.Sqrt (float64.of_Z sum)) as [[|]|[|]| |[|] m e];
    simpl in Hd; try tauto;
    destruct tolerance as [[|]|[|]| |[|] m' e']; simpl in Hu; try tauto;
    reflexivity.
Qed.

Lemma colorSimilar_unusable_witness :
  screen.colorSimilar 0 0 0 0 0 0 (float64.of_Z (-1)) = false.
Proof.
  apply (colorSimilar_unusable 0 0 0 0 0 0 (float64.of_Z (-1))).
  vm_compute. exact I.
Defined.

End tolerance_more.

Section roi_more.

Import matching wildcards.

Variables (screenImg templateImg : Image) (tolerance : spec_float).

Lemma Intersect_within (r s : Rectangle) :
  Empty (Intersect r s) = false →
  let i := Intersect r s in
  X (Min r) ≤ X (Min i) ∧ X (Min s) ≤ X (Min i)
  ∧ X (Max i) ≤ X (Max r) ∧ X (Max i) ≤ X (Max s)
  ∧ Y (Min r) ≤ Y (Min i) ∧ Y (Min s) ≤ Y (Min i)
  ∧ Y (Max i) ≤ Y (Max r) ∧ Y (Max i) ≤ Y (Max s).
Proof.
  unfold Intersect. cbv zeta.
  destruct (Empty (mkRect _ _)) eqn:E; [intros H; vm_compute in H; discriminate|].
  intros _. simpl.
  repeat match goal with |- context [?a <? ?b] => destruct (Z.ltb_spec a b) end;
    lia.
Qed.

(** X8.  A search in a region of interest reports only genuine matches
inside the region: for a region that is not empty and a template with at
least one pixel, the template placed at a reported position lies inside
the region and inside the frame, and every template pixel that is not
transparent is within tolerance of the frame there. *)
Theorem FindAllTemplatesInROI_inside (roi : Rectangle) (p : Point) :
  nonEmpty templateImg →
  Empty roi = false →
  In p (screen.FindAllTemplatesInROI screenImg templateImg roi tolerance) →
  inside roi templateImg p
  ∧ inside (Bounds screenImg) templateImg p
  ∧ visibleWithin screenImg templateImg tolerance p.
Proof.
  intros Hne Hroi. unfold screen.FindAllTemplatesInROI. rewrite Hroi. cbv zeta.
  destruct (Empty (Intersect roi (Bounds screenImg))) eqn:Hi; [intros []|].
  destruct (_ || _); [intros []|].
  intros Hp.
  destruct (scanArea_spec screenImg templateImg tolerance
              (Intersect roi (Bounds screenImg)) Hne) as [Hin _].
  cbv zeta in Hin. apply Hin in Hp as (Ha & Hm & _).
  pose proof (Intersect_within roi (Bounds screenImg) Hi) as Hb. cbv zeta in Hb.
  unfold inArea in Ha. unfold inside.
  split; [lia|]. split; [lia|].
  apply match_visibleWithin. destruct p; exact Hm.
Qed.

End roi_more.

Section roi_more_witness.

Import matching wildcards.

Lemma FindAllTemplatesInROI_inside_witness :
  let roi := mkRect (mkPoint 1 0) (mkPoint 3 2) in
  inside roi whitePixel (mkPoint 2 1)
  ∧ inside (Bounds spotted) whitePixel (mkPoint 2 1)
  ∧ visibleWithin spotted whitePixel constants.DefaultTolerance (mkPoint 2 1).
Proof.
  apply (FindAllTemplatesInROI_inside spotted whitePixel
           constants.DefaultTolerance (mkRect (mkPoint 1 0) (mkPoint 3 2))
           (mkPoint 2 1)).
  - split; vm_compute; reflexivity.
  - vm_compute. reflexivity.
  - vm_compute. left. reflexivity.
Defined.

End roi_more_witness.

Section vision_more.

Import matching wildcards.

Variables (screenImg templateImg : Image) (tolerance : spec_float).

Lemma vision_match_pixel_within (x y ty tx : Z) :
  vision.match_pixel screenImg templateImg x y tolerance ty tx
  = pixelWithin screenImg templateImg tolerance (x + tx) (y + ty)
      (X (Min (Bounds templateImg)) + tx) (Y (Min (Bounds templateImg)) + ty).
Proof.
  unfold vision.match_pixel, pixelWithin, vision.getRgb, screen.getRgbAndAlpha.
  cbv zeta.
  destruct (At templateImg _ _) as [[[tr tg] tb] ta].
  destruct (At screenImg _ _) as [[[sr sg] sb] sa].
  reflexivity.
Qed.

Lemma vision_match_placedWithin (x y : Z) :
  vision.match_ screenImg templateImg x y tolerance = true ↔
  placedWithin screenImg templateImg tolerance (mkPoint x y).
Proof.
  unfold vision.match_, placedWithin. cbv zeta. simpl.
  rewrite forallb_forall. split.
  - intros H tx ty Hx Hy. specialize (H ty).
    rewrite forallb_forall in H. rewrite <- vision_match_pixel_within.
    apply H; apply In_seqZ; lia.
  - intros H ty Hy. apply forallb_forall. intros tx Hx.
    apply In_seqZ in Hy, Hx. rewrite vision_match_pixel_within. apply H; lia.
Qed.

(** The old quick check on the first pixel is a comparison that the full
check repeats. *)
Lemma vision_candidate_placedWithin (x y : Z) :
  nonEmpty templateImg →
  vision.candidate screenImg templateImg tolerance x y = true ↔
  placedWithin screenImg templateImg tolerance (mkPoint x y).
Proof.
  intros [Hw Hh]. rewrite <- vision_match_placedWithin. unfold vision.candidate.
  cbv zeta.
  destruct (vision.match_ screenImg templateImg x y tolerance) eqn:Hm.
  - unfold vision.match_ in Hm. rewrite forallb_forall in Hm.
    assert (H0 : In 0 (seqZ 0 (Dy (Bounds templateImg)))) by (apply In_seqZ; lia).
    specialize (Hm 0 H0). rewrite forallb_forall in Hm.
    assert (H1 : In 0 (seqZ 0 (Dx (Bounds templateImg)))) by (apply In_seqZ; lia).
    specialize (Hm 0 H1).
    unfold vision.match_pixel in Hm. rewrite !Z.add_0_r in Hm.
    destruct (vision.getRgb templateImg _ _) as [[tr tg] tb].
    destruct (vision.getRgb screenImg _ _) as [[sr sg] sb].
    rewrite Hm. tauto.
  - destruct (vision.getRgb templateImg _ _) as [[tr tg] tb].
    destruct (vision.getRgb screenImg _ _) as [[sr sg] sb].
    rewrite andb_false_r. tauto.
Qed.

Lemma firstInRow_spec (c : Z → bool) (n : nat) (x0 : Z) :
  match vision.firstInRow c (seqZ x0 (Z.of_nat n)) with
  | Some x => x0 ≤ x < x0 + Z.of_nat n ∧ c x = true
              ∧ ∀ x', x0 ≤ x' < x → c x' = false
  | None => ∀ x', x0 ≤ x' < x0 + Z.of_nat n → c x' = false
  end.
Proof.
  revert x0. induction n as [|n IH]; intros x0.
  - simpl. intros x' Hx. lia.
  - rewrite seqZ_cons by lia. simpl vision.firstInRow.
    replace (Z.pred (Z.of_nat (S n))) with (Z.of_nat n) by lia.
    destruct (c x0) eqn:Hc.
    + split; [lia|]. split; [exact Hc|]. intros x' Hx. lia.
    + specialize (IH (Z.succ x0)).
      destruct (vision.firstInRow c (seqZ (Z.succ x0) (Z.of_nat n))) as [x|].
      * destruct IH as (Hr & Hx & Hbefore). split; [lia|]. split; [exact Hx|].
        intros x' Hx'. destruct (Z.eq_dec x' x0) as [->|Hd]; [exact Hc|].
        apply Hbefore. lia.
      * intros x' Hx'. destruct (Z.eq_dec x' x0) as [->|Hd]; [exact Hc|].
        apply IH. lia.
Qed.

Lemma firstInRows_spec (c : Z → Z → bool) (xs : list Z) (m : nat) (y0 : Z) :
  match vision.firstInRows c xs (seqZ y0 (Z.of_nat m)) with
  | Some (x, y) => y0 ≤ y < y0 + Z.of_nat m
                   ∧ vision.firstInRow (fun x => c x y) xs = Some x
                   ∧ ∀ y', y0 ≤ y' < y →
                       vision.firstInRow (fun x => c x y') xs = None
  | None => ∀ y', y0 ≤ y' < y0 + Z.of_nat m →
              vision.firstInRow (fun x => c x y') xs = None
  end.
Proof.
  revert y0. induction m as [|m IH]; intros y0.
  - simpl. intros y' Hy. lia.
  - rewrite seqZ_cons by lia. simpl vision.firstInRows.
    replace (Z.pred (Z.of_nat (S m))) with (Z.of_nat m) by lia.
    destruct (vision.firstInRow (fun x => c x y0) xs) as [x|] eqn:Hrow.
    + split; [lia|]. split; [exact Hrow|]. intros y' Hy. lia.
    + specialize (IH (Z.succ y0)).
      destruct (vision.firstInRows c xs (seqZ (Z.succ y0) (Z.of_nat m)))
        as [[x y]|].
      * destruct IH as (Hr & Hx & Hbefore). split; [lia|]. split; [exact Hx|].
        intros y' Hy'. destruct (Z.eq_dec y' y0) as [->|Hd]; [exact Hrow|].
        apply Hbefore. lia.
      * intros y' Hy'. destruct (Z.eq_dec y' y0) as [->|Hd]; [exact Hrow|].
        apply IH. lia.
Qed.

(** X9.  The old matcher of vision.go has no wildcards and no jump: on a
template with at least one pixel, [vision.FindTemplate] answers found
exactly when some position of the frame has every template pixel,
transparent or not, within tolerance, and it returns the first such
position in row-major order; otherwise it answers (0, 0, false). *)
Theorem vision_FindTemplate_first_match :
  nonEmpty templateImg →
  match vision.FindTemplate screenImg templateImg tolerance with
  | (x, y, true) =>
      inArea (Bounds screenImg) templateImg (mkPoint x y)
      ∧ placedWithin screenImg templateImg tolerance (mkPoint x y)
      ∧ ∀ q, inArea (Bounds screenImg) templateImg q →
             placedWithin screenImg templateImg tolerance q →
             ¬ rowMajorLt q (mkPoint x y)
  | (x, y, false) =>
      x = 0 ∧ y = 0
      ∧ ∀ q, inArea (Bounds screenImg) templateImg q →
             ¬ placedWithin screenImg templateImg tolerance q
  end.
Proof.
  intros Hne. unfold vision.FindTemplate. cbv zeta.
  destruct (_ || _) eqn:Hsmall.
  { split; [reflexivity|]. split; [reflexivity|]. intros q [Hx Hy] _.
    apply orb_true_iff in Hsmall. unfold Dx, Dy in *.
    destruct Hsmall as [H|H]; apply Z.ltb_lt in H; lia. }
  apply orb_false_iff in Hsmall as [Hw Hh].
  apply Z.ltb_ge in Hw, Hh. unfold Dx, Dy in Hw, Hh.
  set (c := vision.candidate screenImg templateImg tolerance).
  set (x0 := X (Min (Bounds screenImg))).
  set (y0 := Y (Min (Bounds screenImg))).
  set (nx := X (Max (Bounds screenImg)) - Dx (Bounds templateImg) - x0 + 1).
  set (ny := Y (Max (Bounds screenImg)) - Dy (Bounds templateImg) - y0 + 1).
  assert (Hnx : 0 ≤ nx) by (unfold nx, x0, Dx; lia).
  assert (Hny : 0 ≤ ny) by (unfold ny, y0, Dy; lia).
  pose proof (firstInRows_spec c (seqZ x0 nx) (Z.to_nat ny) y0) as Hrows.
  rewrite Z2Nat.id in Hrows by exact Hny.
  assert (Hrow : ∀ y,
    match vision.firstInRow (fun x => c x y) (seqZ x0 nx) with
    | Some x => x0 ≤ x < x0 + nx ∧ c x y = true
                ∧ ∀ x', x0 ≤ x' < x → c x' y = false
    | None => ∀ x', x0 ≤ x' < x0 + nx → c x' y = false
    end).
  { intros y. pose proof (firstInRow_spec (fun x => c x y) (Z.to_nat nx) x0) as H.
    rewrite Z2Nat.id in H by exact Hnx. exact H. }
  assert (Hc : ∀ q, c (X q) (Y q) = false →
                 ¬ placedWithin screenImg templateImg tolerance q).
  { intros [qx qy] Hf Hp. apply vision_candidate_placedWithin in Hp; [|exact Hne].
    simpl in Hf. unfold c in Hf. congruence. }
  destruct (vision.firstInRows c (seqZ x0 nx) (seqZ y0 ny)) as [[x y]|].
  - destruct Hrows as (Hy & Hx & Hbefore).
    pose proof (Hrow y) as Hr. rewrite Hx in Hr. destruct Hr as (Hxr & Hcx & Hleft).
    split; [unfold inArea; simpl; unfold nx, ny, x0, y0 in *; lia|].
    split; [apply vision_candidate_placedWithin; [exact Hne|exact Hcx]|].
    intros q [Hqx Hqy] Hq Hlt. unfold rowMajorLt in Hlt. simpl in Hlt.
    destruct Hlt as [Hlt|[Hey Hlt]].
    + specialize (Hbefore (Y q)). pose proof (Hrow (Y q)) as Hr.
      rewrite Hbefore in Hr by (unfold y0; lia).
      apply (Hc q); [|exact Hq]. apply Hr. unfold nx, x0. lia.
    + apply (Hc q); [|exact Hq]. rewrite Hey. apply Hleft. unfold x0. lia.
  - split; [reflexivity|]. split; [reflexivity|]. intros q [Hqx Hqy].
    apply Hc. specialize (Hrows (Y q)). pose proof (Hrow (Y q)) as Hr.
    rewrite Hrows in Hr by (unfold ny, y0; lia). apply Hr. unfold nx, x0. lia.
Qed.

End vision_more.

Section vision_more_witness.

Import matching wildcards.

Lemma vision_FindTemplate_first_match_witness :
  match vision.FindTemplate spotted whitePixel constants.DefaultTolerance with
  | (x, y, true) =>
      inArea (Bounds spotted) whitePixel (mkPoint x y)
      ∧ placedWithin spotted whitePixel constants.DefaultTolerance (mkPoint x y)
      ∧ ∀ q, inArea (Bounds spotted) whitePixel q →
             placedWithin spotted whitePixel constants.DefaultTolerance q →
             ¬ rowMajorLt q (mkPoint x y)
  | (x, y, false) =>
      x = 0 ∧ y = 0
      ∧ ∀ q, inArea (Bounds spotted) whitePixel q →
             ¬ placedWithin spotted whitePixel constants.DefaultTolerance q
  end.
Proof.
  apply (vision_FindTemplate_first_match spotted whitePixel
           constants.DefaultTolerance).
  split; vm_compute; reflexivity.
Defined.

End vision_more_witness.

(** ** The tracker over its life *)

Section lifecycle_invariant.

Import global tracking lifecycle.

Lemma inOrder_frame (t t' : EntityTracker) (k : string) (tr : TrackedEntity) :
  positionThresh t' = positionThresh t → maxClicks t' = maxClicks t →
  (is_Some (blacklist t !! k) → is_Some (blacklist t' !! k)) →
  inOrder t k tr → inOrder t' k tr.
Proof.
  intros Hp Hm Hb (Hk & Hc & Hbl). unfold inOrder, entityKey in *.
  rewrite Hp, Hm. auto.
Qed.

Lemma reconcile_consistent (order : RangeOrder) (now : Z) (i : nat)
    (st : UpdateState) (d : DetectedEntity) :
  consistent (tracker st) → consistent (tracker (reconcile order now i st d)).
Proof.
  intros (Hm & Hp & Ht & Hr & Hall). unfold reconcile.
  set (t := tracker st) in *. set (key := entityKey t d).
  destruct (entities t !! key) as [ex|] eqn:Hex; simpl.
  - do 4 (split; [assumption|]).
    intros k tr H. simpl in H.
    apply lookup_insert_Some in H as [[<- <-]|[_ H]].
    + destruct (Hall key ex Hex) as (_ & Hc & Hb).
      split; [reflexivity|]. split; [exact Hc|exact Hb].
    + apply (inOrder_frame t); auto.
  - destruct (negb (String.eqb _ "")); simpl.
    + set (mk := findMovedEntity t (order i (entities t)) d).
      destruct (entities t !! mk) as [old|] eqn:Hold; simpl;
        [|do 4 (split; [assumption|]); assumption].
      assert (Hne : key ≠ mk) by congruence.
      destruct (Hall mk old Hold) as (_ & Hc & Hb).
      destruct (blacklist t !! mk) as [stamp|] eqn:Hbl; simpl.
      * do 4 (split; [assumption|]). intros k tr H. simpl in H.
        apply lookup_delete_Some in H as [Hk H].
        apply lookup_insert_Some in H as [[<- <-]|[Hk' H]].
        -- split; [reflexivity|]. split; [exact Hc|]. intros _. simpl.
           rewrite lookup_delete_ne by congruence.
           rewrite lookup_insert_eq. eauto.
        -- destruct (Hall k tr H) as (Hk1 & Hc1 & Hb1).
           split; [exact Hk1|]. split; [exact Hc1|]. intros E. simpl.
           rewrite lookup_delete_ne by congruence.
           rewrite lookup_insert_ne by congruence. auto.
      * do 4 (split; [assumption|]). intros k tr H. simpl in H.
        apply lookup_delete_Some in H as [Hk H].
        apply lookup_insert_Some in H as [[<- <-]|[Hk' H]].
        -- split; [reflexivity|]. split; [exact Hc|]. intros E. simpl in E.
           apply Hb in E. destruct E as [s E]. congruence.
        -- apply (inOrder_frame t); auto.
    + do 4 (split; [assumption|]). intros k tr H. simpl in H.
      apply lookup_insert_Some in H as [[<- <-]|[_ H]].
      * split; [reflexivity|]. simpl. split; [lia|]. intros E. lia.
      * apply (inOrder_frame t); auto.
Qed.

Lemma expireOne_consistent (now : Z) (st : UpdateState)
    (entry : string * TrackedEntity) :
  consistent (tracker st) → consistent (tracker (expireOne now st entry)).
Proof.
  intros (Hm & Hp & Ht & Hr & Hall). unfold expireOne.
  destruct entry as [key tracked].
  destruct (_ && _); simpl; [|do 4 (split; [assumption|]); assumption].
  do 4 (split; [assumption|]). intros k tr H. simpl in H.
  apply lookup_delete_Some in H as [_ H].
  apply (inOrder_frame (tracker st)); auto.
Qed.

Lemma Update_consistent (order : RangeOrder) (now : Z) (t : EntityTracker)
    (detected : list DetectedEntity) :
  consistent t → consistent (Update order now t detected).1.
Proof.
  intros Hc. unfold Update. simpl.
  assert (H1 : ∀ ds i st, consistent (tracker st) →
                 consistent (tracker (reconcileAll order now i st ds))).
  { induction ds as [|d ds IH]; intros i st H; simpl; [exact H|].
    apply IH. apply reconcile_consistent. exact H. }
  assert (H2 : ∀ l st, consistent (tracker st) →
                 consistent (tracker (fold_left (expireOne now) l st))).
  { induction l as [|entry l IH]; intros st H; simpl; [exact H|].
    apply IH. apply expireOne_consistent. exact H. }
  apply H2, H1. exact Hc.
Qed.

Lemma RecordClick_consistent (tF tL tB : Z) (t : EntityTracker)
    (e : DetectedEntity) :
  consistent t → consistent (RecordClick tF tL tB t e).1.
Proof.
  intros (Hm & Hp & Ht & Hr & Hall). unfold RecordClick.
  set (key := entityKey t e).
  destruct (blacklist t !! key) eqn:Hbl; [do 4 (split; [assumption|]); assumption|].
  set (tracked := match entities t !! key with
                  | Some tr0 => tr0
                  | None => mkTracked e 0 tL tF
                  end).
  assert (Htr : entityKey t (Entity tracked) = key ∧ 0 ≤ ClickCount tracked < maxClicks t).
  { unfold tracked. destruct (entities t !! key) as [tr0|] eqn:Hex.
    - destruct (Hall key tr0 Hex) as (Hk & Hc & Hb). split; [exact Hk|].
      destruct (Z.eq_dec (ClickCount tr0) (maxClicks t)) as [E|E]; [|lia].
      apply Hb in E. destruct E as [s E]. congruence.
    - simpl. split; [reflexivity|lia]. }
  destruct Htr as [Hk Hc]. cbv zeta. cbn [ClickCount].
  destruct (maxClicks t <=? ClickCount tracked + 1) eqn:Hmax; simpl.
  - do 4 (split; [assumption|]). intros k tr H. simpl in H.
    apply lookup_insert_Some in H as [[<- <-]|[Hne H]].
    + apply Z.leb_le in Hmax.
      split; [exact Hk|]. simpl. split; [lia|]. intros _.
      rewrite lookup_insert_eq. eauto.
    + destruct (Hall k tr H) as (Hk1 & Hc1 & Hb1).
      split; [exact Hk1|]. split; [exact Hc1|]. intros E. simpl.
      rewrite lookup_insert_ne by congruence. auto.
  - do 4 (split; [assumption|]). intros k tr H. simpl in H.
    apply lookup_insert_Some in H as [[<- <-]|[Hne H]].
    + apply Z.leb_gt in Hmax.
      split; [exact Hk|]. simpl. split; [lia|]. intros E. lia.
    + apply (inOrder_frame t); auto.
Qed.

(** From a new tracker on, every call keeps the tracker consistent. *)
Lemma reachable_is_consistent (t : EntityTracker) :
  reachable t → consistent t.
Proof.
  intros Hr. induction Hr.
  - do 4 (split; [reflexivity|]).
    intros k tr H.
    change (entities NewEntityTracker) with (∅ : gmap string TrackedEntity) in H.
    rewrite lookup_empty in H. discriminate H.
  - apply Update_consistent. assumption.
  - apply RecordClick_consistent. assumption.
  - destruct IHHr as (Hm & Hp & Ht & Hro & _).
    do 4 (split; [assumption|]). intros k tr H. simpl in H.
    rewrite lookup_empty in H. discriminate H.
  - destruct IHHr as (Hm & Hp & Ht & Hro & Hall).
    do 4 (split; [assumption|]). intros k tr H. simpl in H.
    apply (inOrder_frame t); auto.
Qed.

Lemma consistent_clicks (t : EntityTracker) (e : DetectedEntity) :
  consistent t →
  0 ≤ GetClickCount t e ≤ 7
  ∧ (GetClickCount t e = 7 → IsBlacklisted t e = true).
Proof.
  intros (Hm & _ & _ & _ & Hall).
  unfold GetClickCount, IsBlacklisted.
  destruct (entities t !! entityKey t e) as [tr|] eqn:Hex.
  - destruct (Hall _ tr Hex) as (_ & Hc & Hb). rewrite Hm in Hc, Hb.
    split; [exact Hc|]. intros E. apply Hb in E. destruct E as [s ->].
    reflexivity.
  - split; [lia|]. intros E. lia.
Qed.

(** X10.  No entity is ever clicked more often than the threshold.  In every
tracker that [Update], [RecordClick], [Reset] and [SetLastHighPriority] can
build from a new one, the settings are still the defaults (7 clicks, 20 px,
2 s, 100 px), every entry is stored under the key of its own detection,
and for every detection the click count is between 0 and 7, and at 7 the
detection is blacklisted. *)
Theorem reachable_consistent (t : EntityTracker) :
  reachable t →
  consistent t
  ∧ ∀ e, 0 ≤ GetClickCount t e ≤ 7
         ∧ (GetClickCount t e = 7 → IsBlacklisted t e = true).
Proof.
  intros Hr. pose proof (reachable_is_consistent t Hr) as Hc.
  split; [exact Hc|]. intros e. apply consistent_clicks. exact Hc.
Qed.

Lemma reachable_consistent_witness :
  consistent clickedOnce
  ∧ ∀ e, 0 ≤ GetClickCount clickedOnce e ≤ 7
         ∧ (GetClickCount clickedOnce e = 7 → IsBlacklisted clickedOnce e = true).
Proof.
  apply (reachable_consistent clickedOnce).
  unfold clickedOnce. apply reach_click. apply reach_new.
Defined.

End lifecycle_invariant.

(** ** Keys *)

Section keys.

Import global tracking lifecycle.

Lemma Itoa_inj (a b : Z) : strconv.Itoa a = strconv.Itoa b → a = b.
Proof.
  unfold strconv.Itoa. intros H.
  assert (Hn : ∀ n, DecimalString.NilZero.int_of_string
                      (DecimalString.NilZero.string_of_int (Z.to_int n))
                    = Some (Z.to_int n)).
  { intros n. apply DecimalString.NilZero.isi; destruct n as [|p|p]; simpl;
      try discriminate; intros E; injection E as E;
      exact (DecimalPos.Unsigned.to_uint_nonnil p E). }
  apply DecimalZ.to_int_inj.
  pose proof (Hn a) as Ha. rewrite H, Hn in Ha. congruence.
Qed.

Lemma digits_no_underscore (d : Decimal.uint) :
  mentions "_"%char (DecimalString.NilEmpty.string_of_uint d) = false.
Proof. induction d; simpl; auto. Qed.

Lemma Itoa_no_underscore (n : Z) : mentions "_"%char (strconv.Itoa n) = false.
Proof.
  unfold strconv.Itoa, DecimalString.NilZero.string_of_int,
    DecimalString.NilZero.string_of_uint.
  destruct (Z.to_int n) as [d|d]; destruct d; simpl;
    try reflexivity; apply digits_no_underscore.
Qed.

(** Two strings cut at their first underscore. *)
Lemma cut_at_underscore (a a' r r' : string) :
  mentions "_"%char a = false → mentions "_"%char a' = false →
  a +:+ String "_"%char r = a' +:+ String "_"%char r' → a = a' ∧ r = r'.
Proof.
  revert a'. induction a as [|c a IH]; intros [|c' a'] Ha Ha' H; simpl in *.
  - injection H as ->. auto.
  - injection H as <- _. apply orb_false_iff in Ha' as [Ha' _].
    discriminate Ha'.
  - injection H as -> _. apply orb_false_iff in Ha as [Ha _].
    discriminate Ha.
  - injection H as -> H. apply orb_false_iff in Ha as [_ Ha].
    apply orb_false_iff in Ha' as [_ Ha'].
    destruct (IH a' Ha Ha' H) as [-> ->]. auto.
Qed.

(** X11.  Keys never collide: with a grid unit other than zero (a zero unit
makes the division panic), two detections get the same key from
[entityKey] exactly when they have the same priority and their positions
fall on the same grid coordinates, whatever the template, its size and the
exact pixel. *)
Theorem entityKey_same_iff (t : EntityTracker) (e1 e2 : DetectedEntity) :
  positionThresh t ≠ 0 →
  entityKey t e1 = entityKey t e2 ↔
  Priority e1 = Priority e2
  ∧ quantize t (X (Position e1)) = quantize t (X (Position e2))
  ∧ quantize t (Y (Position e1)) = quantize t (Y (Position e2)).
Proof.
  intros _. unfold entityKey, quantize. cbv zeta. split.
  - intros H.
    apply cut_at_underscore in H as [Hp H]; try apply Itoa_no_underscore.
    apply cut_at_underscore in H as [Hx Hy]; try apply Itoa_no_underscore.
    apply Itoa_inj in Hp, Hx, Hy. auto.
  - intros (-> & -> & ->). reflexivity.
Qed.

Lemma entityKey_same_iff_witness :
  entityKey NewEntityTracker (detection 20 100 500)
  = entityKey NewEntityTracker (detection 20 119 519) ↔
  Priority (detection 20 100 500) = Priority (detection 20 119 519)
  ∧ quantize NewEntityTracker (X (Position (detection 20 100 500)))
    = quantize NewEntityTracker (X (Position (detection 20 119 519)))
  ∧ quantize NewEntityTracker (Y (Position (detection 20 100 500)))
    = quantize NewEntityTracker (Y (Position (detection 20 119 519))).
Proof.
  apply (entityKey_same_iff NewEntityTracker (detection 20 100 500)
           (detection 20 119 519)).
  vm_compute. discriminate.
Defined.

End keys.

(** ** What [Update] leaves behind *)

Section update_more.

Import global tracking lifecycle.

Variables (order : RangeOrder) (now : Z) (t : EntityTracker)
  (detected : list DetectedEntity).

Lemma reconcile_fresh (i : nat) (st : UpdateState) (d : DetectedEntity) :
  In d detected →
  positionThresh (tracker st) = positionThresh t →
  (∀ k tr, entities (tracker st) !! k = Some tr →
     ((k ∈ seen st) ∧ LastSeen tr = now ∧ In (Entity tr) detected
      ∧ entityKey t (Entity tr) = k)
     ∨ ((k ∉ seen st) ∧ entities t !! k = Some tr)) →
  ∀ k tr, entities (tracker (reconcile order now i st d)) !! k = Some tr →
     ((k ∈ seen (reconcile order now i st d)) ∧ LastSeen tr = now
      ∧ In (Entity tr) detected ∧ entityKey t (Entity tr) = k)
     ∨ ((k ∉ seen (reconcile order now i st d)) ∧ entities t !! k = Some tr).
Proof.
  intros Hd Hp Hinv k tr.
  assert (Hkey : entityKey (tracker st) d = entityKey t d)
    by (apply entityKey_thresh; exact Hp).
  assert (Hother : ∀ key, key ≠ k → entities (tracker st) !! k = Some tr →
    ((k ∈ {[ key ]} ∪ seen st) ∧ LastSeen tr = now ∧ In (Entity tr) detected
     ∧ entityKey t (Entity tr) = k)
    ∨ ((k ∉ {[ key ]} ∪ seen st) ∧ entities t !! k = Some tr)).
  { intros key Hne H. rewrite elem_of_union, elem_of_singleton.
    destruct (Hinv k tr H) as [(H1 & H2)|(H1 & H2)]; [left|right];
      (split; [|assumption]); [auto|]. intros [E|E]; [congruence|auto]. }
  assert (Hnew : ∀ c f, ((entityKey (tracker st) d
       ∈ ({[ entityKey (tracker st) d ]} ∪ seen st : gset string))
     ∧ LastSeen (mkTracked d c now f) = now
     ∧ In (Entity (mkTracked d c now f)) detected
     ∧ entityKey t (Entity (mkTracked d c now f)) = entityKey (tracker st) d)).
  { intros c f. rewrite elem_of_union, elem_of_singleton. simpl. auto. }
  unfold reconcile.
  destruct (entities (tracker st) !! entityKey (tracker st) d) as [ex|] eqn:Hex;
    simpl.
  - intros H. apply lookup_insert_Some in H as [[<- <-]|[Hne H]].
    + left. apply Hnew.
    + apply Hother; assumption.
  - destruct (negb (String.eqb _ "")); simpl.
    + destruct (entities (tracker st) !! findMovedEntity _ _ _) as [old|] eqn:Ho;
        simpl.
      * destruct (blacklist (tracker st) !! _); simpl; intros H;
          apply lookup_delete_Some in H as [_ H];
          (apply lookup_insert_Some in H as [[<- <-]|[Hne H]];
           [left; apply Hnew|apply Hother; assumption]).
      * intros H. apply Hother; [|exact H]. congruence.
    + intros H. apply lookup_insert_Some in H as [[<- <-]|[Hne H]].
      * left. apply Hnew.
      * apply Hother; assumption.
Qed.

Lemma reconcileAll_fresh (ds : list DetectedEntity) (i : nat) (st : UpdateState) :
  (∀ d, In d ds → In d detected) →
  positionThresh (tracker st) = positionThresh t →
  (∀ k tr, entities (tracker st) !! k = Some tr →
     ((k ∈ seen st) ∧ LastSeen tr = now ∧ In (Entity tr) detected
      ∧ entityKey t (Entity tr) = k)
     ∨ ((k ∉ seen st) ∧ entities t !! k = Some tr)) →
  ∀ k tr, entities (tracker (reconcileAll order now i st ds)) !! k = Some tr →
     ((k ∈ seen (reconcileAll order now i st ds)) ∧ LastSeen tr = now
      ∧ In (Entity tr) detected ∧ entityKey t (Entity tr) = k)
     ∨ ((k ∉ seen (reconcileAll order now i st ds)) ∧ entities t !! k = Some tr).
Proof.
  revert i st. induction ds as [|d ds IH]; intros i st Hsub Hp Hinv; simpl;
    [exact Hinv|].
  apply IH.
  - intros d' H. apply Hsub. right. exact H.
  - destruct (reconcile_frame order now i st d) as (Hp' & _). cbv zeta in Hp'.
    congruence.
  - apply reconcile_fresh; [apply Hsub; left; reflexivity|exact Hp|exact Hinv].
Qed.

(** X12.  After an [Update] at the instant [now] the tracker holds nothing
stale.  Every entry it holds afterwards is either one of the detections
just passed, stored under its own key and seen at [now], or an entry that
was there before, untouched, whose key is not the key of any detection and
whose last-seen instant is at most the TTL back. *)
Theorem Update_fresh (k : string) (tr : TrackedEntity) :
  valid_order order →
  entities (Update order now t detected).1 !! k = Some tr →
  ((k ∈ detectedKeys t detected) ∧ LastSeen tr = now ∧ In (Entity tr) detected
   ∧ entityKey t (Entity tr) = k)
  ∨ ((k ∉ detectedKeys t detected) ∧ entities t !! k = Some tr
     ∧ now - LastSeen tr ≤ ttl t).
Proof.
  intros Hval. unfold Update. simpl.
  set (st0 := mkUpdate t ∅ []) in *.
  set (st1 := reconcileAll order now 0 st0 detected) in *.
  set (l := order (length detected) (entities (tracker st1))) in *.
  destruct (reconcileAll_frame order now detected 0 st0) as (_ & Httl & Hseen & _).
  fold st1 in Httl, Hseen. simpl in Httl, Hseen.
  assert (Hmem : k ∈ seen st1 ↔ k ∈ detectedKeys t detected).
  { rewrite Hseen. rewrite elem_of_union, elem_of_list_to_set, elem_of_empty.
    tauto. }
  rewrite expire_lookup.
  destruct (expires now st1 k l) eqn:Hexp; [discriminate|]. intros Hcur.
  assert (Hinv : ((k ∈ seen st1) ∧ LastSeen tr = now ∧ In (Entity tr) detected
                  ∧ entityKey t (Entity tr) = k)
                 ∨ ((k ∉ seen st1) ∧ entities t !! k = Some tr)).
  { apply (reconcileAll_fresh detected 0 st0); auto.
    intros k' tr' H. right. split; [|exact H]. simpl.
    apply not_elem_of_empty. }
  destruct Hinv as [(H1 & H2)|(H1 & H2)].
  - left. split; [apply Hmem; exact H1|exact H2].
  - right. split; [rewrite <- Hmem; exact H1|]. split; [exact H2|].
    unfold l in Hexp.
    rewrite (expires_tracked order now st1 k tr _ Hval Hcur) in Hexp.
    rewrite bool_decide_eq_false_2 in Hexp by exact H1. simpl in Hexp.
    apply Z.ltb_ge in Hexp. rewrite <- Httl. exact Hexp.
Qed.

End update_more.

Section update_more_witness.

Import global tracking lifecycle.

Lemma Update_fresh_witness :
  let d := detection 30 400 400 in
  let tr := mkTracked d 0 5000000000 5000000000 in
  (("30_400_400" ∈ detectedKeys oneEntity [d])
   ∧ LastSeen tr = 5000000000 ∧ In (Entity tr) [d]
   ∧ entityKey oneEntity (Entity tr) = "30_400_400")
  ∨ (("30_400_400" ∉ detectedKeys oneEntity [d])
     ∧ entities oneEntity !! "30_400_400" = Some tr
     ∧ 5000000000 - LastSeen tr ≤ ttl oneEntity).
Proof.
  apply (Update_fresh canonicalOrder 5000000000 oneEntity
           [detection 30 400 400] "30_400_400"
           (mkTracked (detection 30 400 400) 0 5000000000 5000000000)).
  - intros i m. reflexivity.
  - vm_compute. reflexivity.
Defined.

End update_more_witness.

(** ** [Update] and the blacklist *)

Section update_blacklist.

Import global tracking lifecycle.

Variables (order : RangeOrder) (now : Z).

Lemma reconcile_blacklist (i : nat) (st : UpdateState) (d : DetectedEntity) :
  let st' := reconcile order now i st d in
  (size (blacklist (tracker st')) ≤ size (blacklist (tracker st)))%nat
  ∧ (EvTransferred ∉ events st' →
     blacklist (tracker st') = blacklist (tracker st))
  ∧ ∀ k, is_Some (blacklist (tracker st') !! k) →
         is_Some (blacklist (tracker st) !! k) ∨ k = entityKey (tracker st) d.
Proof.
  unfold reconcile.
  destruct (entities (tracker st) !! entityKey (tracker st) d) as [ex|] eqn:Hex;
    simpl; [auto|].
  destruct (negb (String.eqb _ "")); simpl; [|auto].
  set (mk := findMovedEntity _ _ _).
  destruct (entities (tracker st) !! mk) as [old|] eqn:Ho; simpl; [|auto].
  assert (Hne : entityKey (tracker st) d ≠ mk) by congruence.
  destruct (blacklist (tracker st) !! mk) as [stamp|] eqn:Hbl; simpl; [|auto].
  split; [|split].
  - rewrite map_size_delete_Some
      by (rewrite lookup_insert_ne by exact Hne; rewrite Hbl; eauto).
    rewrite map_size_insert.
    destruct (blacklist (tracker st) !! entityKey (tracker st) d); simpl; lia.
  - intros H. exfalso. apply H. rewrite !elem_of_app.
    right. right. apply list_elem_of_singleton. reflexivity.
  - intros k H. apply lookup_delete_is_Some in H as [_ H].
    apply lookup_insert_is_Some in H as [H|[_ H]]; auto.
Qed.

Lemma reconcileAll_blacklist (ds : list DetectedEntity) (i : nat)
    (st : UpdateState) :
  let st' := reconcileAll order now i st ds in
  (size (blacklist (tracker st')) ≤ size (blacklist (tracker st)))%nat
  ∧ (EvTransferred ∉ events st' →
     blacklist (tracker st') = blacklist (tracker st))
  ∧ ∀ k, is_Some (blacklist (tracker st') !! k) →
         is_Some (blacklist (tracker st) !! k)
         ∨ k ∈ detectedKeys (tracker st) ds.
Proof.
  revert i st. induction ds as [|d ds IH]; intros i st; simpl.
  - split; [lia|]. split; [reflexivity|]. auto.
  - destruct (IH (S i) (reconcile order now i st d)) as (Hs & He & Hk).
    destruct (reconcile_blacklist i st d) as (Hs1 & He1 & Hk1).
    destruct (reconcile_frame order now i st d) as (Hp & _).
    destruct (reconcileAll_frame order now ds (S i) (reconcile order now i st d))
      as (_ & _ & _ & ev & Hev).
    cbv zeta in *. split; [lia|]. split.
    + intros H. rewrite He by exact H. apply He1. intros Hin. apply H.
      rewrite Hev. apply elem_of_app. left. exact Hin.
    + intros k H. apply Hk in H as [H|H].
      * apply Hk1 in H as [H| ->]; [left; exact H|right].
        unfold detectedKeys. simpl. apply elem_of_cons. left. reflexivity.
      * right. unfold detectedKeys in *. simpl. apply elem_of_cons. right.
        apply list_elem_of_fmap in H as (d' & -> & Hd').
        apply list_elem_of_fmap. exists d'. split; [|exact Hd'].
        apply entityKey_thresh. exact Hp.
Qed.

(** X13.  [Update] never blacklists anything of its own.  Whatever is
detected, in whatever order the map is visited, the blacklist is no longer
after the call than before ([Stats] reports no higher count), a key on it
afterwards was on it before or is the key of a detection, and unless the
call reports a transfer the blacklist is the same. *)
Theorem Update_blacklist (t : EntityTracker) (detected : list DetectedEntity) :
  let t' := (Update order now t detected).1 in
  (Stats t').2 ≤ (Stats t).2
  ∧ (∀ k, is_Some (blacklist t' !! k) →
          is_Some (blacklist t !! k) ∨ k ∈ detectedKeys t detected)
  ∧ (EvTransferred ∉ (Update order now t detected).2 →
     blacklist t' = blacklist t).
Proof.
  unfold Update, Stats. simpl.
  set (st0 := mkUpdate t ∅ []).
  set (st1 := reconcileAll order now 0 st0 detected).
  set (l := order (length detected) (entities (tracker st1))).
  destruct (expire_frame now l st1) as (_ & _ & Hb & ev & Hev & _).
  destruct (reconcileAll_blacklist detected 0 st0) as (Hs & He & Hk).
  cbv zeta in *. fold st1 in Hs, He, Hk. rewrite Hb.
  split; [simpl in Hs; lia|]. split; [exact Hk|].
  intros H. apply He. intros Hin. apply H. rewrite Hev.
  apply elem_of_app. left. exact Hin.
Qed.

End update_blacklist.

(** ** Clicks, the blacklist and the filter *)

Section clicks_more.

Import global tracking lifecycle.

(** X14.  [RecordClick] touches one key only, and its answer is the
blacklist status that it leaves.  The click count of the clicked detection
goes up by one, unless the detection was blacklisted, and then nothing
changes; the count and the blacklist status of every detection with
another key stay as they were; and the boolean returned is what
[IsBlacklisted] answers for the clicked detection after the call. *)
Theorem RecordClick_one_key (tFirst tLast tBlack : Z) (t : EntityTracker)
    (e e' : DetectedEntity) :
  let t1 := (RecordClick tFirst tLast tBlack t e).1 in
  GetClickCount t1 e
  = (if IsBlacklisted t e then GetClickCount t e else GetClickCount t e + 1)
  ∧ (RecordClick tFirst tLast tBlack t e).2 = IsBlacklisted t1 e
  ∧ (IsBlacklisted t e = true → t1 = t)
  ∧ (entityKey t e' ≠ entityKey t e →
     GetClickCount t1 e' = GetClickCount t e'
     ∧ IsBlacklisted t1 e' = IsBlacklisted t e').
Proof.
  intros t1.
  assert (Hkey : ∀ x, entityKey t1 x = entityKey t x).
  { intros x. apply entityKey_thresh.
    apply (RecordClick_params tFirst tLast tBlack t e). }
  unfold GetClickCount, IsBlacklisted. rewrite !Hkey. clear Hkey.
  unfold t1, RecordClick. cbv zeta.
  destruct (blacklist t !! entityKey t e) as [s|] eqn:Hbl; simpl.
  - rewrite Hbl. auto.
  - match goal with |- context [if ?c then _ else _] => destruct c eqn:Hmax end;
      simpl.
    + rewrite !lookup_insert_eq. simpl.
      split; [destruct (entities t !! entityKey t e); reflexivity|].
      split; [reflexivity|]. split; [discriminate|]. intros Hne.
      rewrite !lookup_insert_ne by congruence. auto.
    + rewrite !lookup_insert_eq, Hbl. simpl.
      split; [destruct (entities t !! entityKey t e); reflexivity|].
      split; [reflexivity|]. split; [discriminate|]. intros Hne.
      rewrite !lookup_insert_ne by congruence. auto.
Qed.

Lemma RecordClick_answer (tFirst tLast tBlack : Z) (t : EntityTracker)
    (e : DetectedEntity) :
  (RecordClick tFirst tLast tBlack t e).2
  = IsBlacklisted (RecordClick tFirst tLast tBlack t e).1 e.
Proof.
  unfold IsBlacklisted.
  rewrite (entityKey_thresh _ t)
    by apply (RecordClick_params tFirst tLast tBlack t e).
  unfold RecordClick. cbv zeta.
  destruct (blacklist t !! entityKey t e) as [s|] eqn:Hbl; simpl.
  - rewrite Hbl. reflexivity.
  - match goal with |- context [if ?c then _ else _] => destruct c end; simpl.
    + rewrite lookup_insert_eq. reflexivity.
    + rewrite Hbl. reflexivity.
Qed.

(** X15.  [FilterBlacklisted] keeps, in their order, exactly the detections
for which [IsBlacklisted] answers false; in particular a detection for
which [RecordClick] has just answered true is not kept. *)
Theorem FilterBlacklisted_keeps (t : EntityTracker) (es : list DetectedEntity) :
  sublist (FilterBlacklisted t es) es
  ∧ (∀ e, In e (FilterBlacklisted t es) ↔ In e es ∧ IsBlacklisted t e = false)
  ∧ ∀ tFirst tLast tBlack e,
      (RecordClick tFirst tLast tBlack t e).2 = true →
      ¬ In e (FilterBlacklisted (RecordClick tFirst tLast tBlack t e).1 es).
Proof.
  assert (Hin : ∀ t0 e, In e (FilterBlacklisted t0 es)
                        ↔ In e es ∧ IsBlacklisted t0 e = false).
  { intros t0 e. unfold FilterBlacklisted, IsBlacklisted.
    rewrite <- !list_elem_of_In, list_elem_of_filter.
    destruct (blacklist t0 !! entityKey t0 e); split; intros [H1 H2];
      split; try assumption; congruence. }
  split; [apply sublist_filter|]. split; [apply Hin|].
  intros tF tL tB e Hr H. apply Hin in H as [_ H].
  rewrite RecordClick_answer in Hr. congruence.
Qed.

(** X16.  [Reset] starts a new cycle: afterwards nothing is tracked and
nothing is blacklisted, there is no region of interest, every click count
is 0, [FilterBlacklisted] keeps every detection, and the settings are those
of before. *)
Theorem Reset_clears (t : EntityTracker) (es : list DetectedEntity) :
  Stats (Reset t) = (0, 0)
  ∧ HasROI (Reset t) = false
  ∧ Empty (GetROI (Reset t)) = true
  ∧ (∀ e, GetClickCount (Reset t) e = 0 ∧ IsBlacklisted (Reset t) e = false)
  ∧ FilterBlacklisted (Reset t) es = es
  ∧ (maxClicks (Reset t), positionThresh (Reset t), ttl (Reset t),
     roiMargin (Reset t))
    = (maxClicks t, positionThresh t, ttl t, roiMargin t).
Proof.
  split; [reflexivity|]. split; [reflexivity|]. split; [reflexivity|].
  split; [|split; [|reflexivity]].
  - intros e. unfold GetClickCount, IsBlacklisted. simpl.
    rewrite !lookup_empty. auto.
  - unfold FilterBlacklisted. simpl. induction es as [|e es IH]; [reflexivity|].
    rewrite filter_cons_True by apply lookup_empty. rewrite IH. reflexivity.
Qed.

End clicks_more.

(** ** The region of interest around the last clicked entity *)

Section roi_entity.

Import global tracking lifecycle matching wildcards.

Variables (screenImg templateImg : Image) (tolerance : spec_float).

(** X17.  The fast path finds an entity that has stayed where it was
clicked.  Let [e] be a detection of the template (its size is the
template's), recorded with [SetLastHighPriority], and let the template
still match at its position in the next frame.  Then there is a region of
interest, it is not empty, the search in it reports at least one position,
and every position it reports is within the margin of the position of [e]
in both axes. *)
Theorem ROI_finds_entity (t : EntityTracker) (e : DetectedEntity) :
  nonEmpty templateImg →
  0 ≤ roiMargin t →
  TemplateSize e = mkPoint (Dx (Bounds templateImg)) (Dy (Bounds templateImg)) →
  inArea (Bounds screenImg) templateImg (Position e) →
  visibleWithin screenImg templateImg tolerance (Position e) →
  let t1 := SetLastHighPriority t e in
  let found :=
    screen.FindAllTemplatesInROI screenImg templateImg (GetROI t1) tolerance in
  HasROI t1 = true
  ∧ Empty (GetROI t1) = false
  ∧ found ≠ []
  ∧ ∀ p, In p found →
      X (Position e) - roiMargin t ≤ X p ≤ X (Position e) + roiMargin t
      ∧ Y (Position e) - roiMargin t ≤ Y p ≤ Y (Position e) + roiMargin t.
Proof.
  intros Hne Hm Hsize Hpos Hv t1 found.
  pose proof Hne as [Hw Hh]. destruct Hpos as [Hx Hy].
  set (roi := GetROI t1).
  assert (Hroi : roi = mkRect
            (mkPoint (X (Position e) - roiMargin t) (Y (Position e) - roiMargin t))
            (mkPoint (X (Position e) + Dx (Bounds templateImg) + roiMargin t)
                     (Y (Position e) + Dy (Bounds templateImg) + roiMargin t))).
  { unfold roi, t1, GetROI, SetLastHighPriority. simpl. rewrite Hsize.
    reflexivity. }
  assert (Hempty : Empty roi = false).
  { rewrite Hroi. unfold Empty. simpl. apply orb_false_iff.
    split; apply Z.leb_gt; lia. }
  set (area := Intersect roi (Bounds screenImg)).
  assert (Harea : X (Min area) ≤ X (Position e)
                  ∧ X (Position e) + Dx (Bounds templateImg) ≤ X (Max area)
                  ∧ Y (Min area) ≤ Y (Position e)
                  ∧ Y (Position e) + Dy (Bounds templateImg) ≤ Y (Max area)
                  ∧ X (Min roi) ≤ X (Min area) ∧ X (Max area) ≤ X (Max roi)
                  ∧ Y (Min roi) ≤ Y (Min area) ∧ Y (Max area) ≤ Y (Max roi)).
  { unfold area, Intersect. cbv zeta. rewrite Hroi. simpl.
    unfold Empty. simpl.
    repeat match goal with |- context [?a <? ?b] => destruct (Z.ltb_spec a b) end;
      repeat match goal with |- context [?a <=? ?b] =>
               destruct (Z.leb_spec a b) end;
      simpl; lia. }
  assert (Hscan : found = screen.scanArea screenImg templateImg area tolerance).
  { unfold found, screen.FindAllTemplatesInROI. fold roi. rewrite Hempty.
    cbv zeta. fold area.
    replace (Empty area) with false
      by (symmetry; unfold Empty; apply orb_false_iff;
          split; apply Z.leb_gt; lia).
    replace (_ || _) with false; [reflexivity|].
    symmetry. apply orb_false_iff. unfold Dx, Dy in *.
    split; apply Z.ltb_ge; lia. }
  destruct (scanArea_spec screenImg templateImg tolerance area Hne) as [Hin _].
  cbv zeta in Hin. rewrite <- Hscan in Hin.
  split; [reflexivity|]. split; [exact Hempty|]. split.
  - intros Hnil.
    destruct (skippedBy_dec templateImg found (Position e))
      as [(r & Hr & _)|Hs]; [rewrite Hnil in Hr; destruct Hr|].
    assert (H : In (Position e) found).
    { apply Hin. split; [unfold inArea; lia|]. split; [|exact Hs].
      apply match_visibleWithin. destruct (Position e); exact Hv. }
    rewrite Hnil in H. destruct H.
  - intros p Hp. apply Hin in Hp as ([Hpx Hpy] & _).
    rewrite Hroi in Harea. simpl in Harea. lia.
Qed.

End roi_entity.

Section roi_entity_witness.

Import global tracking lifecycle matching wildcards.

Lemma ROI_finds_entity_witness :
  let e := mkDetected "20.png" 20 (mkPoint 2 1) (mkPoint 1 1) in
  let t1 := SetLastHighPriority NewEntityTracker e in
  let found :=
    screen.FindAllTemplatesInROI spotted whitePixel (GetROI t1)
      constants.DefaultTolerance in
  HasROI t1 = true
  ∧ Empty (GetROI t1) = false
  ∧ found ≠ []
  ∧ ∀ p, In p found →
      X (Position e) - roiMargin NewEntityTracker ≤ X p
        ≤ X (Position e) + roiMargin NewEntityTracker
      ∧ Y (Position e) - roiMargin NewEntityTracker ≤ Y p
        ≤ Y (Position e) + roiMargin NewEntityTracker.
Proof.
  apply (ROI_finds_entity spotted whitePixel constants.DefaultTolerance
           NewEntityTracker (mkDetected "20.png" 20 (mkPoint 2 1) (mkPoint 1 1))).
  - split; vm_compute; reflexivity.
  - vm_compute. discriminate.
  - reflexivity.
  - vm_compute. repeat split; discriminate.
  - intros tx ty Hx Hy _. change (Dx (Bounds whitePixel)) with 1 in Hx.
    change (Dy (Bounds whitePixel)) with 1 in Hy.
    assert (tx = 0) as -> by lia. assert (ty = 0) as -> by lia.
    vm_compute. reflexivity.
Defined.

End roi_entity_witness.

(** ** The old key of a moved entity *)

Section update_moved.

Import global tracking lifecycle.

Variables (order : RangeOrder) (now : Z).

(** Once the first loop of [Update] has reported a move away from a key,
whatever it holds under that key has been written by this call. *)
Lemma reconcile_moved_key (i : nat) (st : UpdateState) (d : DetectedEntity) :
  (∀ k nk cur, EvMoved k nk ∈ events st →
     entities (tracker st) !! k = Some cur →
     LastSeen cur = now ∧ (k ∈ seen st)) →
  ∀ k nk cur, EvMoved k nk ∈ events (reconcile order now i st d) →
     entities (tracker (reconcile order now i st d)) !! k = Some cur →
     LastSeen cur = now ∧ (k ∈ seen (reconcile order now i st d)).
Proof.
  intros Hinv k nk cur.
  assert (Hother : ∀ key, EvMoved k nk ∈ events st →
    entities (tracker st) !! k = Some cur →
    LastSeen cur = now ∧ (k ∈ ({[ key ]} ∪ seen st : gset string))).
  { intros key H1 H2. destruct (Hinv k nk cur H1 H2). split; [assumption|].
    apply elem_of_union. right. assumption. }
  assert (Hnew : ∀ c f, LastSeen (mkTracked d c now f) = now
    ∧ (entityKey (tracker st) d
       ∈ ({[ entityKey (tracker st) d ]} ∪ seen st : gset string))).
  { intros c f. split; [reflexivity|]. apply elem_of_union. left.
    apply elem_of_singleton. reflexivity. }
  unfold reconcile.
  destruct (entities (tracker st) !! entityKey (tracker st) d) as [ex|] eqn:Hex;
    simpl.
  - intros He H. apply lookup_insert_Some in H as [[<- <-]|[Hne H]];
      [apply Hnew|].
    apply Hother; [|exact H]. apply elem_of_app in He as [He|He]; [exact He|].
    apply list_elem_of_singleton in He. discriminate.
  - destruct (negb (String.eqb _ "")); simpl.
    + destruct (entities (tracker st) !! findMovedEntity _ _ _) as [old|] eqn:Ho;
        simpl.
      * destruct (blacklist (tracker st) !! _); simpl; intros He H;
          apply lookup_delete_Some in H as [Hnm H];
          (apply lookup_insert_Some in H as [[<- <-]|[Hne H]]; [apply Hnew|]);
          (apply Hother; [|exact H]);
          (apply elem_of_app in He as [He|He]; [exact He|]);
          exfalso; apply list_elem_of_In in He; simpl in He;
          intuition congruence.
      * intros He H. apply Hother; assumption.
    + intros He H. apply lookup_insert_Some in H as [[<- <-]|[Hne H]];
        [apply Hnew|].
      apply Hother; [|exact H]. apply elem_of_app in He as [He|He]; [exact He|].
      apply list_elem_of_singleton in He. discriminate.
Qed.

Lemma reconcileAll_moved_key (ds : list DetectedEntity) (i : nat)
    (st : UpdateState) :
  (∀ k nk cur, EvMoved k nk ∈ events st →
     entities (tracker st) !! k = Some cur →
     LastSeen cur = now ∧ (k ∈ seen st)) →
  ∀ k nk cur, EvMoved k nk ∈ events (reconcileAll order now i st ds) →
     entities (tracker (reconcileAll order now i st ds)) !! k = Some cur →
     LastSeen cur = now ∧ (k ∈ seen (reconcileAll order now i st ds)).
Proof.
  revert i st. induction ds as [|d ds IH]; intros i st Hinv; simpl;
    [exact Hinv|].
  apply IH. apply reconcile_moved_key. exact Hinv.
Qed.

(** X30.  The record of a moved entity does not outlive the call: when an
[Update] reports a move away from a key, then after the call that key is
tracked only if it is the key of one of the detections passed, and then
with a record that this call has written (last seen at [now]); a key that
no detection has is not tracked any more, whatever the age of its
entity. *)
Theorem Update_moved_key_rewritten (t : EntityTracker)
    (detected : list DetectedEntity) (k nk : string) :
  EvMoved k nk ∈ (Update order now t detected).2 →
  let t' := (Update order now t detected).1 in
  (k ∉ detectedKeys t detected → entities t' !! k = None)
  ∧ (∀ cur, entities t' !! k = Some cur →
       LastSeen cur = now ∧ (k ∈ detectedKeys t detected)).
Proof.
  unfold Update. simpl.
  set (st0 := mkUpdate t ∅ []).
  set (st1 := reconcileAll order now 0 st0 detected).
  set (l := order (length detected) (entities (tracker st1))).
  intros Hev.
  destruct (expire_frame now l st1) as (_ & _ & _ & ev & Hevs & Hnone).
  destruct (reconcileAll_frame order now detected 0 st0) as (_ & _ & Hseen & _).
  fold st1 in Hseen. simpl in Hseen.
  assert (Hmem : k ∈ seen st1 ↔ k ∈ detectedKeys t detected).
  { rewrite Hseen. rewrite elem_of_union, elem_of_list_to_set, elem_of_empty.
    tauto. }
  assert (Hev1 : EvMoved k nk ∈ events st1).
  { rewrite Hevs in Hev. apply elem_of_app in Hev as [Hev|Hev]; [exact Hev|].
    destruct (Hnone k nk Hev). }
  assert (Hcur : ∀ cur,
    entities (tracker (fold_left (expireOne now) l st1)) !! k = Some cur →
    LastSeen cur = now ∧ (k ∈ detectedKeys t detected)).
  { intros cur. rewrite expire_lookup.
    destruct (expires now st1 k l); [discriminate|]. intros H.
    destruct (reconcileAll_moved_key detected 0 st0) with (k := k) (nk := nk)
      (cur := cur) as [H1 H2]; try assumption.
    - intros k' nk' cur' H'. simpl in H'. inversion H'.
    - split; [exact H1|apply Hmem; exact H2]. }
  split; [|exact Hcur]. intros Hd.
  destruct (entities (tracker (fold_left (expireOne now) l st1)) !! k)
    as [cur|] eqn:Hk; [|reflexivity].
  destruct (Hcur cur eq_refl) as [_ H]. destruct (Hd H).
Qed.

End update_moved.

Section update_moved_witness.

Import global tracking lifecycle.

Lemma Update_moved_key_rewritten_witness :
  let ds := [detection 20 105 350; detection 20 100 500] in
  let t' := (Update canonicalOrder 1500 oneEntity ds).1 in
  EvMoved "20_100_500" "20_100_340" ∈ (Update canonicalOrder 1500 oneEntity ds).2
  ∧ ("20_100_500" ∉ detectedKeys oneEntity ds →
     entities t' !! "20_100_500" = None)
  ∧ (∀ cur, entities t' !! "20_100_500" = Some cur →
       LastSeen cur = 1500 ∧ ("20_100_500" ∈ detectedKeys oneEntity ds)).
Proof.
  assert (H : EvMoved "20_100_500" "20_100_340"
              ∈ (Update canonicalOrder 1500 oneEntity
                   [detection 20 105 350; detection 20 100 500]).2).
  { apply list_elem_of_In. vm_compute. left. reflexivity. }
  split; [exact H|].
  exact (Update_moved_key_rewritten canonicalOrder 1500 oneEntity
           [detection 20 105 350; detection 20 100 500]
           "20_100_500" "20_100_340" H).
Defined.

End update_moved_witness.

(** ** Priorities *)

Section priorities.

Import global tracking entity.

Lemma leadingDigits_digits (d : Decimal.uint) (rest : string) :
  leadingDigits (DecimalString.NilEmpty.string_of_uint d +:+ rest)
  = DecimalString.NilEmpty.string_of_uint d +:+ leadingDigits rest.
Proof. induction d; simpl; try rewrite IHd; reflexivity. Qed.

Lemma leadingDigits_stop (rest : string) :
  startsWithDigit rest = false → leadingDigits rest = "".
Proof. destruct rest as [|c r]; simpl; [reflexivity|]. intros ->. reflexivity. Qed.

Lemma allDigits_digits (d : Decimal.uint) :
  allDigits (DecimalString.NilEmpty.string_of_uint d) = true.
Proof. induction d; simpl; auto. Qed.

Lemma decimal_acc (d : Decimal.uint) (acc : positive) :
  decimal (Zpos acc) (DecimalString.NilEmpty.string_of_uint d)
  = Zpos (Pos.of_uint_acc d acc).
Proof.
  revert acc. induction d; intros acc; simpl; [reflexivity|..];
    rewrite <- IHd; f_equal; lia.
Qed.

Lemma decimal_digits (d : Decimal.uint) :
  decimal 0 (DecimalString.NilEmpty.string_of_uint d) = Z.of_N (Pos.of_uint d).
Proof.
  induction d; simpl; [reflexivity|exact IHd|..];
    rewrite <- decimal_acc; reflexivity.
Qed.

(** X18.  The priority of a template is the number its file name starts
with: for a number [n] that fits into an [int] and is not negative, and a
rest that does not start with a digit, [ExtractPriority] reads [n] back
from the name made of [n] in decimal and the rest ("20.png", "20-1.png"). *)
Theorem ExtractPriority_Itoa (n : Z) (rest : string) :
  0 ≤ n ≤ maxInt →
  startsWithDigit rest = false →
  ExtractPriority (strconv.Itoa n +:+ rest) = n.
Proof.
  intros Hn Hrest. unfold ExtractPriority, strconv.Itoa.
  assert (E : ∃ d, DecimalString.NilZero.string_of_int (Z.to_int n)
                   = DecimalString.NilEmpty.string_of_uint d
                   ∧ d ≠ Decimal.Nil ∧ Z.of_N (Pos.of_uint d) = n).
  { destruct n as [|p|p]; [| |lia].
    - exists (Decimal.D0 Decimal.Nil). split; [reflexivity|].
      split; [discriminate|reflexivity].
    - exists (Pos.to_uint p). simpl.
      pose proof (DecimalPos.Unsigned.to_uint_nonnil p) as Hnil.
      split; [destruct (Pos.to_uint p); try reflexivity; congruence|].
      split; [exact Hnil|]. rewrite DecimalPos.Unsigned.of_to. reflexivity. }
  destruct E as (d & -> & Hnil & Hval).
  rewrite leadingDigits_digits, (leadingDigits_stop rest Hrest).
  assert (Happ : ∀ s : string, s +:+ "" = s).
  { induction s as [|c s IH]; [reflexivity|].
    change (String c s +:+ "") with (String c (s +:+ "")).
    rewrite IH. reflexivity. }
  rewrite Happ.
  assert (Hat : Atoi (DecimalString.NilEmpty.string_of_uint d) = Some n).
  { unfold Atoi.
    assert (Hsign : match DecimalString.NilEmpty.string_of_uint d with
                    | String "-" r => (true, r)
                    | String "+" r => (false, r)
                    | _ => (false, DecimalString.NilEmpty.string_of_uint d)
                    end = (false, DecimalString.NilEmpty.string_of_uint d))
      by (destruct d; reflexivity).
    rewrite Hsign, allDigits_digits, decimal_digits, Hval.
    replace ((minInt <=? n) && (n <=? maxInt)) with true
      by (symmetry; apply andb_true_iff; unfold minInt, maxInt in *;
          split; apply Z.leb_le; lia).
    destruct d; try reflexivity. congruence. }
  destruct (DecimalString.NilEmpty.string_of_uint d) as [|c r] eqn:Hs.
  - destruct d; simpl in Hs; congruence.
  - rewrite Hat. reflexivity.
Qed.

Lemma ExtractPriority_Itoa_witness : ExtractPriority (strconv.Itoa 20 +:+ "-1.png") = 20.
Proof.
  apply (ExtractPriority_Itoa 20 "-1.png").
  - vm_compute. split; discriminate.
  - reflexivity.
Defined.

Lemma decimal_nonneg (s : string) (acc : Z) :
  allDigits s = true → 0 ≤ acc → 0 ≤ decimal acc s.
Proof.
  revert acc. induction s as [|c s IH]; intros acc Hd Ha; simpl in *; [exact Ha|].
  apply andb_prop in Hd as [Hc Hd]. apply IH; [exact Hd|].
  unfold isDigit in Hc. apply andb_prop in Hc as [Hc _].
  apply N.leb_le in Hc. lia.
Qed.

Lemma leadingDigits_allDigits (s : string) : allDigits (leadingDigits s) = true.
Proof.
  induction s as [|c s IH]; simpl; [reflexivity|].
  destruct (isDigit c) eqn:Hc; simpl; [rewrite Hc, IH|]; reflexivity.
Qed.

(** X19.  A priority is never negative and always fits into an [int]: a
name without a leading number, or with one too large, has priority 0. *)
Theorem ExtractPriority_range (filename : string) :
  0 ≤ ExtractPriority filename ≤ maxInt
  ∧ (startsWithDigit filename = false → ExtractPriority filename = 0).
Proof.
  split.
  - unfold ExtractPriority.
    pose proof (leadingDigits_allDigits filename) as Hall.
    destruct (leadingDigits filename) as [|c r] eqn:Hl;
      [unfold maxInt; lia|].
    unfold Atoi.
    assert (Hc : isDigit c = true) by (simpl in Hall; apply andb_prop in Hall; tauto).
    assert (Hsign : match String c r with
                    | String "-" r0 => (true, r0)
                    | String "+" r0 => (false, r0)
                    | _ => (false, String c r)
                    end = (false, String c r)).
    { destruct c as [[|] [|] [|] [|] [|] [|] [|] [|]]; try reflexivity;
        discriminate Hc. }
    rewrite Hsign, Hall.
    pose proof (decimal_nonneg (String c r) 0 Hall (Z.le_refl 0)) as Hpos.
    destruct ((minInt <=? decimal 0 (String c r))
              && (decimal 0 (String c r) <=? maxInt)) eqn:Hr.
    + apply andb_prop in Hr as [_ Hr]. apply Z.leb_le in Hr. lia.
    + unfold maxInt. lia.
  - unfold ExtractPriority. intros H. rewrite leadingDigits_stop by exact H.
    reflexivity.
Qed.

End priorities.

(** ** The bot: what every tick keeps *)

Section bot_keeps.

Import global entity bot expedition botfacts lifecycle.

Variable I : GlobalBot → Prop.

Lemma keeps_ret {A} (a : A) : hoare I (ret a) (fun _ => I).
Proof. intros b Hb. exact Hb. Qed.

Lemma keeps_get : hoare I get (fun _ => I).
Proof. intros b Hb. exact Hb. Qed.

Lemma keeps_emit (e : Effect) : hoare I (emit e) (fun _ => I).
Proof. intros b Hb. exact Hb. Qed.

Lemma keeps_modify (f : GlobalBot → GlobalBot) :
  (∀ b, I b → I (f b)) → hoare I (modify f) (fun _ => I).
Proof. intros Hf b Hb. apply Hf. exact Hb. Qed.

Lemma keeps_bind {A B} (m : M A) (f : A → M B) :
  hoare I m (fun _ => I) → (∀ a, hoare I (f a) (fun _ => I)) →
  hoare I (bind m f) (fun _ => I).
Proof.
  intros Hm Hf b Hb. unfold bind. specialize (Hm b Hb).
  destruct (m b) as [[a b1] e1]. simpl in Hm. specialize (Hf a b1 Hm).
  destruct (f a b1) as [[r b2] e2]. exact Hf.
Qed.

End bot_keeps.

Ltac keep :=
  repeat match goal with
    | |- botfacts.hoare _ (expedition.ret _) _ => apply keeps_ret
    | |- botfacts.hoare _ expedition.get _ => apply keeps_get
    | |- botfacts.hoare _ (expedition.emit _) _ => apply keeps_emit
    | |- botfacts.hoare _ (expedition.bind _ _) _ =>
        apply keeps_bind; [|intros ?]
    | |- botfacts.hoare _ (match ?x with _ => _ end) _ => destruct x
    end.

Section bot_invariant.

Import global entity bot expedition botfacts lifecycle.

Variables (sort : Sorter) (b0 : GlobalBot).

Lemma inv_setState (s : BotState) :
  s ≠ StateStopped → hoare (kept b0) (setState s) (fun _ => kept b0).
Proof.
  intros Hs. apply keeps_modify. intros b [(Ht & Hr & Hw & _) Ha].
  split; [|exact Ha]. exact (conj Ht (conj Hr (conj Hw Hs))).
Qed.

Lemma inv_resetTracker : hoare (kept b0) resetTracker (fun _ => kept b0).
Proof.
  apply keeps_modify. intros b [(Ht & Hr & Hw & Hs) Ha].
  split; [|exact Ha].
  exact (conj (reach_reset _ Ht) (conj Hr (conj Hw Hs))).
Qed.

Lemma inv_updateTracker (tick : Tick) (detected : list DetectedEntity) :
  validTick tick → hoare (kept b0) (updateTracker tick detected) (fun _ => kept b0).
Proof.
  intros Hv. apply keeps_modify. intros b [(Ht & Hr & Hw & Hs) Ha].
  split; [|exact Ha].
  exact (conj (reach_update _ _ _ _ Hv Ht) (conj Hr (conj Hw Hs))).
Qed.

Lemma inv_recordClick (tick : Tick) (e : DetectedEntity) :
  hoare (kept b0) (recordClick tick e) (fun _ => kept b0).
Proof.
  intros b [(Ht & Hr & Hw & Hs) Ha]. unfold recordClick.
  pose proof (reach_click (clickFirst tick) (clickLast tick) (clickBlack tick)
                (entryTracker b) e Ht) as H.
  destruct (RecordClick _ _ _ _ _) as [t1 r]. simpl in *.
  split; [|exact Ha]. exact (conj H (conj Hr (conj Hw Hs))).
Qed.

Lemma inv_setLastHighPriority (e : DetectedEntity) :
  hoare (kept b0) (setLastHighPriority e) (fun _ => kept b0).
Proof.
  apply keeps_modify. intros b [(Ht & Hr & Hw & Hs) Ha].
  split; [|exact Ha].
  exact (conj (reach_roi _ e Ht) (conj Hr (conj Hw Hs))).
Qed.

Lemma inv_retry0 : hoare (kept b0) (modify (withRetryCount 0)) (fun _ => kept b0).
Proof.
  apply keeps_modify. intros b [(Ht & Hr & Hw & Hs) Ha].
  split; [|exact Ha]. refine (conj Ht (conj _ (conj Hw Hs))).
  simpl. unfold constants.SearchMaxRetries. lia.
Qed.

Lemma inv_wait0 : hoare (kept b0) (modify (withWaitCount 0)) (fun _ => kept b0).
Proof.
  apply keeps_modify. intros b [(Ht & Hr & Hw & Hs) Ha].
  split; [|exact Ha]. refine (conj Ht (conj Hr (conj _ Hs))). simpl. lia.
Qed.

Lemma inv_waitMore :
  hoare (kept b0) (modify (fun b => withWaitCount (entryWaitCount b + 1) b))
        (fun _ => kept b0).
Proof.
  apply keeps_modify. intros b [(Ht & Hr & Hw & Hs) Ha].
  split; [|exact Ha]. refine (conj Ht (conj Hr (conj _ Hs))). simpl. lia.
Qed.

Lemma inv_screenshot (taken : bool) :
  hoare (kept b0) (modify (withScreenshotTaken taken)) (fun _ => kept b0).
Proof.
  apply keeps_modify. intros b [(Ht & Hr & Hw & Hs) Ha].
  split; [|exact Ha]. exact (conj Ht (conj Hr (conj Hw Hs))).
Qed.

Lemma inv_performClick (x y w h : Z) :
  hoare (kept b0) (performClick x y w h) (fun _ => kept b0).
Proof. unfold performClick. keep. Qed.

Lemma inv_searchFailed (step : string) :
  hoare (kept b0) (searchFailed step) (fun _ => kept b0).
Proof.
  intros b [(Ht & Hr & Hw & Hs) Ha].
  unfold searchFailed, bind, modify, get, emit, ret, setState. simpl.
  destruct (constants.SearchMaxRetries <=? searchRetryCount b + 1) eqn:Hmax;
    simpl.
  - split; [|exact Ha]. refine (conj Ht (conj _ (conj Hw _))); [|discriminate].
    simpl. unfold constants.SearchMaxRetries. lia.
  - apply Z.leb_gt in Hmax. split; [|exact Ha].
    refine (conj Ht (conj _ (conj Hw Hs))). simpl. lia.
Qed.

Lemma inv_check (screenImg : image.Image) (targets : list Target)
    (s : BotState) (msg : string) :
  s ≠ StateStopped → hoare (kept b0) (check screenImg targets s msg) (fun _ => kept b0).
Proof.
  intros Hs. unfold check.
  destruct (firstFound screenImg targets) as [[[target fx] fy]|]; keep;
    try apply inv_retry0; apply inv_setState; exact Hs.
Qed.

Lemma inv_verifyEntry (tick : Tick) (attempts : list Z) (flag : bool) :
  hoare (kept b0) (verifyEntry tick attempts flag) (fun _ => kept b0).
Proof.
  revert flag. induction attempts as [|attempt rest IH]; intros flag; simpl.
  - destruct flag; keep; try apply inv_resetTracker;
      apply inv_setState; discriminate.
  - destruct (verifyCapture tick attempt) as [img|]; keep; try apply IH;
      try apply inv_resetTracker; try apply inv_wait0;
      apply inv_setState; discriminate.
Qed.

Lemma inv_clickAndVerifyEntry (tick : Tick) (e : DetectedEntity) :
  hoare (kept b0) (clickAndVerifyEntry tick e) (fun _ => kept b0).
Proof.
  unfold clickAndVerifyEntry. keep; try apply inv_performClick;
    try apply inv_recordClick; try apply inv_setLastHighPriority;
    apply inv_verifyEntry.
Qed.

Lemma inv_processState (tick : Tick) :
  validTick tick → hoare (kept b0) (processState sort tick) (fun _ => kept b0).
Proof.
  intros Hv. unfold processState. apply keeps_bind; [apply keeps_get|].
  intros b. destruct (State b).
  - keep.
  - unfold handleAutoDetectState, orElse. keep;
      apply inv_check; discriminate.
  - unfold handleEntryState, fullScan, debugScreenshot. keep;
      try apply inv_resetTracker; try apply inv_wait0;
      try apply inv_updateTracker; try assumption;
      try apply inv_clickAndVerifyEntry; try apply inv_screenshot;
      try (apply inv_setState; discriminate).
    all: intros b1 Hb1; exact Hb1.
  - unfold handleEntryWaitingState, clickTarget. keep;
      try apply inv_waitMore; try apply inv_wait0; try apply inv_performClick;
      apply inv_setState; discriminate.
  - unfold handleInGameState. keep. apply inv_setState; discriminate.
  - unfold handleExitState, clickTarget. keep; try apply inv_performClick;
      apply inv_setState; discriminate.
  - unfold handleExitStep2State, clickTarget. keep; try apply inv_performClick;
      apply inv_setState; discriminate.
  - unfold handleSearchOpenState, searchStatus, clickTarget. keep;
      try apply inv_performClick; try apply inv_retry0;
      try apply inv_searchFailed; apply inv_setState; discriminate.
  - unfold handleSearchSelectState, searchStatus, clickTarget. keep;
      try apply inv_performClick; try apply inv_retry0;
      try apply inv_searchFailed; apply inv_setState; discriminate.
  - unfold handleSearchVerifyState, searchStatus. keep;
      try apply inv_resetTracker; try apply inv_retry0;
      try apply inv_searchFailed; apply inv_setState; discriminate.
Qed.

End bot_invariant.

Section bot_run.

Import global entity bot expedition botfacts lifecycle.

Lemma sameAssets_refl (b : GlobalBot) : sameAssets b b.
Proof. repeat split. Qed.

(** X20.  Whatever the screens show, the bot keeps itself in order.  From a
bot that is running, with a tracker built by the tracker's calls, a retry
counter below its limit and a wait counter that is not negative, every
sequence of ticks leads to such a bot again, with the same assets and the
same display offset: no tick stops the bot, and at every moment every
click count of its tracker is between 0 and 7. *)
Theorem run_steady (sort : Sorter) (ticks : list Tick) (b : GlobalBot) :
  Forall validTick ticks →
  steady b →
  let b' := run sort ticks b in
  steady b' ∧ sameAssets b b'
  ∧ ∀ e, 0 ≤ GetClickCount (entryTracker b') e ≤ 7.
Proof.
  intros Hticks Hb b'.
  assert (Haux : ∀ ts cur, Forall validTick ts →
            steady cur ∧ sameAssets b cur →
            steady (fold_left (step sort) ts cur)
            ∧ sameAssets b (fold_left (step sort) ts cur)).
  { induction ts as [|tick ts IH]; intros cur Hts Hinv; simpl; [exact Hinv|].
    apply Forall_cons in Hts as [Htick Hts]. apply IH; [exact Hts|].
    exact (inv_processState sort b tick Htick cur Hinv). }
  assert (H : steady b' ∧ sameAssets b b').
  { apply Haux; [exact Hticks|]. split; [exact Hb|apply sameAssets_refl]. }
  destruct H as [Hs Ha]. split; [exact Hs|]. split; [exact Ha|].
  intros e. destruct Hs as (Hr & _).
  apply consistent_clicks, reachable_is_consistent, Hr.
Qed.

Lemma run_steady_witness :
  let b' := run insertionSort [tickOf (Some wildcards.spotted)]
                (sampleBot StateEntry) in
  steady b' ∧ sameAssets (sampleBot StateEntry) b'
  ∧ ∀ e, 0 ≤ GetClickCount (entryTracker b') e ≤ 7.
Proof.
  apply (run_steady insertionSort [tickOf (Some wildcards.spotted)]
           (sampleBot StateEntry)).
  - constructor; [|constructor]. intros i m. reflexivity.
  - split; [apply reach_new|]. split; [vm_compute; split; [discriminate|reflexivity]|].
    split; [vm_compute; discriminate|discriminate].
Defined.

(** One missed tick in a search state: the counter goes up by one, and on
reaching [SearchMaxRetries] it is reset and the state becomes
[StateAutoDetect]. *)
Lemma missed_tick_step (sort : Sorter) (b : GlobalBot) (targets : list Target)
    (tick : Tick) :
  searchTargets b (State b) = Some targets →
  missedTick targets tick →
  let b' := step sort b tick in
  sameAssets b b'
  ∧ if constants.SearchMaxRetries <=? searchRetryCount b + 1
    then State b' = StateAutoDetect ∧ searchRetryCount b' = 0
    else State b' = State b ∧ searchRetryCount b' = searchRetryCount b + 1.
Proof.
  intros Hs (screenImg & Hcap & Hnone).
  unfold step, processState, bind, get. simpl.
  destruct (State b) eqn:Hst; try discriminate Hs; injection Hs as <-;
    unfold handleSearchOpenState, handleSearchSelectState,
      handleSearchVerifyState, searchStatus, searchFailed, bind, get, emit,
      modify, ret, setState;
    simpl; rewrite Hcap; simpl; rewrite Hnone; simpl;
    destruct (constants.SearchMaxRetries <=? searchRetryCount b + 1); simpl;
    (split; [repeat split|]); auto.
Qed.

Lemma searchTargets_same (b b' : GlobalBot) (s : BotState) :
  sameAssets b b' → searchTargets b' s = searchTargets b s.
Proof.
  intros (_ & Hf & _ & _ & _ & _ & Ho & Hsel & _).
  destruct s; simpl; congruence.
Qed.

Lemma missed_ticks_run (sort : Sorter) (targets : list Target)
    (ticks : list Tick) (b : GlobalBot) :
  searchTargets b (State b) = Some targets →
  0 ≤ searchRetryCount b →
  Forall (missedTick targets) ticks →
  let n := Z.of_nat (length ticks) in
  let b' := run sort ticks b in
  (searchRetryCount b + n < constants.SearchMaxRetries →
     State b' = State b ∧ searchRetryCount b' = searchRetryCount b + n)
  ∧ (0 < n → searchRetryCount b + n = constants.SearchMaxRetries →
     State b' = StateAutoDetect ∧ searchRetryCount b' = 0).
Proof.
  revert b. induction ticks as [|c cs IH]; intros b Hs Hc Hall n b'.
  - subst n b'. simpl. split; [intros _; split; [reflexivity|lia]|lia].
  - apply Forall_cons in Hall as [Hfail Hall].
    pose proof (missed_tick_step sort b targets c Hs Hfail) as [Ha Hstep].
    subst n b'. unfold run. cbn [fold_left]. fold (run sort cs (step sort b c)).
    set (b1 := step sort b c) in *.
    rewrite length_cons, Nat2Z.inj_succ.
    destruct (Z.leb_spec constants.SearchMaxRetries (searchRetryCount b + 1))
      as [Hge|Hlt].
    + destruct Hstep as [Hs1 Hc1]. split; [lia|]. intros _ Hsum.
      assert (length cs = 0%nat) as E by lia.
      apply length_zero_iff_nil in E. subst cs. simpl. auto.
    + destruct Hstep as [Hs1 Hc1].
      assert (Hs' : searchTargets b1 (State b1) = Some targets)
        by (rewrite Hs1, (searchTargets_same b b1 _ Ha); exact Hs).
      specialize (IH b1 Hs' ltac:(lia) Hall). cbv zeta in IH.
      destruct IH as [IHlt IHeq]. rewrite Hc1, Hs1 in IHlt. rewrite Hc1 in IHeq.
      split.
      * intros Hsum. destruct IHlt as [-> ->]; [lia|]. split; [reflexivity|lia].
      * intros _ Hsum. apply IHeq; lia.
Qed.

(** X21.  Each of the three search steps gives up after three misses.  Let
the bot be in the search-open, search-select or search-verify state with a
retry counter of zero, and let every tick capture a screen on which the
marker of that state is not found.  After fewer than [SearchMaxRetries] (3)
such ticks the bot is in the same state, the counter equal to their number;
after exactly 3 it is in [StateAutoDetect] and the counter is zero. *)
Theorem search_step_falls_back (sort : Sorter) (b : GlobalBot)
    (targets : list Target) (ticks : list Tick) :
  searchTargets b (State b) = Some targets →
  searchRetryCount b = 0 →
  Forall (missedTick targets) ticks →
  let n := Z.of_nat (length ticks) in
  let b' := run sort ticks b in
  (n < constants.SearchMaxRetries → State b' = State b ∧ searchRetryCount b' = n)
  ∧ (n = constants.SearchMaxRetries →
     State b' = StateAutoDetect ∧ searchRetryCount b' = 0).
Proof.
  intros Hs Hc Hall n b'.
  destruct (missed_ticks_run sort targets ticks b Hs ltac:(lia) Hall) as [Hlt Heq].
  rewrite Hc in Hlt, Heq. split.
  - intros Hn. apply Hlt. exact Hn.
  - intros Hn. apply Heq; [unfold n in Hn; rewrite Hn; reflexivity|exact Hn].
Qed.

Lemma black_ticks_miss (name : string) (n : nat) :
  Forall (missedTick [whiteTarget name])
         (replicate n (tickOf (Some matching.blackPixel))).
Proof.
  apply Forall_replicate. exists matching.blackPixel.
  split; [reflexivity|]. vm_compute. reflexivity.
Qed.

Lemma search_step_falls_back_witness :
  let b := sampleBot StateSearchVerify in
  let black := tickOf (Some matching.blackPixel) in
  (State (run insertionSort (replicate 2 black) b) = StateSearchVerify
   ∧ searchRetryCount (run insertionSort (replicate 2 black) b) = 2)
  ∧ (State (run insertionSort (replicate 3 black) b) = StateAutoDetect
     ∧ searchRetryCount (run insertionSort (replicate 3 black) b) = 0).
Proof.
  split.
  - apply (search_step_falls_back insertionSort (sampleBot StateSearchVerify)
             [whiteTarget "finding.png"]
             (replicate 2 (tickOf (Some matching.blackPixel)))
             eq_refl eq_refl (black_ticks_miss "finding.png" 2)).
    reflexivity.
  - apply (search_step_falls_back insertionSort (sampleBot StateSearchVerify)
             [whiteTarget "finding.png"]
             (replicate 3 (tickOf (Some matching.blackPixel)))
             eq_refl eq_refl (black_ticks_miss "finding.png" 3)).
    reflexivity.
Defined.

End bot_run.

(** ** The bot: waiting in the lobby *)

Section lobby_wait.

Import global entity bot expedition botfacts lifecycle.

Variable sort : Sorter.

(** A tick of the waiting state before the limit: one more check. *)
Lemma waiting_tick_early (b : GlobalBot) (tick : Tick) :
  State b = StateEntryWaiting →
  capture tick = None ∨ shownTick (targetsLobby b) tick →
  entryWaitCount b + 1 < 10 →
  let b' := step sort b tick in
  State b' = StateEntryWaiting
  ∧ entryWaitCount b' = entryWaitCount b + 1
  ∧ targetsLobby b' = targetsLobby b.
Proof.
  intros Hs Htick Hlt.
  unfold step, processState, bind, get. simpl. rewrite Hs.
  unfold handleEntryWaitingState, bind, get, emit, modify, ret. simpl.
  destruct Htick as [Hcap|(screenImg & Hcap & [found Hfound])]; rewrite Hcap;
    simpl; [auto|].
  rewrite Hfound. simpl.
  destruct (Z.leb_spec 10 (entryWaitCount b + 1)); [lia|]. simpl. auto.
Qed.

(** A tick of the waiting state at the limit, with the lobby on the
screen: the bot leaves for the search. *)
Lemma waiting_tick_late (b : GlobalBot) (tick : Tick) :
  State b = StateEntryWaiting →
  shownTick (targetsLobby b) tick →
  10 ≤ entryWaitCount b + 1 →
  let b' := step sort b tick in
  State b' = StateSearchOpen ∧ entryWaitCount b' = 0.
Proof.
  intros Hs (screenImg & Hcap & [found Hfound]) Hge.
  unfold step, processState, bind, get. simpl. rewrite Hs.
  unfold handleEntryWaitingState, bind, get, emit, modify, ret, setState,
    clickTarget, performClick. simpl.
  rewrite Hcap. simpl. rewrite Hfound. simpl.
  destruct (Z.leb_spec 10 (entryWaitCount b + 1)); [|lia]. simpl.
  destruct (firstFound screenImg (targetsChannelReturn b)) as [[[target fx] fy]|];
    simpl; auto.
Qed.

Lemma waiting_ticks_run (ticks : list Tick) (b : GlobalBot) :
  State b = StateEntryWaiting →
  Forall (fun tick => capture tick = None ∨ shownTick (targetsLobby b) tick)
         ticks →
  entryWaitCount b + Z.of_nat (length ticks) < 10 →
  let b' := run sort ticks b in
  State b' = StateEntryWaiting
  ∧ entryWaitCount b' = entryWaitCount b + Z.of_nat (length ticks)
  ∧ targetsLobby b' = targetsLobby b.
Proof.
  revert b. induction ticks as [|tick ticks IH]; intros b Hs Hall Hlt.
  - simpl. split; [exact Hs|]. split; [lia|reflexivity].
  - apply Forall_cons in Hall as [Htick Hall].
    rewrite length_cons, Nat2Z.inj_succ in *.
    destruct (waiting_tick_early b tick Hs Htick ltac:(lia)) as (Hs1 & Hc1 & Ht1).
    unfold run. cbn [fold_left]. fold (run sort ticks (step sort b tick)).
    set (b1 := step sort b tick) in *.
    assert (Hall1 : Forall (fun tick => capture tick = None
                                        ∨ shownTick (targetsLobby b1) tick) ticks)
      by (rewrite Ht1; exact Hall).
    destruct (IH b1 Hs1 Hall1 ltac:(lia)) as (Hs2 & Hc2 & Ht2).
    split; [exact Hs2|]. split; [lia|congruence].
Qed.

(** X22.  The bot does not wait in the lobby for ever.  Let it enter the
waiting state with a wait counter of zero, and let every tick either fail
to capture the screen or capture one that shows the lobby.  During the
first nine ticks it stays in the waiting state, counting them, failed
captures included; if the tenth shows the lobby, the bot resets the counter
and goes to the search-open state. *)
Theorem lobby_wait_gives_up (b : GlobalBot) (ticks : list Tick) (last : Tick) :
  State b = StateEntryWaiting →
  entryWaitCount b = 0 →
  Forall (fun tick => capture tick = None ∨ shownTick (targetsLobby b) tick)
         ticks →
  shownTick (targetsLobby b) last →
  let n := Z.of_nat (length ticks) in
  (n < 10 →
     State (run sort ticks b) = StateEntryWaiting
     ∧ entryWaitCount (run sort ticks b) = n)
  ∧ (n = 9 →
     State (run sort (ticks ++ [last]) b) = StateSearchOpen
     ∧ entryWaitCount (run sort (ticks ++ [last]) b) = 0).
Proof.
  intros Hs Hc Hall Hlast n. split.
  - intros Hn.
    destruct (waiting_ticks_run ticks b Hs Hall ltac:(lia)) as (H1 & H2 & _).
    split; [exact H1|]. unfold n. lia.
  - intros Hn.
    destruct (waiting_ticks_run ticks b Hs Hall ltac:(lia)) as (H1 & H2 & H3).
    unfold run. rewrite fold_left_app. cbn [fold_left].
    fold (run sort ticks b).
    apply waiting_tick_late; [exact H1|rewrite H3; exact Hlast|lia].
Qed.

End lobby_wait.

Section lobby_wait_witness.

Import global entity bot expedition botfacts lifecycle.

Lemma lobby_wait_gives_up_witness :
  let b := sampleBot StateEntryWaiting in
  let white := tickOf (Some matching.whitePixel) in
  let ticks := replicate 4 (tickOf None) ++ replicate 5 white in
  (Z.of_nat (length ticks) < 10 →
     State (run insertionSort ticks b) = StateEntryWaiting
     ∧ entryWaitCount (run insertionSort ticks b) = Z.of_nat (length ticks))
  ∧ (Z.of_nat (length ticks) = 9 →
     State (run insertionSort (ticks ++ [white]) b) = StateSearchOpen
     ∧ entryWaitCount (run insertionSort (ticks ++ [white]) b) = 0).
Proof.
  apply (lobby_wait_gives_up insertionSort (sampleBot StateEntryWaiting)
           (replicate 4 (tickOf None)
            ++ replicate 5 (tickOf (Some matching.whitePixel)))
           (tickOf (Some matching.whitePixel))).
  - reflexivity.
  - reflexivity.
  - apply Forall_app. split; apply Forall_replicate.
    + left. reflexivity.
    + right. exists matching.whitePixel. split; [reflexivity|].
      vm_compute. eauto.
  - exists matching.whitePixel. split; [reflexivity|]. vm_compute. eauto.
Defined.

End lobby_wait_witness.

(** ** The bot: which entry it clicks *)

Section order_of_entries.

Import global entity botfacts.

Lemma less_irreflexive (a : DetectedEntity) : less a a = false.
Proof.
  unfold less. rewrite Z.eqb_refl. simpl. apply Z.ltb_irrefl.
Qed.

Lemma less_transitive (a b c : DetectedEntity) :
  less a b = true → less b c = true → less a c = true.
Proof.
  unfold less.
  repeat match goal with
         | |- context [?x =? ?y] => destruct (Z.eqb_spec x y)
         | |- context [?x <? ?y] => destruct (Z.ltb_spec x y)
         end; simpl; intros; try congruence; lia.
Qed.

Lemma less_negatively_transitive (a b c : DetectedEntity) :
  less a b = false → less b c = false → less a c = false.
Proof.
  unfold less.
  repeat match goal with
         | |- context [?x =? ?y] => destruct (Z.eqb_spec x y)
         | |- context [?x <? ?y] => destruct (Z.ltb_spec x y)
         end; simpl; intros; try congruence; lia.
Qed.

(** X26.  The comparison of [SortEntitiesByPriority] is one that
[sort.Slice] can work with, a strict weak order: no detection goes before
itself, going before is transitive, and so is not going before.  It puts
the higher priority first and, at equal priority, the higher Y. *)
Theorem less_strict_weak_order (a b c : DetectedEntity) :
  less a a = false
  ∧ (less a b = true → less b c = true → less a c = true)
  ∧ (less a b = false → less b c = false → less a c = false)
  ∧ (less a b = true ↔
     Priority b < Priority a
     ∨ (Priority a = Priority b ∧ Y (Position b) < Y (Position a))).
Proof.
  split; [apply less_irreflexive|]. split; [apply less_transitive|].
  split; [apply less_negatively_transitive|].
  unfold less.
  destruct (Z.eqb_spec (Priority a) (Priority b)); simpl;
    rewrite Z.ltb_lt; lia.
Qed.

Lemma less_not (a b : DetectedEntity) :
  less a b = false →
  Priority a ≤ Priority b
  ∧ (Priority a = Priority b → Y (Position a) ≤ Y (Position b)).
Proof.
  unfold less.
  repeat match goal with
         | |- context [?x =? ?y] => destruct (Z.eqb_spec x y)
         | |- context [?x <? ?y] => destruct (Z.ltb_spec x y)
         end; simpl; intros; try congruence; lia.
Qed.

Lemma insertSorted_perm (e : DetectedEntity) (l : list DetectedEntity) :
  insertSorted e l ≡ₚ e :: l.
Proof.
  induction l as [|x r IH]; simpl; [reflexivity|].
  destruct (less x e); [|reflexivity].
  rewrite IH. apply Permutation_swap.
Qed.

Lemma insertSorted_sorted (e : DetectedEntity) (l : list DetectedEntity) :
  StronglySorted (fun a b => less b a = false) l →
  StronglySorted (fun a b => less b a = false) (insertSorted e l).
Proof.
  induction l as [|x r IH]; intros Hs; simpl.
  - constructor; constructor.
  - apply StronglySorted_inv in Hs as [Hr Hx].
    destruct (less x e) eqn:Hxe.
    + constructor; [apply IH; exact Hr|].
      rewrite (insertSorted_perm e r). constructor; [|exact Hx].
      destruct (less e x) eqn:Hex; [|reflexivity].
      pose proof (less_irreflexive x) as Hirr.
      rewrite (less_transitive x e x) in Hirr by assumption. discriminate.
    + constructor; [constructor; assumption|].
      constructor; [exact Hxe|].
      rewrite List.Forall_forall in *. intros y Hy.
      apply (less_negatively_transitive y x e); [apply Hx; exact Hy|exact Hxe].
Qed.

Lemma insertionSort_valid : valid_sorter insertionSort.
Proof.
  intros l. unfold insertionSort. induction l as [|e l [IHp IHs]]; simpl.
  - split; [reflexivity|constructor].
  - split; [rewrite insertSorted_perm, IHp; reflexivity|].
    apply insertSorted_sorted. exact IHs.
Qed.

End order_of_entries.

Section entry_clicks.

Import global entity bot expedition botfacts lifecycle.

Lemma clicks_app (l1 l2 : list Effect) :
  clicks (l1 ++ l2) = clicks l1 ++ clicks l2.
Proof. unfold clicks. apply flat_map_app. Qed.

Lemma bind_run {A B} (m : M A) (f : A → M B) (b : GlobalBot) :
  bind m f b
  = ((f (m b).1.1 (m b).1.2).1, (m b).2 ++ (f (m b).1.1 (m b).1.2).2).
Proof.
  unfold bind. destruct (m b) as [[a b1] e1]. simpl.
  destruct (f a b1) as [[r b2] e2]. reflexivity.
Qed.

Lemma clickFree_ret {A} (a : A) : clickFree (ret a).
Proof. intros b. reflexivity. Qed.

Lemma clickFree_get : clickFree get.
Proof. intros b. reflexivity. Qed.

Lemma clickFree_modify (f : GlobalBot → GlobalBot) : clickFree (modify f).
Proof. intros b. reflexivity. Qed.

Lemma clickFree_bind {A B} (m : M A) (f : A → M B) :
  clickFree m → (∀ a, clickFree (f a)) → clickFree (bind m f).
Proof.
  intros Hm Hf b. rewrite bind_run. simpl. rewrite clicks_app, Hm, Hf.
  reflexivity.
Qed.

End entry_clicks.

Ltac quiet :=
  repeat match goal with
    | |- botfacts.clickFree (expedition.ret _) => apply clickFree_ret
    | |- botfacts.clickFree expedition.get => apply clickFree_get
    | |- botfacts.clickFree (expedition.modify _) => apply clickFree_modify
    | |- botfacts.clickFree (expedition.emit _) => intros ?; reflexivity
    | |- botfacts.clickFree (expedition.bind _ _) =>
        apply clickFree_bind; [|intros ?]
    | |- botfacts.clickFree (match ?x with _ => _ end) => destruct x
    end.

Section entry_theorems.

Import global entity bot expedition botfacts lifecycle.

Lemma verifyEntry_clickFree (tick : Tick) (attempts : list Z) (flag : bool) :
  clickFree (verifyEntry tick attempts flag).
Proof.
  revert flag. induction attempts as [|attempt rest IH]; intros flag; simpl.
  - destruct flag; unfold resetTracker, setState; quiet.
  - destruct (verifyCapture tick attempt) as [img|];
      unfold resetTracker, setState; quiet; apply IH.
Qed.

Lemma clickAndVerifyEntry_clicks (tick : Tick) (e : DetectedEntity)
    (b : GlobalBot) :
  clicks (clickAndVerifyEntry tick e b).2 = [clickPoint b e].
Proof.
  unfold clickAndVerifyEntry. rewrite bind_run. cbn [snd]. rewrite clicks_app.
  match goal with |- _ ++ clicks (?m ?s).2 = _ =>
    assert (Hq : clicks (m s).2 = []) end.
  { match goal with |- clicks (?m ?s).2 = [] =>
      assert (Hfree : clickFree m); [|apply Hfree] end.
    unfold setLastHighPriority. quiet; try apply verifyEntry_clickFree.
    intros b1. unfold recordClick. destruct (RecordClick _ _ _ _ _). reflexivity. }
  rewrite Hq. reflexivity.
Qed.

(** The verification either gives up, leaving the bot as it is, or leaves
the entry screen with a tracker that has been reset. *)
Lemma verifyEntry_outcome (tick : Tick) (attempts : list Z) (flag : bool)
    (b : GlobalBot) :
  let r := verifyEntry tick attempts flag b in
  (r.1.2 = b ∧ r.1.1 = 0)
  ∨ ((State r.1.2 = StateEntryWaiting ∨ State r.1.2 = StateInGame
      ∨ State r.1.2 = StateExitStep1)
     ∧ entryTracker r.1.2 = Reset (entryTracker b)).
Proof.
  revert flag. induction attempts as [|attempt rest IH]; intros flag; simpl.
  - destruct flag; simpl; auto.
  - destruct (verifyCapture tick attempt) as [img|].
    + rewrite bind_run. cbn [get fst snd].
      destruct (firstFound img (targetsFinding b)) as [[[t1 x1] y1]|].
      { rewrite bind_run. cbn [emit fst snd]. apply IH. }
      destruct (firstFound img (targetsLobby b)) as [[[t2 x2] y2]|];
        [simpl; auto|].
      destruct (firstFound img (targetsSkill b)) as [[[t3 x3] y3]|];
        [simpl; auto|].
      destruct (firstFound img (targetsExit b)) as [[[t4 x4] y4]|];
        [simpl; auto 6|].
      rewrite bind_run. cbn [emit fst snd]. apply IH.
    + rewrite bind_run. cbn [emit fst snd]. apply IH.
Qed.

(** X24.  One click per attempt, and a clean slate on success.
[clickAndVerifyEntry] clicks once, at the centre of the entity shifted by
the display offset, and nowhere else.  Afterwards the bot is either where
it was, with the click recorded in its tracker and the entity remembered
for the region of interest, and asks for an immediate retry; or it has
left for the lobby, the game or the exit, and its tracker has been
reset. *)
Theorem clickAndVerifyEntry_outcome (tick : Tick) (e : DetectedEntity)
    (b : GlobalBot) :
  let r := clickAndVerifyEntry tick e b in
  let t1 :=
    SetLastHighPriority
      (RecordClick (clickFirst tick) (clickLast tick) (clickBlack tick)
                   (entryTracker b) e).1 e in
  clicks r.2 = [clickPoint b e]
  ∧ ((State r.1.2 = State b ∧ entryTracker r.1.2 = t1 ∧ r.1.1 = 0
      ∧ HasROI (entryTracker r.1.2) = true)
     ∨ ((State r.1.2 = StateEntryWaiting ∨ State r.1.2 = StateInGame
         ∨ State r.1.2 = StateExitStep1)
        ∧ Stats (entryTracker r.1.2) = (0, 0)
        ∧ HasROI (entryTracker r.1.2) = false)).
Proof.
  intros r t1. split; [apply clickAndVerifyEntry_clicks|].
  unfold r, t1.
  cbv beta iota zeta delta [clickAndVerifyEntry bind performClick get emit
    recordClick setLastHighPriority modify ret].
  destruct (RecordClick (clickFirst tick) (clickLast tick) (clickBlack tick)
              (entryTracker b) e) as [t0 blacklisted] eqn:Hrec.
  destruct blacklisted; cbv beta iota zeta;
    match goal with |- context [verifyEntry tick ?a ?f ?s] =>
      pose proof (verifyEntry_outcome tick a f s) as Hv;
      destruct (verifyEntry tick a f s) as [[d b2] e2] end;
    cbv zeta in Hv; cbn [fst snd] in Hv |- *;
    (destruct Hv as [[-> ->]|[Hs Ht]];
     [left; simpl; auto|right; split; [exact Hs|]; rewrite Ht; simpl; auto]).
Qed.

End entry_theorems.

Section entry_pick.

Import global entity bot expedition botfacts lifecycle.

Variables (sort : Sorter) (tick : Tick) (b : GlobalBot) (screenImg : image.Image).

Lemma In_allEntities (e : DetectedEntity) (targets : list Target) :
  In e (allEntities screenImg targets) ↔
  ∃ target p, e = entityAt target p ∧ In target targets
    ∧ In p (screen.FindAllTemplates screenImg (Image target)
              constants.DefaultTolerance)
    ∧ Y p ≤ 950.
Proof.
  unfold allEntities. rewrite in_flat_map. split.
  - intros (target & Ht & He). apply in_map_iff in He as (p & <- & Hp).
    apply filter_In in Hp as [Hp Hy]. exists target, p.
    unfold onScreen in Hy. apply negb_true_iff, Z.ltb_ge in Hy. auto.
  - intros (target & p & -> & Ht & Hp & Hy). exists target.
    split; [exact Ht|]. apply in_map. apply filter_In. split; [exact Hp|].
    unfold onScreen. apply negb_true_iff, Z.ltb_ge. exact Hy.
Qed.

Lemma debugScreenshot_clickFree : clickFree (debugScreenshot tick screenImg).
Proof.
  unfold debugScreenshot. quiet.
  intros b1. simpl. unfold clicks. induction (targetsGames b1); [reflexivity|].
  simpl. assumption.
Qed.

(** The head of a sorted permutation goes before no other element. *)
Lemma sorted_head (l : list DetectedEntity) :
  valid_sorter sort →
  match SortEntitiesByPriority sort l with
  | e :: _ => In e l ∧ ∀ e', In e' l → less e' e = false
  | [] => l = []
  end.
Proof.
  intros Hsort. unfold SortEntitiesByPriority. destruct (Hsort l) as [Hp Hs].
  destruct (sort l) as [|e rest].
  - apply Permutation_nil in Hp. exact Hp.
  - apply StronglySorted_inv in Hs as [_ Hall].
    rewrite List.Forall_forall in Hall. split.
    + apply list_elem_of_In. rewrite <- Hp. apply elem_of_cons. auto.
    + intros e' He'. apply list_elem_of_In in He'. rewrite <- Hp in He'.
      apply elem_of_cons in He' as [->|He'].
      * apply less_irreflexive.
      * apply Hall. apply list_elem_of_In. exact He'.
Qed.

Lemma fullScan_clicks :
  valid_sorter sort →
  let all := allEntities screenImg (targetsGames b) in
  let t1 := (Update (order tick) (now tick) (entryTracker b) all).1 in
  let valid := FilterBlacklisted t1 all in
  let effects := (fullScan sort tick screenImg b).2 in
  (valid = [] → clicks effects = [])
  ∧ (valid ≠ [] → ∃ e,
       clicks effects = [clickPoint b e]
       ∧ In e valid ∧ ∀ e', In e' valid → less e' e = false).
Proof.
  intros Hsort all t1 valid effects. unfold effects, fullScan.
  rewrite bind_run. cbn [get fst snd]. fold all.
  rewrite bind_run. cbn [updateTracker modify fst snd]. fold t1.
  destruct all as [|d rest] eqn:Hall.
  - split; [|intros H; destruct H; reflexivity]. intros _.
    rewrite bind_run. cbn [app ret snd]. rewrite clicks_app.
    rewrite debugScreenshot_clickFree. reflexivity.
  - rewrite bind_run. cbn [get fst snd].
    change (entryTracker (withTracker t1 b)) with t1. fold valid.
    pose proof (sorted_head valid Hsort) as Hhead.
    destruct valid as [|v vs] eqn:Hvalid.
    + split; [reflexivity|]. intros H. destruct H. reflexivity.
    + split; [discriminate|]. intros _.
      destruct (SortEntitiesByPriority sort (v :: vs)) as [|e es];
        [discriminate Hhead|].
      exists e. destruct Hhead as [Hin Hbest].
      split; [|split; assumption].
      cbn [app]. rewrite clickAndVerifyEntry_clicks. reflexivity.
Qed.

(** X23.  On a full scan the bot clicks the best entry, and only that.
Let [handleEntryState] capture a screen that shows neither the exit button
nor the lobby, and let the fast path find nothing.  Of the matches of the
game buttons on that screen, at most 950 px down, those whose detection
the tracker does not blacklist after its update are the valid ones.  With
none, the bot does not click.  Otherwise it clicks once, at the centre of
a valid detection that no other valid one beats: none has a higher
priority, and none of the same priority lies lower on the screen. *)
Theorem handleEntryState_picks_best :
  valid_sorter sort →
  capture tick = Some screenImg →
  firstFound screenImg (targetsExit b) = None →
  firstFound screenImg (targetsLobby b) = None →
  HasROI (entryTracker b) = false
  ∨ roiEntity (entryTracker b) screenImg (GetROI (entryTracker b))
              (targetsGames b) = None →
  let all := allEntities screenImg (targetsGames b) in
  let t1 := (Update (order tick) (now tick) (entryTracker b) all).1 in
  let valid := FilterBlacklisted t1 all in
  let effects := (handleEntryState sort tick b).2 in
  (valid = [] → clicks effects = [])
  ∧ (valid ≠ [] → ∃ e target p,
       clicks effects = [clickPoint b e]
       ∧ e = entityAt target p ∧ In target (targetsGames b)
       ∧ In p (screen.FindAllTemplates screenImg (Image target)
                 constants.DefaultTolerance)
       ∧ Y p ≤ 950
       ∧ IsBlacklisted t1 e = false
       ∧ ∀ e', In e' valid →
           Priority e' ≤ Priority e
           ∧ (Priority e' = Priority e →
              Y (Position e') ≤ Y (Position e))).
Proof.
  intros Hsort Hcap Hexit Hlobby Hroi all t1 valid effects.
  assert (Heff : clicks effects = clicks (fullScan sort tick screenImg b).2).
  { unfold effects, handleEntryState. rewrite bind_run. cbn [emit fst snd].
    rewrite Hcap. rewrite bind_run. cbn [get fst snd].
    rewrite Hexit, Hlobby.
    destruct (negb (Empty (GetROI (entryTracker b)))) eqn:Hempty;
      [|reflexivity].
    destruct Hroi as [Hroi|Hroi].
    - unfold GetROI, HasROI in *.
      destruct (lastHighPriEntity (entryTracker b)); discriminate.
    - rewrite Hroi. reflexivity. }
  rewrite Heff.
  destruct (fullScan_clicks Hsort) as [Hnone Hsome]. fold all t1 valid in Hnone, Hsome.
  split; [exact Hnone|]. intros Hne.
  destruct (Hsome Hne) as (e & Hclick & Hin & Hbest).
  assert (Hin' : In e all ∧ IsBlacklisted t1 e = false).
  { unfold valid, FilterBlacklisted, IsBlacklisted in *.
    apply list_elem_of_In, list_elem_of_filter in Hin as [Hb He].
    split; [apply list_elem_of_In; exact He|]. rewrite Hb. reflexivity. }
  destruct Hin' as [Hall Hbl].
  apply In_allEntities in Hall as (target & p & -> & Ht & Hp & Hy).
  exists (entityAt target p), target, p.
  repeat (split; [first [assumption|reflexivity]|]).
  intros e' He'. apply less_not. apply Hbest. exact He'.
Qed.

(** The fast path answers a match of a game button in the region. *)
Lemma roiEntity_Some (t : EntityTracker) (roi : Rectangle)
    (targets : list Target) (e : DetectedEntity) :
  roiEntity t screenImg roi targets = Some e →
  ∃ target p, e = entityAt target p ∧ In target targets
    ∧ In p (screen.FindAllTemplatesInROI screenImg (Image target) roi
              constants.DefaultTolerance)
    ∧ Y p ≤ 950
    ∧ IsBlacklisted t e = false.
Proof.
  induction targets as [|target rest IH]; simpl; [discriminate|].
  destruct (find _ _) as [p|] eqn:Hfind.
  - intros [= <-]. apply find_some in Hfind as [Hp Hc].
    apply andb_prop in Hc as [Hy Hb]. unfold onScreen in Hy.
    apply negb_true_iff in Hy, Hb. apply Z.ltb_ge in Hy.
    exists target, p. auto 6.
  - intros H. destruct (IH H) as (target' & p & He & Ht & Hrest).
    exists target', p. auto.
Qed.

(** X25.  On the fast path the bot clicks what it found in the region.
Let [handleEntryState] capture a screen that shows neither the exit button
nor the lobby, let the region of interest be not empty and the search in
it come up with a detection.  Then the bot clicks once, at the centre of
that detection, which is a match of a game button in the region, at most
950 px down, that the tracker did not blacklist when the tick began. *)
Theorem handleEntryState_fast_path (e : DetectedEntity) :
  capture tick = Some screenImg →
  firstFound screenImg (targetsExit b) = None →
  firstFound screenImg (targetsLobby b) = None →
  Empty (GetROI (entryTracker b)) = false →
  roiEntity (entryTracker b) screenImg (GetROI (entryTracker b))
            (targetsGames b) = Some e →
  clicks (handleEntryState sort tick b).2 = [clickPoint b e]
  ∧ ∃ target p, e = entityAt target p ∧ In target (targetsGames b)
      ∧ In p (screen.FindAllTemplatesInROI screenImg (Image target)
                (GetROI (entryTracker b)) constants.DefaultTolerance)
      ∧ Y p ≤ 950
      ∧ IsBlacklisted (entryTracker b) e = false.
Proof.
  intros Hcap Hexit Hlobby Hempty Hroi. split; [|apply roiEntity_Some; exact Hroi].
  unfold handleEntryState. rewrite bind_run. cbn [emit fst snd].
  rewrite Hcap. rewrite bind_run. cbn [get fst snd].
  rewrite Hexit, Hlobby, Hempty, Hroi. cbn [negb].
  rewrite bind_run. cbn [updateTracker modify fst snd].
  rewrite !clicks_app, clickAndVerifyEntry_clicks. reflexivity.
Qed.

End entry_pick.

Section entry_pick_witness.

Import global entity bot expedition botfacts lifecycle.

Lemma handleEntryState_picks_best_witness :
  let b := entryBot NewEntityTracker in
  let tick := tickOf (Some wildcards.spotted) in
  let all := allEntities wildcards.spotted (targetsGames b) in
  let t1 := (Update (order tick) (now tick) (entryTracker b) all).1 in
  let valid := FilterBlacklisted t1 all in
  let effects := (handleEntryState insertionSort tick b).2 in
  (valid = [] → clicks effects = [])
  ∧ (valid ≠ [] → ∃ e target p,
       clicks effects = [clickPoint b e]
       ∧ e = entityAt target p ∧ In target (targetsGames b)
       ∧ In p (screen.FindAllTemplates wildcards.spotted (Image target)
                 constants.DefaultTolerance)
       ∧ Y p ≤ 950
       ∧ IsBlacklisted t1 e = false
       ∧ ∀ e', In e' valid →
           Priority e' ≤ Priority e
           ∧ (Priority e' = Priority e →
              Y (Position e') ≤ Y (Position e))).
Proof.
  apply (handleEntryState_picks_best insertionSort
           (tickOf (Some wildcards.spotted)) (entryBot NewEntityTracker)
           wildcards.spotted).
  - apply insertionSort_valid.
  - reflexivity.
  - reflexivity.
  - reflexivity.
  - left. reflexivity.
Defined.

Lemma handleEntryState_fast_path_witness :
  let b := entryBot (SetLastHighPriority NewEntityTracker button) in
  let tick := tickOf (Some wildcards.spotted) in
  clicks (handleEntryState insertionSort tick b).2 = [clickPoint b button]
  ∧ ∃ target p, button = entityAt target p ∧ In target (targetsGames b)
      ∧ In p (screen.FindAllTemplatesInROI wildcards.spotted (Image target)
                (GetROI (entryTracker b)) constants.DefaultTolerance)
      ∧ Y p ≤ 950
      ∧ IsBlacklisted (entryTracker b) button = false.
Proof.
  apply (handleEntryState_fast_path insertionSort
           (tickOf (Some wildcards.spotted))
           (entryBot (SetLastHighPriority NewEntityTracker button))
           wildcards.spotted button).
  - reflexivity.
  - reflexivity.
  - reflexivity.
  - vm_compute. reflexivity.
  - vm_compute. reflexivity.
Defined.

End entry_pick_witness.

(** ** The bot: the state graph *)

Section state_graph.

Import global entity bot expedition botfacts lifecycle.

Variables (sort : Sorter) (tick : Tick) (from : BotState).

Lemma graph_modify (f : GlobalBot → GlobalBot) :
  (∀ b, State (f b) = State b) →
  hoare (fun b => allowed from (State b) = true) (modify f)
        (fun _ b => allowed from (State b) = true).
Proof. intros Hf. apply keeps_modify. intros b Hb. rewrite Hf. exact Hb. Qed.

Lemma graph_setState (s : BotState) :
  allowed from s = true →
  hoare (fun b => allowed from (State b) = true) (setState s)
        (fun _ b => allowed from (State b) = true).
Proof. intros Hs. apply keeps_modify. intros b _. exact Hs. Qed.

Lemma graph_recordClick (e : DetectedEntity) :
  hoare (fun b => allowed from (State b) = true) (recordClick tick e)
        (fun _ b => allowed from (State b) = true).
Proof.
  intros b Hb. unfold recordClick. destruct (RecordClick _ _ _ _ _).
  exact Hb.
Qed.

End state_graph.

Ltac graph :=
  keep;
  try (apply graph_setState; reflexivity);
  try (apply graph_modify; intros ?; reflexivity);
  try apply graph_recordClick.

Section state_graph_theorem.

Import global entity bot expedition botfacts lifecycle.

Lemma graph_verifyEntry (tick : Tick) (attempts : list Z) (flag : bool) :
  hoare (fun b => allowed StateEntry (State b) = true)
        (verifyEntry tick attempts flag)
        (fun _ b => allowed StateEntry (State b) = true).
Proof.
  revert flag. induction attempts as [|attempt rest IH]; intros flag;
    cbn [verifyEntry].
  - destruct flag; unfold resetTracker; graph.
  - destruct (verifyCapture tick attempt) as [img|]; unfold resetTracker;
      graph; apply IH.
Qed.

(** X28.  The states follow the graph of the expedition.  Whatever a tick
captures, [processState] moves the bot along one of these edges or leaves
it where it is: from AutoDetect to any state but Stopped; from Entry to
ExitStep1, EntryWaiting or InGame; from EntryWaiting to InGame or
SearchOpen; from InGame to ExitStep1; from ExitStep1 to ExitStep2; from
ExitStep2 to SearchOpen; from SearchOpen to SearchSelect, from SearchSelect
to SearchVerify, from SearchVerify to Entry, and from each of these three
back to AutoDetect; a stopped bot stays stopped. *)
Theorem step_follows_graph (sort : Sorter) (tick : Tick) (b : GlobalBot) :
  allowed (State b) (State (step sort b tick)) = true.
Proof.
  unfold step, processState. rewrite bind_run. cbn [get fst snd].
  destruct (State b) eqn:Hs;
    match goal with |- allowed ?s (State (?h b).1.2) = true =>
      assert (Hh : hoare (fun b' => allowed s (State b') = true) h
                         (fun _ b' => allowed s (State b') = true));
      [|apply Hh; rewrite Hs; reflexivity]
    end;
    unfold handleAutoDetectState, orElse, check, handleEntryState, fullScan,
      debugScreenshot, clickAndVerifyEntry, performClick,
      setLastHighPriority, updateTracker, resetTracker,
      handleEntryWaitingState, clickTarget, handleInGameState,
      handleExitState, handleExitStep2State, handleSearchOpenState,
      handleSearchSelectState, handleSearchVerifyState, searchStatus,
      searchFailed;
    graph.
  all: try apply graph_verifyEntry.
  all: try (intros b2 Hb2; exact Hb2).
Qed.

End state_graph_theorem.

(** ** The bot: AutoDetect *)

Section auto_detect.

Import global entity bot expedition botfacts lifecycle.

(** X29.  AutoDetect finds its way as soon as there is a marker to see.  A
tick of the AutoDetect state that captures a screen leaves the bot in
AutoDetect exactly when none of the markers of the eight lists is found on
that screen, and then changes nothing; as soon as one is found the bot
moves on, with the retry counter at zero. *)
Theorem autodetect_progress (sort : Sorter) (tick : Tick) (b : GlobalBot)
    (screenImg : image.Image) :
  State b = StateAutoDetect →
  capture tick = Some screenImg →
  (State (step sort b tick) = StateAutoDetect ↔ nothingShown b screenImg)
  ∧ (nothingShown b screenImg → step sort b tick = b)
  ∧ (¬ nothingShown b screenImg → searchRetryCount (step sort b tick) = 0).
Proof.
  intros Hs Hcap. unfold step, processState. rewrite bind_run.
  cbn [get fst snd]. rewrite Hs. unfold nothingShown.
  cbv beta iota zeta delta [handleAutoDetectState orElse check bind get emit
    modify ret setState fst snd].
  rewrite Hcap.
  repeat match goal with
         | |- context [firstFound screenImg ?l] =>
             destruct (firstFound screenImg l) as [[[? ?] ?]|]
         end;
    cbn [fst snd State searchRetryCount withState withRetryCount];
    (split; [split; [intros H; try discriminate H; repeat split
                    |intros (?&?&?&?&?&?&?&?); try discriminate; assumption]
            |split; [intros (?&?&?&?&?&?&?&?); try discriminate;
                     destruct b; simpl in *; congruence
                    |intros Hn; try reflexivity; exfalso; apply Hn;
                     repeat split]]).
Qed.

Lemma autodetect_progress_witness :
  let b := sampleBot StateAutoDetect in
  let tick := tickOf (Some matching.blackPixel) in
  (State (step insertionSort b tick) = StateAutoDetect
   ↔ nothingShown b matching.blackPixel)
  ∧ (nothingShown b matching.blackPixel → step insertionSort b tick = b)
  ∧ (¬ nothingShown b matching.blackPixel →
     searchRetryCount (step insertionSort b tick) = 0).
Proof.
  apply (autodetect_progress insertionSort (tickOf (Some matching.blackPixel))
           (sampleBot StateAutoDetect) matching.blackPixel).
  - reflexivity.
  - reflexivity.
Defined.

End auto_detect.

(** ** The debug tool's matcher against the bot's *)

Section debug_tool.

Import matching colour debug_match.

Variables (screenImg templateImg : Image) (tolerance : spec_float) (sx sy : Z).

Lemma matchNew_pixel_ok (ty tx total : Z) :
  screen.match_pixel screenImg templateImg sx sy tolerance ty tx = true →
  matchNew_pixel screenImg templateImg sx sy tolerance ty (Some (total, 0)) tx
  = Some (total + (if alpha templateImg (X (Min (Bounds templateImg)) + tx)
                         (Y (Min (Bounds templateImg)) + ty) =? 0
                   then 0 else 1), 0).
Proof.
  unfold screen.match_pixel, matchNew_pixel, alpha. cbv zeta.
  destruct (screen.getRgbAndAlpha templateImg _ _) as [[[tr tg] tb] ta].
  destruct (ta =? 0); [intros _; rewrite Z.add_0_r; reflexivity|].
  destruct (screen.getRgbAndAlpha screenImg _ _) as [[[sr sg] sb] sa].
  intros ->. reflexivity.
Qed.

Lemma matchNew_row_ok (ty : Z) (l : list Z) (total : Z) :
  (∀ tx, In tx l →
     screen.match_pixel screenImg templateImg sx sy tolerance ty tx = true) →
  ∃ total',
    fold_left (matchNew_pixel screenImg templateImg sx sy tolerance ty) l
              (Some (total, 0)) = Some (total', 0)
    ∧ total ≤ total' ≤ total + Z.of_nat (length l)
    ∧ ((∃ tx, In tx l
          ∧ alpha templateImg (X (Min (Bounds templateImg)) + tx)
                  (Y (Min (Bounds templateImg)) + ty) ≠ 0) → total < total')
    ∧ ((∀ tx, In tx l →
          alpha templateImg (X (Min (Bounds templateImg)) + tx)
                (Y (Min (Bounds templateImg)) + ty) = 0) → total' = total).
Proof.
  revert total. induction l as [|tx l IH]; intros total Hall;
    cbn [fold_left length].
  - exists total. split; [reflexivity|]. split; [lia|].
    split; [intros (tx & [] & _)|reflexivity].
  - rewrite matchNew_pixel_ok by (apply Hall; left; reflexivity).
    set (v := if alpha templateImg _ _ =? 0 then 0 else 1).
    assert (Hv : 0 ≤ v ≤ 1) by (unfold v; destruct (_ =? 0); lia).
    destruct (IH (total + v)) as (total' & Hfold & Hb & Hvis & Hnone);
      [intros tx' H; apply Hall; right; exact H|].
    exists total'. split; [exact Hfold|]. split; [lia|]. split.
    + intros (tx' & [<-|Hin] & Ha).
      * unfold v in *. destruct (Z.eqb_spec (alpha templateImg
          (X (Min (Bounds templateImg)) + tx)
          (Y (Min (Bounds templateImg)) + ty)) 0); [contradiction|lia].
      * assert (total + v < total') by (apply Hvis; eauto). lia.
    + intros Hz. rewrite Hnone by (intros tx' H; apply Hz; right; exact H).
      unfold v. rewrite (Hz tx) by (left; reflexivity). simpl. lia.
Qed.

Lemma matchNew_rows_ok (xs ys : list Z) (total : Z) :
  (∀ ty tx, In ty ys → In tx xs →
     screen.match_pixel screenImg templateImg sx sy tolerance ty tx = true) →
  ∃ total',
    fold_left
      (fun counters ty =>
         fold_left (matchNew_pixel screenImg templateImg sx sy tolerance ty)
                   xs counters)
      ys (Some (total, 0)) = Some (total', 0)
    ∧ total ≤ total' ≤ total + Z.of_nat (length ys) * Z.of_nat (length xs)
    ∧ ((∃ ty tx, In ty ys ∧ In tx xs
          ∧ alpha templateImg (X (Min (Bounds templateImg)) + tx)
                  (Y (Min (Bounds templateImg)) + ty) ≠ 0) → total < total')
    ∧ ((∀ ty tx, In ty ys → In tx xs →
          alpha templateImg (X (Min (Bounds templateImg)) + tx)
                (Y (Min (Bounds templateImg)) + ty) = 0) → total' = total).
Proof.
  revert total. induction ys as [|ty ys IH]; intros total Hall;
    cbn [fold_left length].
  - exists total. split; [reflexivity|]. split; [lia|].
    split; [intros (ty & tx & [] & _)|reflexivity].
  - destruct (matchNew_row_ok ty xs total) as (t1 & Hrow & Hb1 & Hvis1 & Hnone1);
      [intros tx H; apply Hall; [left; reflexivity|exact H]|].
    rewrite Hrow.
    destruct (IH t1) as (total' & Hfold & Hb & Hvis & Hnone);
      [intros ty' tx H1 H2; apply Hall; [right; exact H1|exact H2]|].
    exists total'. split; [exact Hfold|]. split; [lia|]. split.
    + intros (ty' & tx & [<-|Hin] & Hx & Ha).
      * assert (total < t1) by (apply Hvis1; eauto). lia.
      * assert (t1 < total') by (apply Hvis; eauto). lia.
    + intros Hz.
      rewrite Hnone by (intros ty' tx H1 H2; apply Hz; [right; exact H1|exact H2]).
      apply Hnone1. intros tx H. apply Hz; [left; reflexivity|exact H].
Qed.

(** X27.  The debug tool is the more lenient matcher.  On a template with
at least one pixel that is not transparent (and fewer than 2^53 pixels),
[matchNew] of cmd/debug_match accepts every position that [match] of the
bot's searcher accepts: a position that the tool rejects, the bot rejects
as well.  On a template whose pixels are all transparent the two disagree:
[match] accepts every position and [matchNew] none. *)
Theorem matchNew_accepts_match :
  Dx (Bounds templateImg) * Dy (Bounds templateImg) ≤ maxTolerance →
  (visibleSomewhere templateImg →
   screen.match_ screenImg templateImg sx sy tolerance = true →
   matchNew screenImg templateImg sx sy tolerance = true)
  ∧ (transparent templateImg →
     screen.match_ screenImg templateImg sx sy tolerance = true
     ∧ matchNew screenImg templateImg sx sy tolerance = false).
Proof.
  intros Hsize. split.
  - intros (tx & ty & Hx & Hy & Ha) Hm.
    rewrite match_true in Hm.
    destruct (matchNew_rows_ok (seqZ 0 (Dx (Bounds templateImg)))
                (seqZ 0 (Dy (Bounds templateImg))) 0)
      as (total & Hfold & Hb & Hvis & _).
    { intros ty' tx' H1 H2. apply In_seqZ in H1, H2. apply Hm; lia. }
    unfold matchNew. cbv zeta. rewrite Hfold.
    assert (Hpos : 0 < total).
    { apply Hvis. exists ty, tx. rewrite !In_seqZ.
      split; [lia|]. split; [lia|exact Ha]. }
    rewrite !length_seqZ in Hb.
    assert (Hmax : total ≤ maxTolerance).
    { rewrite !Z2Nat.id in Hb by lia. lia. }
    destruct (Z.eqb_spec total 0) as [|_]; [lia|].
    pose proof (integer_exact total ltac:(lia)) as Hex.
    unfold integerExact in Hex. unfold failRate.
    destruct (float64.of_Z total) as [| | |[|] m e]; try discriminate Hex.
    reflexivity.
  - intros Htr.
    assert (Hpix : ∀ ty tx, 0 ≤ ty < Dy (Bounds templateImg) →
              0 ≤ tx < Dx (Bounds templateImg) →
              screen.match_pixel screenImg templateImg sx sy tolerance ty tx
              = true).
    { intros ty tx Hy Hx. specialize (Htr tx ty Hx Hy).
      unfold screen.match_pixel, alpha in *. cbv zeta.
      destruct (screen.getRgbAndAlpha templateImg _ _) as [[[tr tg] tb] ta].
      rewrite Htr. reflexivity. }
    split; [apply match_true; exact Hpix|].
    destruct (matchNew_rows_ok (seqZ 0 (Dx (Bounds templateImg)))
                (seqZ 0 (Dy (Bounds templateImg))) 0)
      as (total & Hfold & _ & _ & Hnone).
    { intros ty' tx' H1 H2. apply In_seqZ in H1, H2. apply Hpix; lia. }
    unfold matchNew. cbv zeta. rewrite Hfold, Hnone; [reflexivity|].
    intros ty tx H1 H2. apply In_seqZ in H1, H2. apply Htr; lia.
Qed.

End debug_tool.

Section debug_tool_witness.

Import matching colour debug_match.

Lemma matchNew_accepts_match_witness :
  (visibleSomewhere whitePixel →
   screen.match_ wildcards.spotted whitePixel 2 1 constants.DefaultTolerance
   = true →
   matchNew wildcards.spotted whitePixel 2 1 constants.DefaultTolerance = true)
  ∧ (transparent whitePixel →
     screen.match_ wildcards.spotted whitePixel 2 1 constants.DefaultTolerance
     = true
     ∧ matchNew wildcards.spotted whitePixel 2 1 constants.DefaultTolerance
       = false).
Proof.
  apply (matchNew_accepts_match wildcards.spotted whitePixel
           constants.DefaultTolerance 2 1).
  vm_compute. discriminate.
Defined.

End debug_tool_witness.
